(** * lbm_drag_rpi: maskable event sources and the process supervisor

    A shallow embedding of the Raspberry Pi porting layer of the LoRa Basics
    Modem: the low power timer facility ([smtc_hal_lp_timer.c]), the GPIO
    interrupt controller ([smtc_hal_gpio.c]) and the supervising fork loop
    together with the command line parsing of [main.c].

    Conventions of the embedding.
    - C pointers are integers; [NULL] is [0].
    - A call through a handler's function pointer, [callback (context)], is
      recorded as a [Dispatch] event appended to the trace of the facility.
      Handlers are opaque: they are assumed not to re-enter the facility that
      dispatches them.
    - Every HAL function is one atomic step; asynchronous deliveries (signal
      handler, driver callback thread) are interleaved between steps.
    - A call to the operating system or to the GPIO driver whose return code
      the source tests takes that return code as an argument.
    - [Panic] is the worker leaving through [mcu_panic ()]; [Undef] is a C
      access outside an array or through a dangling pointer. *)

From stdpp Require Import base option list gmap.
From stdpp Require Import sorting.
From Stdlib Require Import ZArith String Ascii Lia.

Local Open Scope Z_scope.

(** ** Shared vocabulary *)

Definition NULL : Z := 0.

(** [callback (context)] issued by the dispatch site of slot [slot]. The slot
    tag is bookkeeping of the model: it names the array entry whose handler was
    called. *)
Inductive event : Type :=
  | Dispatch (slot : nat) (callback context : Z).

Definition event_slot (e : event) : nat :=
  match e with Dispatch i _ _ => i end.

Global Instance event_eq_dec : EqDecision event.
Proof. solve_decision. Defined.

(** Outcome of a HAL call. *)
Inductive result (A : Type) : Type :=
  | Ok (a : A)
  | Panic
  | Undef.
Arguments Ok {A} a.
Arguments Panic {A}.
Arguments Undef {A}.

Global Instance result_ret : MRet result := @Ok.
Global Instance result_bind : MBind result := λ A B f m,
  match m with
  | Ok a => f a
  | Panic => Panic
  | Undef => Undef
  end.

(** Array read: outside the array the behaviour of the C program is undefined. *)
Definition at_index {A : Type} (l : list A) (i : nat) : result A :=
  match l !! i with
  | Some x => Ok x
  | None => Undef
  end.

(** Modelled from the spec: [mcu_panic ()] is a macro of [smtc_hal_mcu.h],
    which is not among the sources. The worker tears its resources down and
    leaves with the restart code ([hal_mcu_reset] ends in [exit (3)]). *)
Definition mcu_panic {A : Type} : result A := Panic.

Definition MCU_PANIC_EXIT_CODE : Z := 3.

(** [for (size_t i = 0; i < n; i++) body (i);] started at index [i]. *)
Fixpoint for_from {S : Type} (i n : nat) (body : nat → S → result S) (s : S)
  : result S :=
  match n with
  | O => Ok s
  | Datatypes.S n' => s' ← body i s; for_from (Datatypes.S i) n' body s'
  end.

Definition for_loop {S : Type} (n : nat) (body : nat → S → result S) (s : S)
  : result S := for_from 0 n body s.

(** ** smtc_hal_lp_timer.c *)

Module LpTimer.

Definition HAL_LP_TIMER_NB : nat := 2.

Record hal_lp_timer_irq_t : Type := mk_irq {
  context : Z;
  callback : Z
}.

Record lp_timer_t : Type := mk_timer {
  signo : Z;
  handle : Z;
  tmr_irq : hal_lp_timer_irq_t;
  blocked : bool;
  pending : bool
}.

Global Instance irq_eq_dec : EqDecision hal_lp_timer_irq_t.
Proof. solve_decision. Defined.

Global Instance timer_eq_dec : EqDecision lp_timer_t.
Proof. solve_decision. Defined.

Definition set_signo (v : Z) (t : lp_timer_t) : lp_timer_t :=
  mk_timer v (handle t) (tmr_irq t) (blocked t) (pending t).
Definition set_handle (v : Z) (t : lp_timer_t) : lp_timer_t :=
  mk_timer (signo t) v (tmr_irq t) (blocked t) (pending t).
Definition set_tmr_irq (v : hal_lp_timer_irq_t) (t : lp_timer_t) : lp_timer_t :=
  mk_timer (signo t) (handle t) v (blocked t) (pending t).
Definition set_blocked (v : bool) (t : lp_timer_t) : lp_timer_t :=
  mk_timer (signo t) (handle t) (tmr_irq t) v (pending t).
Definition set_pending (v : bool) (t : lp_timer_t) : lp_timer_t :=
  mk_timer (signo t) (handle t) (tmr_irq t) (blocked t) v.

(** [struct timespec]: seconds and nanoseconds. *)
Definition timespec : Type := (Z * Z)%type.
Definition ZERO : timespec := (0, 0).

(** The static array [lptim], the [it_value] last programmed into the
    countdown of each slot ([ZERO] disarms it), and the handler calls made
    so far. *)
Record state : Type := mk_state {
  lptim : list lp_timer_t;
  it_value : list timespec;
  trace : list event
}.

(** Objects with static storage duration start zeroed. *)
Definition zero_timer : lp_timer_t :=
  mk_timer 0 0 (mk_irq NULL NULL) false false.

Definition init_state : state :=
  mk_state (replicate HAL_LP_TIMER_NB zero_timer)
           (replicate HAL_LP_TIMER_NB ZERO) [].

Definition store (id : nat) (t : lp_timer_t) (st : state) : state :=
  mk_state (<[id := t]> (lptim st)) (it_value st) (trace st).

Definition settime (id : nat) (v : timespec) (st : state) : state :=
  mk_state (lptim st) (<[id := v]> (it_value st)) (trace st).

Definition invoke (id : nat) (h : hal_lp_timer_irq_t) (st : state) : state :=
  mk_state (lptim st) (it_value st)
           (trace st ++ [Dispatch id (callback h) (context h)]).

(** [hal_lp_timer_init]: [sigrtmin], [sigrtmax] are the values of
    [SIGRTMIN] and [SIGRTMAX]; [rc_sigaction], [rc_create] the return codes
    of [sigaction] and [timer_create], [new_handle] the timer the latter
    allocates. *)
Definition hal_lp_timer_init (id : nat) (sigrtmin sigrtmax : Z)
    (rc_sigaction rc_create new_handle : Z) (st : state) : result state :=
  let signo := sigrtmin + Z.of_nat id + 1 in
  if sigrtmax <? signo then mcu_panic
  else
    t ← at_index (lptim st) id;
    let st1 := store id (set_signo signo t) st in
    if rc_sigaction =? -1 then mcu_panic
    else if rc_create =? -1 then mcu_panic
    else
      t1 ← at_index (lptim st1) id;
      Ok (store id (set_handle new_handle t1) st1).

Definition hal_lp_timer_start (id : nat) (milliseconds : Z)
    (irq : hal_lp_timer_irq_t) (rc_settime : Z) (st : state) : result state :=
  t ← at_index (lptim st) id;
  let st1 := store id (set_tmr_irq irq t) st in
  let its := (milliseconds `div` 1000, milliseconds `mod` 1000 * 1000000) in
  if rc_settime =? -1 then mcu_panic
  else Ok (settime id its st1).

Definition hal_lp_timer_stop (id : nat) (rc_settime : Z) (st : state)
  : result state :=
  t ← at_index (lptim st) id;
  let st1 := store id (set_tmr_irq (mk_irq NULL NULL) t) st in
  if rc_settime =? -1 then mcu_panic
  else Ok (settime id ZERO st1).

Definition hal_lp_timer_irq_enable (id : nat) (st : state) : result state :=
  t ← at_index (lptim st) id;
  let t1 := set_blocked false t in
  let st1 := store id t1 st in
  if pending t1 && negb (callback (tmr_irq t1) =? NULL) then
    let st2 := invoke id (tmr_irq t1) st1 in
    Ok (store id (set_pending false t1) st2)
  else Ok st1.

Definition hal_lp_timer_irq_disable (id : nat) (st : state) : result state :=
  t ← at_index (lptim st) id;
  Ok (store id (set_blocked true t) st).

(** The signal handler; [id] is [si->si_value.sival_int]. *)
Definition pl_timer_handler (id : nat) (st : state) : result state :=
  t ← at_index (lptim st) id;
  if blocked t then Ok (store id (set_pending true t) st)
  else if negb (callback (tmr_irq t) =? NULL) then
    Ok (invoke id (tmr_irq t) st)
  else Ok st.

(** One atomic step of the facility as seen from outside. *)
Inductive op : Type :=
  | Init (id : nat) (sigrtmin sigrtmax rc_sigaction rc_create new_handle : Z)
  | Start (id : nat) (milliseconds : Z) (irq : hal_lp_timer_irq_t) (rc : Z)
  | Stop (id : nat) (rc : Z)
  | IrqEnable (id : nat)
  | IrqDisable (id : nat)
  | Expire (id : nat).

Definition step (o : op) (st : state) : result state :=
  match o with
  | Init id lo hi rc1 rc2 h => hal_lp_timer_init id lo hi rc1 rc2 h st
  | Start id ms irq rc => hal_lp_timer_start id ms irq rc st
  | Stop id rc => hal_lp_timer_stop id rc st
  | IrqEnable id => hal_lp_timer_irq_enable id st
  | IrqDisable id => hal_lp_timer_irq_disable id st
  | Expire id => pl_timer_handler id st
  end.

Fixpoint run (ops : list op) (st : state) : result state :=
  match ops with
  | [] => Ok st
  | o :: ops' => st' ← step o st; run ops' st'
  end.

Definition reachable (st : state) : Prop :=
  ∃ ops, run ops init_state = Ok st.

End LpTimer.

(** ** smtc_hal_gpio.c *)

Module Gpio.

(** Constants of [pigpio.h]. *)
Definition PI_CLEAR : Z := 0.
Definition PI_SET : Z := 1.
Definition PI_INPUT : Z := 0.
Definition PI_OUTPUT : Z := 1.
Definition PI_PUD_OFF : Z := 0.
Definition PI_PUD_DOWN : Z := 1.
Definition PI_PUD_UP : Z := 2.
Definition RISING_EDGE : Z := 0.
Definition FALLING_EDGE : Z := 1.
Definition EITHER_EDGE : Z := 2.
Definition OFF : Z := 3.

(** Modelled from the spec: the enumerations of [smtc_hal_gpio.h] are not
    among the sources. The edge mode is one of off, rising, falling, both;
    the order of the enumerators is the order of the conversion table
    [modes], and of [pulls] for the pull mode. *)
Inductive hal_gpio_irq_mode_t : Type :=
  | BSP_GPIO_IRQ_MODE_OFF
  | BSP_GPIO_IRQ_MODE_RISING
  | BSP_GPIO_IRQ_MODE_FALLING
  | BSP_GPIO_IRQ_MODE_RISING_FALLING.

Inductive hal_gpio_pull_mode_t : Type :=
  | BSP_GPIO_PULL_MODE_NONE
  | BSP_GPIO_PULL_MODE_UP
  | BSP_GPIO_PULL_MODE_DOWN.

Definition irq_mode_value (m : hal_gpio_irq_mode_t) : nat :=
  match m with
  | BSP_GPIO_IRQ_MODE_OFF => 0
  | BSP_GPIO_IRQ_MODE_RISING => 1
  | BSP_GPIO_IRQ_MODE_FALLING => 2
  | BSP_GPIO_IRQ_MODE_RISING_FALLING => 3
  end.

Definition pull_mode_value (m : hal_gpio_pull_mode_t) : nat :=
  match m with
  | BSP_GPIO_PULL_MODE_NONE => 0
  | BSP_GPIO_PULL_MODE_UP => 1
  | BSP_GPIO_PULL_MODE_DOWN => 2
  end.

Global Instance irq_mode_eq_dec : EqDecision hal_gpio_irq_mode_t.
Proof. solve_decision. Defined.

(** Conversion arrays for the driver settings. *)
Definition modes : list Z := [OFF; RISING_EDGE; FALLING_EDGE; EITHER_EDGE].
Definition pulls : list Z := [PI_PUD_OFF; PI_PUD_UP; PI_PUD_DOWN].

(** Modelled from the spec: [hal_gpio_irq_t] is declared in
    [smtc_hal_gpio.h], which is not among the sources; the handler is the
    pair of a callback and its context, and the source also reads and
    writes the field [pin]. *)
Record hal_gpio_irq_t : Type := mk_irq {
  pin : Z;
  context : Z;
  callback : Z
}.

(** [irq] is a pointer to a structure owned by the caller. *)
Record gpio_t : Type := mk_gpio {
  irq : Z;
  irq_mode : hal_gpio_irq_mode_t;
  blocked : bool;
  pending : bool
}.

Global Instance gpio_irq_eq_dec : EqDecision hal_gpio_irq_t.
Proof. solve_decision. Defined.

Global Instance gpio_eq_dec : EqDecision gpio_t.
Proof. solve_decision. Defined.

Definition set_irq (v : Z) (g : gpio_t) : gpio_t :=
  mk_gpio v (irq_mode g) (blocked g) (pending g).
Definition set_irq_mode (v : hal_gpio_irq_mode_t) (g : gpio_t) : gpio_t :=
  mk_gpio (irq g) v (blocked g) (pending g).
Definition set_blocked (v : bool) (g : gpio_t) : gpio_t :=
  mk_gpio (irq g) (irq_mode g) v (pending g).
Definition set_pending (v : bool) (g : gpio_t) : gpio_t :=
  mk_gpio (irq g) (irq_mode g) (blocked g) v.
Definition set_pin (v : Z) (h : hal_gpio_irq_t) : hal_gpio_irq_t :=
  mk_irq v (context h) (callback h).

(** What the driver remembers of each pin: the level written, the pull and
    the direction, and the edge for which [gpio_irq_callback] is registered
    as interrupt service routine. *)
Record driver : Type := mk_driver {
  level : gmap Z Z;
  pud : gmap Z Z;
  mode : gmap Z Z;
  isr : gmap Z Z
}.

(** The static array [gpio], the handler structures of the callers, the
    driver, and the handler calls made so far. *)
Record state : Type := mk_state {
  gpio : list gpio_t;
  mem : gmap Z hal_gpio_irq_t;
  drv : driver;
  trace : list event
}.

Definition zero_gpio : gpio_t :=
  mk_gpio NULL BSP_GPIO_IRQ_MODE_OFF false false.

Definition no_driver_state : driver := mk_driver ∅ ∅ ∅ ∅.

Definition store (i : nat) (g : gpio_t) (st : state) : state :=
  mk_state (<[i := g]> (gpio st)) (mem st) (drv st) (trace st).

Definition poke (p : Z) (h : hal_gpio_irq_t) (st : state) : state :=
  mk_state (gpio st) (<[p := h]> (mem st)) (drv st) (trace st).

Definition with_drv (d : driver) (st : state) : state :=
  mk_state (gpio st) (mem st) d (trace st).

Definition invoke (i : nat) (h : hal_gpio_irq_t) (st : state) : state :=
  mk_state (gpio st) (mem st) (drv st)
           (trace st ++ [Dispatch i (callback h) (context h)]).

(** Read through a pointer to a handler structure. *)
Definition deref (st : state) (p : Z) : result hal_gpio_irq_t :=
  match mem st !! p with
  | Some h => Ok h
  | None => Undef
  end.

(** [pin - 0x2u] in unsigned arithmetic, and the same narrowed to the
    [uint8_t] of the interrupt trampoline. *)
Definition slot_index (pin : Z) : nat := Z.to_nat ((pin - 2) `mod` 2 ^ 32).
Definition slot_index8 (pin : Z) : nat :=
  Z.to_nat (((pin - 2) `mod` 2 ^ 32) `mod` 2 ^ 8).

(** Calls into the driver; [rc] is the return code of the call. *)
Definition gpioWrite (pin v : Z) (d : driver) : driver :=
  mk_driver (<[pin := v]> (level d)) (pud d) (mode d) (isr d).
Definition gpioSetPullUpDown (pin v : Z) (d : driver) : driver :=
  mk_driver (level d) (<[pin := v]> (pud d)) (mode d) (isr d).
Definition gpioSetMode (pin v : Z) (d : driver) : driver :=
  mk_driver (level d) (pud d) (<[pin := v]> (mode d)) (isr d).
Definition gpioSetISRFunc (pin : Z) (edge : option Z) (d : driver) : driver :=
  mk_driver (level d) (pud d) (mode d)
            (match edge with
             | Some e => <[pin := e]> (isr d)
             | None => delete pin (isr d)
             end).

(** One atomic step of the controller as seen from outside: the calls of the
    interface, an edge seen by the driver, the trampoline entered, and the
    owner of a handler structure writing to it. *)
Inductive op : Type :=
  | InitIn (pin : Z) (pull_mode : hal_gpio_pull_mode_t)
           (irq_mode : hal_gpio_irq_mode_t) (irq : Z)
           (rc_write rc_pud rc_mode rc_isr : Z)
  | InitOut (pin value rc_write rc_pud rc_mode : Z)
  | Attach (irq rc_isr : Z)
  | Detach (irq rc_isr : Z)
  | IrqEnable
  | IrqDisable
  | ClearPending (pin : Z)
  | SetValue (pin value rc_write : Z)
  | Edge (pin level tick : Z)
  | Callback (pin level tick : Z)
  | Write (p : Z) (h : hal_gpio_irq_t).

Section Facility.

(** Modelled from the spec: the number of pins [P_NUM] comes from a header
    that is not among the sources; the facility owns a fixed array of
    slots. *)
Variable P_NUM : nat.

Definition init_state (m : gmap Z hal_gpio_irq_t) : state :=
  mk_state (replicate P_NUM zero_gpio) m no_driver_state [].

Definition hal_gpio_set_value (pin value rc_write : Z) (st : state)
  : result state :=
  if negb (rc_write =? 0) then mcu_panic
  else Ok (with_drv
             (gpioWrite pin (if negb (value =? 0) then PI_SET else PI_CLEAR)
                        (drv st)) st).

Definition gpio_init (pin value pull_mode io_mode : Z)
    (rc_write rc_pud rc_mode : Z) (st : state) : result state :=
  st1 ← hal_gpio_set_value pin value rc_write st;
  if negb (rc_pud =? 0) then mcu_panic
  else
    let st2 := with_drv (gpioSetPullUpDown pin pull_mode (drv st1)) st1 in
    if negb (rc_mode =? 0) then mcu_panic
    else Ok (with_drv (gpioSetMode pin io_mode (drv st2)) st2).

Definition hal_gpio_irq_attach (irq : Z) (rc_isr : Z) (st : state)
  : result state :=
  if irq =? NULL then Ok st
  else
    h ← deref st irq;
    if callback h =? NULL then Ok st
    else
      g ← at_index (gpio st) (slot_index (pin h));
      match irq_mode g with
      | BSP_GPIO_IRQ_MODE_OFF => Ok st
      | m =>
          let st1 := store (slot_index (pin h)) (set_irq irq g) st in
          edge ← at_index modes (irq_mode_value m);
          if negb (rc_isr =? 0) then mcu_panic
          else Ok (with_drv (gpioSetISRFunc (pin h) (Some edge) (drv st1)) st1)
      end.

Definition hal_gpio_init_in (pin : Z) (pull_mode : hal_gpio_pull_mode_t)
    (irq_mode : hal_gpio_irq_mode_t) (irq : Z)
    (rc_write rc_pud rc_mode rc_isr : Z) (st : state) : result state :=
  st1 ← (if negb (irq =? NULL)
         then h ← deref st irq; Ok (poke irq (set_pin pin h) st)
         else Ok st);
  pull ← at_index pulls (pull_mode_value pull_mode);
  st2 ← gpio_init pin PI_CLEAR pull PI_INPUT rc_write rc_pud rc_mode st1;
  g ← at_index (gpio st2) (slot_index pin);
  let st3 := store (slot_index pin) (set_irq_mode irq_mode g) st2 in
  hal_gpio_irq_attach irq rc_isr st3.

Definition hal_gpio_init_out (pin value : Z) (rc_write rc_pud rc_mode : Z)
    (st : state) : result state :=
  gpio_init pin value PI_PUD_OFF PI_OUTPUT rc_write rc_pud rc_mode st.

Definition hal_gpio_irq_detach (irq : Z) (rc_isr : Z) (st : state)
  : result state :=
  if irq =? NULL then Ok st
  else
    h ← deref st irq;
    if negb (rc_isr =? 0) then mcu_panic
    else
      let st1 := with_drv (gpioSetISRFunc (pin h) None (drv st)) st in
      g ← at_index (gpio st1) (slot_index (pin h));
      Ok (store (slot_index (pin h)) (set_irq NULL g) st1).

(** Body of the loop of [hal_gpio_irq_enable]. The conjunction is
    evaluated left to right and stops at the first false operand. *)
Definition irq_enable_body (i : nat) (st : state) : result state :=
  g ← at_index (gpio st) i;
  let g1 := set_blocked false g in
  let st1 := store i g1 st in
  if pending g1 && negb (irq g1 =? NULL) then
    h ← deref st1 (irq g1);
    if negb (callback h =? NULL) then
      let st2 := invoke i h st1 in
      Ok (store i (set_pending false g1) st2)
    else Ok st1
  else Ok st1.

Definition hal_gpio_irq_enable (st : state) : result state :=
  for_loop P_NUM irq_enable_body st.

Definition irq_disable_body (i : nat) (st : state) : result state :=
  g ← at_index (gpio st) i;
  Ok (store i (set_blocked true g) st).

Definition hal_gpio_irq_disable (st : state) : result state :=
  for_loop P_NUM irq_disable_body st.

Definition clear_pending_body (i : nat) (st : state) : result state :=
  g ← at_index (gpio st) i;
  Ok (store i (set_pending false g) st).

Definition hal_gpio_clear_pending_irq (pin : Z) (st : state) : result state :=
  for_loop P_NUM clear_pending_body st.

(** The trampoline registered with the driver. *)
Definition gpio_irq_callback (pin level tick : Z) (st : state)
  : result state :=
  let index := slot_index8 pin in
  g ← at_index (gpio st) index;
  if blocked g then Ok (store index (set_pending true g) st)
  else if negb (irq g =? NULL) then
    h ← deref st (irq g);
    if negb (callback h =? NULL) then Ok (invoke index h st)
    else Ok st
  else Ok st.

(** Modelled from the spec: the GPIO driver is an external collaborator.
    It invokes the registered callback whenever the configured edge
    occurs on a pin, and nothing when no callback is registered for it.
    [level] is the level of the pin after the transition. *)
Definition edge_selected (edge level : Z) : bool :=
  if edge =? RISING_EDGE then level =? 1
  else if edge =? FALLING_EDGE then level =? 0
  else edge =? EITHER_EDGE.

(** Modelled from the spec: an edge on [pin] as the driver delivers it, to
    the trampoline when one is registered for that edge, to nobody
    otherwise. *)
Definition driver_edge_event (pin level tick : Z) (st : state)
  : result state :=
  match isr (drv st) !! pin with
  | Some edge =>
      if edge_selected edge level then gpio_irq_callback pin level tick st
      else Ok st
  | None => Ok st
  end.

Definition step (o : op) (st : state) : result state :=
  match o with
  | InitIn pin pull m irq rc1 rc2 rc3 rc4 =>
      hal_gpio_init_in pin pull m irq rc1 rc2 rc3 rc4 st
  | InitOut pin v rc1 rc2 rc3 => hal_gpio_init_out pin v rc1 rc2 rc3 st
  | Attach irq rc => hal_gpio_irq_attach irq rc st
  | Detach irq rc => hal_gpio_irq_detach irq rc st
  | IrqEnable => hal_gpio_irq_enable st
  | IrqDisable => hal_gpio_irq_disable st
  | ClearPending pin => hal_gpio_clear_pending_irq pin st
  | SetValue pin v rc => hal_gpio_set_value pin v rc st
  | Edge pin level tick => driver_edge_event pin level tick st
  | Callback pin level tick => gpio_irq_callback pin level tick st
  | Write p h => Ok (poke p h st)
  end.

Fixpoint run (ops : list op) (st : state) : result state :=
  match ops with
  | [] => Ok st
  | o :: ops' => st' ← step o st; run ops' st'
  end.

End Facility.

End Gpio.

(** ** main.c: command line *)

Module Main.

Record globals : Type := mk_globals {
  g_uplink_period_s : Z;
  g_packet_size : Z;
  g_packet_size_fixed : bool
}.

(** Initialisers of the configurable globals. *)
Definition defaults : globals := mk_globals 60 12 true.

(** Integer conversions: to [int], [uint32_t] and [uint8_t]. *)
Definition to_int (z : Z) : Z := (z + 2 ^ 31) `mod` 2 ^ 32 - 2 ^ 31.
Definition to_uint32 (z : Z) : Z := z `mod` 2 ^ 32.
Definition to_uint8 (z : Z) : Z := z `mod` 2 ^ 8.

Definition LONG_MAX : Z := 2 ^ 63 - 1.
Definition LONG_MIN : Z := - 2 ^ 63.

(** [atoi] of the C library, as [(int) strtol (nptr, NULL, 10)]: leading
    white space, an optional sign, then decimal digits up to the first
    character that is none; [strtol] saturates at the bounds of [long]. *)
Definition isspace (c : ascii) : bool :=
  let n := Z.of_nat (nat_of_ascii c) in
  (n =? 32) || ((9 <=? n) && (n <=? 13)).

Definition digit_of (c : ascii) : option Z :=
  let n := Z.of_nat (nat_of_ascii c) in
  if (48 <=? n) && (n <=? 57) then Some (n - 48) else None.

Fixpoint skip_spaces (s : string) : string :=
  match s with
  | String c s' => if isspace c then skip_spaces s' else s
  | EmptyString => s
  end.

Fixpoint digits (s : string) (acc : Z) : Z :=
  match s with
  | String c s' =>
      match digit_of c with
      | Some d => digits s' (acc * 10 + d)
      | None => acc
      end
  | EmptyString => acc
  end.

Definition strtol (s : string) : Z :=
  match skip_spaces s with
  | String "-"%char s' => Z.max LONG_MIN (- digits s' 0)
  | String "+"%char s' => Z.min LONG_MAX (digits s' 0)
  | s' => Z.min LONG_MAX (digits s' 0)
  end.

Definition atoi (s : string) : Z := to_int (strtol s).

Definition strcmp_eq0 (a b : string) : bool := String.eqb a b.

(** [argv[i]], for [i < argc]. *)
Definition arg (argv : list string) (i : nat) : string :=
  nth i argv EmptyString.

(** The three argument blocks at the head of [main]. *)
Definition parse_period (argv : list string) (g : globals) : globals :=
  if 2 <=? Z.of_nat (List.length argv) then
    let p := atoi (arg argv 1) in
    let p := if p <? 1 then 1 else p in
    mk_globals (to_uint32 p) (g_packet_size g) (g_packet_size_fixed g)
  else g.

Definition parse_size (argv : list string) (g : globals) : globals :=
  if 3 <=? Z.of_nat (List.length argv) then
    let s := atoi (arg argv 2) in
    let s := if s <? 1 then 1 else s in
    let s := if 222 <? s then 222 else s in
    mk_globals (g_uplink_period_s g) (to_uint8 s) (g_packet_size_fixed g)
  else g.

Definition parse_mode (argv : list string) (g : globals) : globals :=
  if 4 <=? Z.of_nat (List.length argv) then
    if strcmp_eq0 (arg argv 3) "var"%string
       || strcmp_eq0 (arg argv 3) "variable"%string
       || strcmp_eq0 (arg argv 3) "1"%string
    then mk_globals (g_uplink_period_s g) (g_packet_size g) false
    else mk_globals (g_uplink_period_s g) (g_packet_size g) true
  else g.

Definition parse_args (argv : list string) : globals :=
  parse_mode argv (parse_size argv (parse_period argv defaults)).

End Main.

(** ** main.c: the fork loop *)

Module Supervisor.

(** How a worker ends: [exit (code)] or [_exit], or an uncaught signal. *)
Inductive termination : Type :=
  | Exited (code : Z)
  | Signaled (sig : Z) (core_dumped : bool).

Global Instance termination_eq_dec : EqDecision termination.
Proof. solve_decision. Defined.

(** Signals are numbered from 1 to 64; the exit status is a byte. *)
Definition valid_termination (t : termination) : Prop :=
  match t with
  | Exited code => 0 <= code < 256
  | Signaled sig _ => 1 <= sig <= 64
  end.

(** The wait status [waitpid] stores, and the macros of [<sys/wait.h>] that
    take it apart. *)
Definition wstatus_of (t : termination) : Z :=
  match t with
  | Exited code => Z.shiftl (Z.land code 255) 8
  | Signaled sig core => Z.lor (Z.land sig 127) (if core then 128 else 0)
  end.

Definition WIFEXITED (wstatus : Z) : bool := Z.land wstatus 127 =? 0.
Definition WEXITSTATUS (wstatus : Z) : Z :=
  Z.shiftr (Z.land wstatus 65280) 8.

(** [WIFEXITED (wstatus) && WEXITSTATUS (wstatus) == 3] *)
Definition loop_condition (wstatus : Z) : bool :=
  WIFEXITED wstatus && (WEXITSTATUS wstatus =? 3).

(** What one call of [fork ()] leads to: a worker, which never returns from
    its entry point and ends as given, or no process at all. *)
Inductive fork_result : Type :=
  | Child (t : termination)
  | ForkFailed.

Inductive supervisor_state : Type := RUNNING | STOPPED.

(** The [do ... while] loop. [env] is the fate of the successive calls of
    [fork]; once it is used up the worker forked next is still alive and the
    supervisor blocks in [waitpid]. A failed [fork] makes [waitpid (-1)]
    return at once, for want of children, and leaves [wstatus] as it was.
    The result counts the workers forked. *)
Fixpoint fork_loop (env : list fork_result) (wstatus : Z) (workers : nat)
  : nat * supervisor_state :=
  match env with
  | [] => (S workers, RUNNING)
  | Child t :: env' =>
      let wstatus := wstatus_of t in
      if loop_condition wstatus then fork_loop env' wstatus (S workers)
      else (S workers, STOPPED)
  | ForkFailed :: env' =>
      if loop_condition wstatus then fork_loop env' wstatus workers
      else (workers, STOPPED)
  end.

(** [int wstatus = 0;] and no worker yet. *)
Definition supervise (env : list fork_result) : nat * supervisor_state :=
  fork_loop env 0 0.

End Supervisor.

(** ** Reading the slots *)

Module GpioView.
Import Gpio.

(** The handler a pin slot would call: none when no structure is attached or
    when the callback of the attached structure is null. *)
Definition handler_of (m : gmap Z hal_gpio_irq_t) (g : gpio_t)
  : option hal_gpio_irq_t :=
  if irq g =? NULL then None
  else match m !! irq g with
       | Some h => if callback h =? NULL then None else Some h
       | None => None
       end.

(** Every attached pointer refers to a live structure. *)
Definition attached_live (m : gmap Z hal_gpio_irq_t) (g : gpio_t) : Prop :=
  irq g = NULL ∨ is_Some (m !! irq g).

Definition well_formed (P_NUM : nat) (st : state) : Prop :=
  List.length (gpio st) = P_NUM ∧ Forall (attached_live (mem st)) (gpio st).

Global Instance attached_live_dec m g : Decision (attached_live m g).
Proof. unfold attached_live. apply _. Defined.

Global Instance well_formed_dec P_NUM st : Decision (well_formed P_NUM st).
Proof. unfold well_formed. apply _. Defined.

(** What unmasking does to one slot: the handler it calls, the slot it
    leaves, and the events of a whole pass over the slots from index [k]. *)
Definition fires (m : gmap Z hal_gpio_irq_t) (g : gpio_t)
  : option hal_gpio_irq_t :=
  if pending g then handler_of m g else None.

Definition unmasked (m : gmap Z hal_gpio_irq_t) (g : gpio_t) : gpio_t :=
  match fires m g with
  | Some _ => set_pending false (set_blocked false g)
  | None => set_blocked false g
  end.

Definition dispatch_of (i : nat) (o : option hal_gpio_irq_t) : list event :=
  match o with
  | Some h => [Dispatch i (callback h) (context h)]
  | None => []
  end.

Fixpoint enable_events (m : gmap Z hal_gpio_irq_t) (k : nat) (l : list gpio_t)
  : list event :=
  match l with
  | [] => []
  | g :: l' => dispatch_of k (fires m g) ++ enable_events m (S k) l'
  end.

(** A loop body that rewrites slot [i] with [f]. *)
Definition update_body (f : gpio_t → gpio_t) (i : nat) (st : state)
  : result state :=
  g ← at_index (gpio st) i; Ok (store i (f g) st).

(** The events of a trace that come from slot [i]. *)
Definition from_slot (i : nat) (l : list event) : list event :=
  filter (λ e, event_slot e = i) l.

End GpioView.

Module LpTimerView.
Import LpTimer.

(** A handler is attached to the slot: its callback is not null. *)
Definition has_handler (t : lp_timer_t) : bool :=
  negb (callback (tmr_irq t) =? NULL).

(** The step starts timer [id] with the handler [old]. *)
Definition restarts (id : nat) (old : hal_lp_timer_irq_t) (o : op) : bool :=
  match o with
  | Start id' _ irq _ => bool_decide (id' = id ∧ irq = old)
  | _ => false
  end.

(** The slot [id] does not hold the handler [old], or holds none. *)
Definition detached (id : nat) (old : hal_lp_timer_irq_t) (s : state) : Prop :=
  ∃ t, lptim s !! id = Some t
       ∧ (tmr_irq t ≠ old ∨ callback (tmr_irq t) = NULL).

End LpTimerView.

(** ** Concrete runs *)

Module Scenario.

Definition handler_a : LpTimer.hal_lp_timer_irq_t := LpTimer.mk_irq 42 7.
Definition handler_b : LpTimer.hal_lp_timer_irq_t := LpTimer.mk_irq 43 8.

Definition timers_after (ops : list LpTimer.op) : LpTimer.state :=
  match LpTimer.run ops LpTimer.init_state with
  | Ok st => st
  | _ => LpTimer.init_state
  end.

(** Timer 0 is started and masked. *)
Definition started_masked : list LpTimer.op :=
  [LpTimer.Start 0 100 handler_a 0; LpTimer.IrqDisable 0].

(** Timer 0 is started, masked, expires, and is stopped before the unmask. *)
Definition expired_then_stopped : list LpTimer.op :=
  started_masked ++ [LpTimer.Expire 0; LpTimer.Stop 0 0].

(** The same, then unmasked and started again with another handler. *)
Definition stale_then_restarted : list LpTimer.op :=
  expired_then_stopped ++ [LpTimer.IrqEnable 0; LpTimer.Start 0 50 handler_b 0].

Definition pins : nat := 4.
Definition irq_ptr : Z := 1000.
Definition pin_handler : Gpio.hal_gpio_irq_t := Gpio.mk_irq 0 42 7.
Definition heap : gmap Z Gpio.hal_gpio_irq_t := {[irq_ptr := pin_handler]}.

Definition pins_after (ops : list Gpio.op) : Gpio.state :=
  match Gpio.run pins ops (Gpio.init_state pins heap) with
  | Ok st => st
  | _ => Gpio.init_state pins heap
  end.

(** Pin 3 is configured for the rising edge with a handler, then every pin
    is masked. *)
Definition rising_masked : list Gpio.op :=
  [Gpio.InitIn 3 Gpio.BSP_GPIO_PULL_MODE_DOWN Gpio.BSP_GPIO_IRQ_MODE_RISING
               irq_ptr 0 0 0 0;
   Gpio.IrqDisable].

End Scenario.

(** ** smtc_hal_gpio.c: teardown *)

Module GpioTeardown.
Import Gpio.

Section Facility.

(** Modelled from the spec: the number of pins [P_NUM], as for [Gpio]. *)
Variable P_NUM : nat.

(** Body of the loop of [hal_gpio_irq_deinit]; [rc] is the return code of
    [gpioSetISRFunc] for this slot. A failure is traced and the loop goes on;
    the driver drops its registration when it reports success. *)
Definition irq_deinit_body (rc : nat → Z) (i : nat) (st : state) : result state :=
  g ← at_index (gpio st) i;
  if negb (irq g =? NULL) then
    h ← deref st (irq g);
    if negb (rc i =? 0) then Ok st
    else Ok (with_drv (gpioSetISRFunc (pin h) None (drv st)) st)
  else Ok st.

Definition hal_gpio_irq_deinit (rc : nat → Z) (st : state) : result state :=
  for_loop P_NUM (irq_deinit_body rc) st.

End Facility.

End GpioTeardown.

(** ** smtc_hal_rtc.c *)

Module Rtc.

(** [rtc_starttime], [rtc_tid], and the [it_value] last programmed into the
    wake-up countdown. *)
Record state : Type := mk_state {
  rtc_starttime : LpTimer.timespec;
  rtc_tid : Z;
  it_value : LpTimer.timespec
}.

Definition init_state : state := mk_state LpTimer.ZERO 0 LpTimer.ZERO.

(** [hal_rtc_init]: [now] is what [clock_gettime] reads. *)
Definition hal_rtc_init (now : LpTimer.timespec) (rc_create new_tid rc_sigaction : Z)
    (st : state) : result state :=
  let st1 := mk_state now (rtc_tid st) (it_value st) in
  if rc_create =? -1 then mcu_panic
  else
    let st2 := mk_state (rtc_starttime st1) new_tid (it_value st1) in
    if rc_sigaction =? -1 then mcu_panic
    else Ok st2.

(** [hal_rtc_get_time_s]: the comparison counts for 1 when it holds; the
    result is returned as [uint32_t]. *)
Definition hal_rtc_get_time_s (now : LpTimer.timespec) (st : state) : Z :=
  Main.to_uint32
    (now.1 - (rtc_starttime st).1
     - (if now.2 <? (rtc_starttime st).2 then 1 else 0)).

(** [hal_rtc_wakeup_timer_set_ms]: [milliseconds] is an [int32_t]; division
    and remainder truncate toward zero. *)
Definition hal_rtc_wakeup_timer_set_ms (milliseconds : Z) (rc_settime : Z)
    (st : state) : result state :=
  let its := (milliseconds `quot` 1000, milliseconds `rem` 1000 * 1000000) in
  if rc_settime =? -1 then mcu_panic
  else Ok (mk_state (rtc_starttime st) (rtc_tid st) its).

Definition hal_rtc_wakeup_timer_stop (rc_settime : Z) (st : state)
  : result state :=
  if rc_settime =? -1 then mcu_panic
  else Ok (mk_state (rtc_starttime st) (rtc_tid st) LpTimer.ZERO).

(** Nanoseconds of a time stamp, and the time stamps the clock hands out. *)
Definition nanoseconds (t : LpTimer.timespec) : Z := t.1 * 1000000000 + t.2.

Definition normalized (t : LpTimer.timespec) : Prop :=
  0 <= t.2 < 1000000000.

End Rtc.

(** ** smtc_hal_mcu.c: sleeping *)

Module Mcu.

(** The flag [sleeping], the state of the real time clock module, and the
    time spent so far in [hal_mcu_wait_us] (bookkeeping of the model). *)
Record state : Type := mk_state {
  sleeping : bool;
  rtc : Rtc.state;
  waited_us : Z
}.

Definition init_state : state := mk_state false Rtc.init_state 0.

Definition hal_mcu_wakeup (st : state) : state :=
  mk_state false (rtc st) (waited_us st).

Definition hal_mcu_wait_us (microseconds : Z) (st : state) : state :=
  mk_state (sleeping st) (rtc st) (waited_us st + microseconds).

(** [while (sleeping) hal_mcu_wait_us (500);]. The wait cannot be cut short by
    a signal. [wakes] says, for each wait in turn, whether [hal_mcu_wakeup] is
    called from a signal handler or a driver thread while it lasts; when the
    list is used up the loop is still turning. *)
Fixpoint sleep_loop (wakes : list bool) (st : state) : option state :=
  if sleeping st then
    match wakes with
    | [] => None
    | w :: wakes' =>
        let st1 := hal_mcu_wait_us 500 st in
        sleep_loop wakes' (if w then hal_mcu_wakeup st1 else st1)
    end
  else Some st.

Definition sleep_handler (wakes : list bool) (st : state) : option state :=
  sleep_loop wakes (mk_state true (rtc st) (waited_us st)).

(** [hal_mcu_set_sleep_for_ms]; [None] when it has not returned by the end
    of [wakes]. *)
Definition hal_mcu_set_sleep_for_ms (milliseconds : Z)
    (rc_set rc_stop : Z) (wakes : list bool) (st : state)
  : option (result state) :=
  if milliseconds <=? 0 then Some (Ok st)
  else
    match Rtc.hal_rtc_wakeup_timer_set_ms milliseconds rc_set (rtc st) with
    | Ok r1 =>
        match sleep_handler wakes (mk_state (sleeping st) r1 (waited_us st)) with
        | Some st2 =>
            Some (r2 ← Rtc.hal_rtc_wakeup_timer_stop rc_stop (rtc st2);
                  Ok (mk_state (sleeping st2) r2 (waited_us st2)))
        | None => None
        end
    | Panic => Some Panic
    | Undef => Some Undef
    end.

(** The number of waits up to and including the first one that sees a
    wake-up. *)
Fixpoint waits_until_woken (wakes : list bool) : option nat :=
  match wakes with
  | [] => None
  | w :: wakes' =>
      if w then Some 1%nat else S <$> waits_until_woken wakes'
  end.

End Mcu.

(** ** smtc_hal_nvm.c *)

Module Nvm.

(** The file at [pathname]: absent until it is first opened, then its
    bytes. *)
Definition storage : Type := option (list Byte.byte).

(** Return values of the four system calls of one access: [open], [lseek],
    [write] or [read] (the number of bytes transferred, or a negative value),
    and [close]. *)
Record syscalls : Type := mk_syscalls {
  rc_open : Z;
  rc_lseek : Z;
  n_xfer : Z;
  rc_close : Z
}.

(** A regular file written at offset [addr]: a gap before [addr] reads as
    zeros, what lies behind the data is kept. When no byte is transferred the
    file is left as it is, also when [addr] lies behind its end. *)
Definition file_write (content : list Byte.byte) (addr : nat)
    (data : list Byte.byte) : list Byte.byte :=
  match data with
  | [] => content
  | _ :: _ =>
      take addr (content ++ replicate (addr - List.length content) Byte.x00)
      ++ data ++ drop (addr + List.length data) content
  end.

(** The bytes a read of [size] bytes at offset [addr] can deliver. *)
Definition file_read (content : list Byte.byte) (addr size : nat)
  : list Byte.byte :=
  take size (drop addr content).

(** [hal_nvm_write_buffer]. The file is created when absent and never
    truncated; the count [write] returns is tested for its sign only. What
    the file holds is returned together with the outcome, since the file
    outlives the worker. *)
Definition hal_nvm_write_buffer (addr : Z) (buffer : list Byte.byte) (size : Z)
    (os : syscalls) (fs : storage) : storage * result unit :=
  if rc_open os <? 0 then (fs, mcu_panic)
  else
    let content := default [] fs in
    if rc_lseek os <? 0 then (Some content, mcu_panic)
    else if Z.of_nat (List.length buffer) <? size then (Some content, Undef)
    else if n_xfer os <? 0 then (Some content, mcu_panic)
    else
      let data := take (Z.to_nat (Z.min (n_xfer os) size)) buffer in
      let content' := file_write content (Z.to_nat addr) data in
      if rc_close os <? 0 then (Some content', mcu_panic)
      else (Some content', Ok ()).

(** [hal_nvm_read_buffer]; the outcome carries the buffer after the call. *)
Definition hal_nvm_read_buffer (addr : Z) (buffer : list Byte.byte) (size : Z)
    (os : syscalls) (fs : storage) : storage * result (list Byte.byte) :=
  if rc_open os <? 0 then (fs, mcu_panic)
  else
    let content := default [] fs in
    if rc_lseek os <? 0 then (Some content, mcu_panic)
    else if Z.of_nat (List.length buffer) <? size then (Some content, Undef)
    else if n_xfer os <? 0 then (Some content, mcu_panic)
    else
      let got := take (Z.to_nat (n_xfer os))
                      (file_read content (Z.to_nat addr) (Z.to_nat size)) in
      let buffer' := got ++ drop (List.length got) buffer in
      if rc_close os <? 0 then (Some content, mcu_panic)
      else (Some content, Ok buffer').

(** Every call succeeds and transfers [size] bytes. *)
Definition complete (size : Z) : syscalls := mk_syscalls 3 0 size 0.

End Nvm.

(** ** smtc_modem_hal.c *)

Module ModemHal.

Definition ADDR_STACK_LORAWAN_CONTEXT_OFFSET : Z := 0.
Definition ADDR_STACK_MODEM_KEY_CONTEXT_OFFSET : Z := 50.
Definition ADDR_STACK_MODEM_CONTEXT_OFFSET : Z := 75.
Definition ADDR_STACK_SECURE_ELEMENT_CONTEXT_OFFSET : Z := 100.

(** Modelled from the spec: [modem_context_type_t] is declared in a header
    of the protocol engine, which is not among the sources. Its enumerators
    are the case labels of the two switches; [CONTEXT_OTHER] is any other
    value, which takes the default branch. *)
Inductive modem_context_type_t : Type :=
  | CONTEXT_MODEM
  | CONTEXT_KEY_MODEM
  | CONTEXT_LORAWAN_STACK
  | CONTEXT_FUOTA
  | CONTEXT_STORE_AND_FORWARD
  | CONTEXT_SECURE_ELEMENT
  | CONTEXT_OTHER (v : Z).

(** Where a context of the given type lives in the file; none for the types
    that are not kept. [offset] is a [uint32_t], and so is the sum. *)
Definition context_address (ctx_type : modem_context_type_t) (offset : Z)
  : option Z :=
  match ctx_type with
  | CONTEXT_MODEM => Some ADDR_STACK_MODEM_CONTEXT_OFFSET
  | CONTEXT_KEY_MODEM => Some ADDR_STACK_MODEM_KEY_CONTEXT_OFFSET
  | CONTEXT_LORAWAN_STACK =>
      Some (Main.to_uint32 (ADDR_STACK_LORAWAN_CONTEXT_OFFSET + offset))
  | CONTEXT_SECURE_ELEMENT => Some ADDR_STACK_SECURE_ELEMENT_CONTEXT_OFFSET
  | _ => None
  end.

Definition smtc_modem_hal_context_restore (ctx_type : modem_context_type_t)
    (offset : Z) (buffer : list Byte.byte) (size : Z)
    (os : Nvm.syscalls) (fs : Nvm.storage)
  : Nvm.storage * result (list Byte.byte) :=
  match ctx_type with
  | CONTEXT_MODEM =>
      Nvm.hal_nvm_read_buffer ADDR_STACK_MODEM_CONTEXT_OFFSET buffer size os fs
  | CONTEXT_KEY_MODEM =>
      Nvm.hal_nvm_read_buffer ADDR_STACK_MODEM_KEY_CONTEXT_OFFSET buffer size os fs
  | CONTEXT_LORAWAN_STACK =>
      Nvm.hal_nvm_read_buffer
        (Main.to_uint32 (ADDR_STACK_LORAWAN_CONTEXT_OFFSET + offset))
        buffer size os fs
  | CONTEXT_FUOTA => (fs, Ok buffer)
  | CONTEXT_STORE_AND_FORWARD => (fs, Ok buffer)
  | CONTEXT_SECURE_ELEMENT =>
      Nvm.hal_nvm_read_buffer ADDR_STACK_SECURE_ELEMENT_CONTEXT_OFFSET
                              buffer size os fs
  | CONTEXT_OTHER _ => (fs, mcu_panic)
  end.

Definition smtc_modem_hal_context_store (ctx_type : modem_context_type_t)
    (offset : Z) (buffer : list Byte.byte) (size : Z)
    (os : Nvm.syscalls) (fs : Nvm.storage) : Nvm.storage * result unit :=
  match ctx_type with
  | CONTEXT_MODEM =>
      Nvm.hal_nvm_write_buffer ADDR_STACK_MODEM_CONTEXT_OFFSET buffer size os fs
  | CONTEXT_KEY_MODEM =>
      Nvm.hal_nvm_write_buffer ADDR_STACK_MODEM_KEY_CONTEXT_OFFSET buffer size os fs
  | CONTEXT_LORAWAN_STACK =>
      Nvm.hal_nvm_write_buffer
        (Main.to_uint32 (ADDR_STACK_LORAWAN_CONTEXT_OFFSET + offset))
        buffer size os fs
  | CONTEXT_FUOTA => (fs, Ok ())
  | CONTEXT_STORE_AND_FORWARD => (fs, Ok ())
  | CONTEXT_SECURE_ELEMENT =>
      Nvm.hal_nvm_write_buffer ADDR_STACK_SECURE_ELEMENT_CONTEXT_OFFSET
                               buffer size os fs
  | CONTEXT_OTHER _ => (fs, mcu_panic)
  end.

(** The pin controller and the timer facility side by side. *)
Record state : Type := mk_state {
  pins : Gpio.state;
  timers : LpTimer.state
}.

(** A notification from either asynchronous source. *)
Inductive notification : Type :=
  | TimerExpiry (id : nat)
  | PinCallback (pin level tick : Z).

Section Board.

(** Modelled from the spec: the number of pins, the two timer identifiers
    and the build option [SX127X] come from headers and from the build, which
    are not among the sources. *)
Variable P_NUM : nat.
Variables HAL_LP_TIMER_ID_1 HAL_LP_TIMER_ID_2 : nat.
Variable SX127X : bool.

Definition smtc_modem_hal_disable_modem_irq (st : state) : result state :=
  p ← Gpio.hal_gpio_irq_disable P_NUM (pins st);
  t1 ← LpTimer.hal_lp_timer_irq_disable HAL_LP_TIMER_ID_1 (timers st);
  t2 ← (if SX127X then LpTimer.hal_lp_timer_irq_disable HAL_LP_TIMER_ID_2 t1
        else Ok t1);
  Ok (mk_state p t2).


Definition deliver (n : notification) (st : state) : result state :=
  match n with
  | TimerExpiry id =>
      t ← LpTimer.pl_timer_handler id (timers st); Ok (mk_state (pins st) t)
  | PinCallback pin level tick =>
      p ← Gpio.gpio_irq_callback pin level tick (pins st);
      Ok (mk_state p (timers st))
  end.

Fixpoint deliver_all (ns : list notification) (st : state) : result state :=
  match ns with
  | [] => Ok st
  | n :: ns' => st' ← deliver n st; deliver_all ns' st'
  end.

(** The sources the pair disable/enable brackets: every pin, the first
    timer, and the second timer when the build has [SX127X]. *)
Definition bracketed (n : notification) : bool :=
  match n with
  | TimerExpiry id =>
      bool_decide (id = HAL_LP_TIMER_ID_1)
      || (SX127X && bool_decide (id = HAL_LP_TIMER_ID_2))
  | PinCallback pin _ _ => bool_decide (Gpio.slot_index8 pin < P_NUM)%nat
  end.

(** While the bracket is open: every covered source is masked, and the two
    traces are still [tp] and [tt]. *)
Definition in_bracket (tp tt : list event) (s : state) : Prop :=
  List.length (Gpio.gpio (pins s)) = P_NUM
  ∧ Forall (λ g, Gpio.blocked g = true) (Gpio.gpio (pins s))
  ∧ (LpTimer.blocked <$> LpTimer.lptim (timers s) !! HAL_LP_TIMER_ID_1)
    = Some true
  ∧ (SX127X = true →
     (LpTimer.blocked <$> LpTimer.lptim (timers s) !! HAL_LP_TIMER_ID_2)
     = Some true)
  ∧ Gpio.trace (pins s) = tp
  ∧ LpTimer.trace (timers s) = tt.

End Board.

End ModemHal.

(** ** main_periodical_uplink.c *)

Module App.

Definition PACKET_SIZE_MIN_VARIABLE : Z := 1.

(** The double quote character. *)
Definition DQUOTE : ascii := ascii_of_nat 34.

(** The characters [csv_write_escaped_field] puts on the stream; [None] is
    the null pointer. A C string is given by its characters before the
    terminator. *)
Fixpoint escape_loop (str : string) : string :=
  match str with
  | EmptyString => EmptyString
  | String c str' =>
      if Ascii.eqb c DQUOTE
      then String DQUOTE (String c (escape_loop str'))
      else String c (escape_loop str')
  end.

Definition csv_write_escaped_field (str : option string) : string :=
  String DQUOTE
    (String.append
       (match str with
        | Some s => escape_loop s
        | None => EmptyString
        end)
       (String DQUOTE EmptyString)).

(** Reading a quoted field back (RFC 4180): the text between the outer
    quotes, a doubled quote standing for one; [None] when the text is not a
    quoted field. *)
Fixpoint unquote_loop (s : string) : option string :=
  match s with
  | EmptyString => None
  | String c s' =>
      if Ascii.eqb c DQUOTE then
        match s' with
        | EmptyString => Some EmptyString
        | String c' s'' =>
            if Ascii.eqb c' DQUOTE
            then String DQUOTE <$> unquote_loop s''
            else None
        end
      else String c <$> unquote_loop s'
  end.

Definition csv_read_quoted_field (s : string) : option string :=
  match s with
  | String c s' => if Ascii.eqb c DQUOTE then unquote_loop s' else None
  | EmptyString => None
  end.

(** [%02X] of one byte. *)
Definition hex_digit (n : N) : ascii :=
  nth (N.to_nat n) (list_ascii_of_string "0123456789ABCDEF") "?"%char.

Definition byte_hex (b : Byte.byte) : string :=
  String (hex_digit (Byte.to_N b / 16))
         (String (hex_digit (Byte.to_N b mod 16)) EmptyString).

Fixpoint hex_loop (buf : list Byte.byte) (len : nat) {struct len}
  : result string :=
  match len with
  | O => Ok EmptyString
  | S len' =>
      match buf with
      | [] => Undef
      | b :: buf' => s ← hex_loop buf' len'; Ok (String.append (byte_hex b) s)
      end
  end.

(** [hex_to_str]: [alloc] says whether the allocation succeeds; the result
    is the string returned, [None] for the null pointer. *)
Definition hex_to_str (buf : list Byte.byte) (len : nat) (alloc : bool)
  : result (option string) :=
  if (len =? 0)%nat then Ok (if alloc then Some EmptyString else None)
  else if negb alloc then Ok None
  else s ← hex_loop buf len; Ok (Some s).

(** [deveui_to_str]: the string left in [dst], [None] when [dst] is not
    written at all. *)
Definition deveui_to_str (dstlen : nat) (deveui : list Byte.byte)
  : result (option string) :=
  tmp ← hex_loop deveui 8;
  if (0 <? dstlen)%nat
  then Ok (Some (string_of_list_ascii
                   (take (dstlen - 1) (list_ascii_of_string tmp))))
  else Ok None.

(** Reading hexadecimal text back, two digits for a byte. *)
Definition hex_value (c : ascii) : option N :=
  let n := N_of_ascii c in
  if ((48 <=? n) && (n <=? 57))%N then Some (n - 48)%N
  else if ((65 <=? n) && (n <=? 70))%N then Some (n - 55)%N
  else None.

Fixpoint hex_decode (s : string) : option (list Byte.byte) :=
  match s with
  | EmptyString => Some []
  | String hi (String lo s') =>
      h ← hex_value hi; l ← hex_value lo;
      b ← Byte.of_N (h * 16 + l);
      bs ← hex_decode s';
      Some (b :: bs)
  | String _ EmptyString => None
  end.

(** [compute_payload_size]; [r] is what [rand ()] returns. The remainder
    truncates toward zero. *)
Definition compute_payload_size (g : Main.globals) (r : Z) : Z :=
  if Main.g_packet_size_fixed g then Main.to_uint8 (Main.g_packet_size g)
  else
    let min_s := PACKET_SIZE_MIN_VARIABLE in
    let max_s := Main.g_packet_size g in
    let min_s := if max_s <? min_s then max_s else min_s in
    Main.to_uint8 (min_s + r `rem` (max_s - min_s + 1)).

(** [generate_random_payload]: [rands] are the successive values of
    [rand ()]; the buffer holds bytes as numbers. *)
Fixpoint fill_random (buffer : list Z) (i : nat) (count : nat) (rands : list Z)
    {struct count} : result (list Z) :=
  match count with
  | O => Ok buffer
  | S count' =>
      match rands with
      | [] => Undef
      | r :: rands' =>
          if (i <? List.length buffer)%nat
          then fill_random (<[i := Main.to_uint8 (r `rem` 256)]> buffer)
                           (S i) count' rands'
          else Undef
      end
  end.

Definition generate_random_payload (buffer : list Z) (size : Z) (rands : list Z)
  : result (list Z) :=
  fill_random buffer 0 (Z.to_nat size) rands.

End App.

(** ** Reading runs of steps *)

Module LpTimerOps.
Import LpTimer.

(** The slot a step works on. *)
Definition op_slot (o : op) : nat :=
  match o with
  | Init id _ _ _ _ _ => id
  | Start id _ _ _ => id
  | Stop id _ => id
  | IrqEnable id => id
  | IrqDisable id => id
  | Expire id => id
  end.

(** The step unmasks slot [id]. *)
Definition unmasks (id : nat) (o : op) : bool :=
  match o with
  | IrqEnable id' => bool_decide (id' = id)
  | _ => false
  end.

(** Events that were added to a trace since it was [before]. *)
Definition added (before after : list event) : list event :=
  drop (List.length before) after.

End LpTimerOps.

Module GpioOps.
Import Gpio.

(** The edge the driver is asked to watch for a mode other than off. *)
Definition edge_of (m : hal_gpio_irq_mode_t) : Z :=
  match m with
  | BSP_GPIO_IRQ_MODE_OFF => OFF
  | BSP_GPIO_IRQ_MODE_RISING => RISING_EDGE
  | BSP_GPIO_IRQ_MODE_FALLING => FALLING_EDGE
  | BSP_GPIO_IRQ_MODE_RISING_FALLING => EITHER_EDGE
  end.

(** The step is an asynchronous delivery for a pin of the facility. *)
Definition delivery (P_NUM : nat) (o : op) : bool :=
  match o with
  | Edge pin _ _ => bool_decide (slot_index8 pin < P_NUM)%nat
  | Callback pin _ _ => bool_decide (slot_index8 pin < P_NUM)%nat
  | _ => false
  end.

End GpioOps.

Module AppView.
Import App.

(** The number of double quotes in a text. *)
Fixpoint count_quotes (s : string) : nat :=
  match s with
  | EmptyString => 0
  | String c s' => (if Ascii.eqb c DQUOTE then 1 else 0) + count_quotes s'
  end.

(** The first [n] characters of a text. *)
Definition prefix (n : nat) (s : string) : string :=
  string_of_list_ascii (take n (list_ascii_of_string s)).

End AppView.

(** * Proofs *)

Lemma at_index_Some {A} (l : list A) i x : l !! i = Some x → at_index l i = Ok x.
Proof. unfold at_index. by intros ->. Qed.

Lemma at_index_Ok {A} (l : list A) i x : at_index l i = Ok x → l !! i = Some x.
Proof. unfold at_index. by destruct (l !! i); intros [= ->]. Qed.

Lemma bind_Ok {A B} (m : result A) (f : A → result B) b :
  m ≫= f = Ok b → ∃ a, m = Ok a ∧ f a = Ok b.
Proof. destruct m; simpl; [eauto|done|done]. Qed.

Lemma Ok_bind {A B} (a : A) (f : A → result B) : Ok a ≫= f = f a.
Proof. reflexivity. Qed.

Section LpTimerFacts.
Import LpTimer LpTimerView.

Lemma enable_eq st id t :
  lptim st !! id = Some t →
  hal_lp_timer_irq_enable id st
  = Ok (if pending t && has_handler t
        then mk_state (<[id := set_pending false (set_blocked false t)]> (lptim st))
                      (it_value st)
                      (trace st ++ [Dispatch id (callback (tmr_irq t)) (context (tmr_irq t))])
        else store id (set_blocked false t) st).
Proof.
  intros Ht. unfold hal_lp_timer_irq_enable, has_handler.
  rewrite (at_index_Some _ _ _ Ht). simpl.
  destruct (pending t && negb (callback (tmr_irq t) =? NULL)); [|done].
  unfold store, invoke. simpl. by rewrite list_insert_insert_eq.
Qed.

Lemma handler_eq st id t :
  lptim st !! id = Some t →
  pl_timer_handler id st
  = Ok (if blocked t then store id (set_pending true t) st
        else if has_handler t then invoke id (tmr_irq t) st else st).
Proof.
  intros Ht. unfold pl_timer_handler, has_handler.
  rewrite (at_index_Some _ _ _ Ht). simpl.
  by destruct (blocked t), (negb (callback (tmr_irq t) =? NULL)).
Qed.

Lemma store_lookup st id t t0 :
  lptim st !! id = Some t0 → lptim (store id t st) !! id = Some t.
Proof.
  intros H. simpl. apply list_lookup_insert_eq.
  apply lookup_lt_is_Some. eauto.
Qed.

(** Notifications that land on a masked slot: the first sets the flag, the
    others find it set. *)
Lemma expiries_while_masked st id t n :
  lptim st !! id = Some t → blocked t = true →
  run (replicate (S n) (Expire id)) st = Ok (store id (set_pending true t) st).
Proof.
  revert st t. induction n as [|n IH]; intros st t Ht Hb.
  - simpl. rewrite (handler_eq _ _ _ Ht), Hb. done.
  - change (replicate (S (S n)) (Expire id))
      with (Expire id :: replicate (S n) (Expire id)).
    cbn [run step]. rewrite (handler_eq _ _ _ Ht), Hb, Ok_bind.
    erewrite IH; [| by eapply store_lookup | done].
    unfold store. simpl. by rewrite list_insert_insert_eq.
Qed.
End LpTimerFacts.

Section GpioFacts.
Import Gpio GpioView.

Lemma deref_Some st p h : mem st !! p = Some h → deref st p = Ok h.
Proof. unfold deref. by intros ->. Qed.

Lemma irq_enable_body_eq i st g :
  gpio st !! i = Some g → attached_live (mem st) g →
  irq_enable_body i st
  = Ok (mk_state (<[i := unmasked (mem st) g]> (gpio st)) (mem st) (drv st)
                 (trace st ++ dispatch_of i (fires (mem st) g))).
Proof.
  intros Hg Hlive. unfold irq_enable_body, unmasked, fires, handler_of.
  rewrite (at_index_Some _ _ _ Hg), Ok_bind. cbn [pending irq set_blocked].
  destruct (pending g); cbn [andb].
  - destruct (Z.eqb_spec (irq g) NULL) as [E | E]; cbn [negb dispatch_of].
    + by rewrite app_nil_r.
    + destruct Hlive as [? | [h Hh]]; [done|].
      unfold deref. cbn [mem store]. rewrite Hh, Ok_bind.
      destruct (callback h =? NULL); cbn [negb dispatch_of].
      * by rewrite app_nil_r.
      * unfold store, invoke. cbn. by rewrite list_insert_insert_eq.
  - cbn [dispatch_of]. by rewrite app_nil_r.
Qed.

Lemma for_from_irq_enable pre suf m d tr :
  Forall (attached_live m) suf →
  for_from (List.length pre) (List.length suf) irq_enable_body
           (mk_state (pre ++ suf) m d tr)
  = Ok (mk_state (pre ++ (unmasked m <$> suf)) m d
                 (tr ++ enable_events m (List.length pre) suf)).
Proof.
  revert pre tr. induction suf as [|g suf IH]; intros pre tr Hlive.
  - simpl. by rewrite !app_nil_r.
  - apply Forall_cons in Hlive as [Hg Hlive].
    cbn [List.length for_from].
    erewrite irq_enable_body_eq;
      [| cbn [gpio]; by apply list_lookup_middle | done].
    rewrite Ok_bind. cbn [gpio mem drv trace].
    rewrite insert_app_r_alt, Nat.sub_diag by lia. cbn [insert list_insert].
    specialize (IH (pre ++ [unmasked m g])
                   (tr ++ dispatch_of (List.length pre) (fires m g)) Hlive).
    rewrite !length_app in IH. cbn [List.length] in IH.
    rewrite !Nat.add_1_r, <- !app_assoc in IH. cbn [app] in IH.
    by rewrite IH.
Qed.

Lemma hal_gpio_irq_enable_eq P_NUM st :
  well_formed P_NUM st →
  hal_gpio_irq_enable P_NUM st
  = Ok (mk_state (unmasked (mem st) <$> gpio st) (mem st) (drv st)
                 (trace st ++ enable_events (mem st) 0 (gpio st))).
Proof.
  intros [Hlen Hlive]. unfold hal_gpio_irq_enable, for_loop.
  destruct st as [gs m d tr]. cbn [gpio mem drv trace] in *. subst P_NUM.
  apply (for_from_irq_enable [] gs m d tr Hlive).
Qed.

Lemma update_body_eq f i st g :
  gpio st !! i = Some g → update_body f i st = Ok (store i (f g) st).
Proof. intros Hg. unfold update_body. by rewrite (at_index_Some _ _ _ Hg). Qed.

Lemma for_from_update f pre suf m d tr :
  for_from (List.length pre) (List.length suf) (update_body f)
           (mk_state (pre ++ suf) m d tr)
  = Ok (mk_state (pre ++ (f <$> suf)) m d tr).
Proof.
  revert pre. induction suf as [|g suf IH]; intros pre; [done|].
  cbn [List.length for_from].
  erewrite update_body_eq; [| cbn [gpio]; by apply list_lookup_middle].
  rewrite Ok_bind. unfold store. cbn [gpio mem drv trace].
  rewrite insert_app_r_alt, Nat.sub_diag by lia. cbn [insert list_insert].
  specialize (IH (pre ++ [f g])).
  rewrite !length_app in IH. cbn [List.length] in IH.
  rewrite !Nat.add_1_r, <- !app_assoc in IH. cbn [app] in IH.
  by rewrite IH.
Qed.

Lemma hal_gpio_irq_disable_eq P_NUM st :
  List.length (gpio st) = P_NUM →
  hal_gpio_irq_disable P_NUM st
  = Ok (mk_state (set_blocked true <$> gpio st) (mem st) (drv st) (trace st)).
Proof.
  intros <-. destruct st as [gs m d tr]. 
  apply (for_from_update (set_blocked true) [] gs m d tr).
Qed.

Lemma hal_gpio_clear_pending_irq_eq P_NUM pin st :
  List.length (gpio st) = P_NUM →
  hal_gpio_clear_pending_irq P_NUM pin st
  = Ok (mk_state (set_pending false <$> gpio st) (mem st) (drv st) (trace st)).
Proof.
  intros <-. destruct st as [gs m d tr]. 
  apply (for_from_update (set_pending false) [] gs m d tr).
Qed.

Lemma from_slot_dispatch_of i k o :
  from_slot i (dispatch_of k o) = if decide (k = i) then dispatch_of k o else [].
Proof.
  unfold from_slot. destruct o as [h|]; cbn [dispatch_of].
  - rewrite filter_cons, filter_nil. cbn [event_slot]. by repeat case_decide.
  - by case_decide.
Qed.

Lemma from_slot_enable_events m i k l :
  from_slot i (enable_events m k l)
  = if decide (k ≤ i)%nat
    then from_option (λ g, dispatch_of i (fires m g)) [] (l !! (i - k)%nat)
    else [].
Proof.
  revert k. induction l as [|g l IH]; intros k.
  - cbn. by case_decide.
  - cbn [enable_events]. unfold from_slot in *. rewrite filter_app.
    fold (from_slot i (dispatch_of k (fires m g))).
    rewrite from_slot_dispatch_of, IH.
    destruct (decide (k = i)) as [-> | Hne].
    + rewrite Nat.sub_diag. cbn [lookup list_lookup from_option].
      repeat case_decide; try lia. by rewrite app_nil_r.
    + cbn [app]. repeat case_decide; try lia; [|done].
      by replace (i - k)%nat with (S (i - S k)) by lia.
Qed.

Lemma gpio_irq_callback_eq pin lvl tick st g :
  gpio st !! slot_index8 pin = Some g → attached_live (mem st) g →
  gpio_irq_callback pin lvl tick st
  = Ok (if blocked g then store (slot_index8 pin) (set_pending true g) st
        else mk_state (gpio st) (mem st) (drv st)
               (trace st ++ dispatch_of (slot_index8 pin) (handler_of (mem st) g))).
Proof.
  intros Hg Hlive. unfold gpio_irq_callback, handler_of.
  rewrite (at_index_Some _ _ _ Hg), Ok_bind.
  destruct (blocked g); [done|].
  destruct (Z.eqb_spec (irq g) NULL) as [E | E]; cbn [negb dispatch_of].
  - rewrite app_nil_r. by destruct st.
  - destruct Hlive as [? | [h Hh]]; [done|].
    rewrite (deref_Some _ _ _ Hh), Hh, Ok_bind.
    destruct (callback h =? NULL); cbn [negb dispatch_of]; [|done].
    rewrite app_nil_r. by destruct st.
Qed.

Lemma callbacks_while_masked P_NUM pin lvl tick st g n :
  gpio st !! slot_index8 pin = Some g → blocked g = true →
  run P_NUM (replicate (S n) (Callback pin lvl tick)) st
  = Ok (store (slot_index8 pin) (set_pending true g) st).
Proof.
  assert (Hone : ∀ s g0, gpio s !! slot_index8 pin = Some g0 → blocked g0 = true →
            gpio_irq_callback pin lvl tick s
            = Ok (store (slot_index8 pin) (set_pending true g0) s)).
  { intros s g0 H0 Hb. unfold gpio_irq_callback.
    by rewrite (at_index_Some _ _ _ H0), Ok_bind, Hb. }
  revert st g. induction n as [|n IH]; intros st g Hg Hb.
  - cbn [replicate run step]. by rewrite (Hone _ _ Hg Hb).
  - change (replicate (S (S n)) (Callback pin lvl tick))
      with (Callback pin lvl tick :: replicate (S n) (Callback pin lvl tick)).
    cbn [run step]. rewrite (Hone _ _ Hg Hb), Ok_bind.
    rewrite (IH _ (set_pending true g)); [| |done].
    + unfold store. cbn. by rewrite list_insert_insert_eq.
    + cbn. apply list_lookup_insert_eq, lookup_lt_is_Some. eauto.
Qed.
End GpioFacts.

Section Coalescing.
Import GpioView LpTimerView.

Lemma has_handler_true t :
  LpTimer.callback (LpTimer.tmr_irq t) ≠ NULL → has_handler t = true.
Proof. unfold has_handler. intros H. by apply negb_true_iff, Z.eqb_neq. Qed.

Lemma well_formed_store P_NUM st i g g' :
  well_formed P_NUM st → Gpio.gpio st !! i = Some g → Gpio.irq g' = Gpio.irq g →
  well_formed P_NUM (Gpio.store i g' st).
Proof.
  intros [Hlen Hlive] Hg Hirq. split; cbn.
  - by rewrite length_insert.
  - apply Forall_insert; [done|].
    unfold attached_live. rewrite Hirq.
    by apply (Forall_lookup_1 _ _ _ _ Hlive Hg).
Qed.

Lemma handler_of_irq m g g' :
  Gpio.irq g' = Gpio.irq g → handler_of m g' = handler_of m g.
Proof. unfold handler_of. by intros ->. Qed.

Lemma handler_of_live m g h : handler_of m g = Some h → attached_live m g.
Proof.
  unfold handler_of, attached_live.
  destruct (Gpio.irq g =? NULL); [done|].
  destruct (m !! Gpio.irq g); [eauto|done].
Qed.

(** C1. Coalescing. Any number of notifications (at least one) delivered to a
    masked slot leave the state a single notification leaves: the pending flag
    set and no handler called. The unmask that follows, a handler being
    attached, calls that handler exactly once and clears the flag. This holds
    for a timer slot and for a pin slot; in particular a timer that is started,
    masked, expires twice and is unmasked has its handler called once. *)
Theorem masked_notifications_coalesce
    (st : LpTimer.state) (id : nat) (t : LpTimer.lp_timer_t) (n : nat)
    (P_NUM : nat) (gst : Gpio.state) (pin lvl tick : Z)
    (g : Gpio.gpio_t) (h : Gpio.hal_gpio_irq_t) :
  LpTimer.lptim st !! id = Some t →
  LpTimer.blocked t = true →
  LpTimer.callback (LpTimer.tmr_irq t) ≠ NULL →
  well_formed P_NUM gst →
  Gpio.gpio gst !! Gpio.slot_index8 pin = Some g →
  Gpio.blocked g = true →
  handler_of (Gpio.mem gst) g = Some h →
  (∃ st1 st2,
      LpTimer.run (replicate (S n) (LpTimer.Expire id)) st = Ok st1
      ∧ st1 = LpTimer.store id (LpTimer.set_pending true t) st
      ∧ LpTimer.hal_lp_timer_irq_enable id st1 = Ok st2
      ∧ LpTimer.trace st2
        = LpTimer.trace st
          ++ [Dispatch id (LpTimer.callback (LpTimer.tmr_irq t))
                          (LpTimer.context (LpTimer.tmr_irq t))]
      ∧ LpTimer.lptim st2 !! id
        = Some (LpTimer.set_pending false (LpTimer.set_blocked false t)))
  ∧ (∃ gst1 gst2 l,
      Gpio.run P_NUM (replicate (S n) (Gpio.Callback pin lvl tick)) gst = Ok gst1
      ∧ gst1 = Gpio.store (Gpio.slot_index8 pin) (Gpio.set_pending true g) gst
      ∧ Gpio.hal_gpio_irq_enable P_NUM gst1 = Ok gst2
      ∧ Gpio.trace gst2 = Gpio.trace gst ++ l
      ∧ from_slot (Gpio.slot_index8 pin) l
        = [Dispatch (Gpio.slot_index8 pin) (Gpio.callback h) (Gpio.context h)]
      ∧ Gpio.gpio gst2 !! Gpio.slot_index8 pin
        = Some (Gpio.set_pending false (Gpio.set_blocked false g)))
  ∧ (∀ ms, ∃ st',
      LpTimer.run [LpTimer.Start 0 ms (LpTimer.tmr_irq t) 0;
                   LpTimer.IrqDisable 0; LpTimer.Expire 0; LpTimer.Expire 0;
                   LpTimer.IrqEnable 0] LpTimer.init_state = Ok st'
      ∧ LpTimer.trace st'
        = [Dispatch 0%nat (LpTimer.callback (LpTimer.tmr_irq t))
                          (LpTimer.context (LpTimer.tmr_irq t))]).
Proof.
  intros Ht Hb Hcb [Hlen Hlive] Hg Hgb Hh.
  assert (Hin : (id < List.length (LpTimer.lptim st))%nat)
    by (apply lookup_lt_is_Some; eauto).
  split; [|split].
  - eexists _, _. split; [by apply expiries_while_masked|].
    split; [done|].
    erewrite enable_eq; [|by eapply store_lookup].
    cbn [LpTimer.pending LpTimer.set_pending].
    replace (has_handler (LpTimer.set_pending true t)) with true
      by (symmetry; by apply has_handler_true).
    cbn [andb]. split; [done|]. split; [done|]. cbn.
    rewrite list_insert_insert_eq. by apply list_lookup_insert_eq.
  - pose proof (well_formed_store P_NUM gst (Gpio.slot_index8 pin) g
                  (Gpio.set_pending true g) (conj Hlen Hlive) Hg eq_refl) as Hwf1.
    assert (Hi : (Gpio.slot_index8 pin < List.length (Gpio.gpio gst))%nat)
      by (apply lookup_lt_is_Some; eauto).
    eexists _, _, _. split; [by apply callbacks_while_masked|].
    split; [done|].
    rewrite (hal_gpio_irq_enable_eq _ _ Hwf1).
    split; [done|]. cbn [Gpio.trace Gpio.store Gpio.mem Gpio.gpio].
    split; [done|]. split.
    + rewrite from_slot_enable_events, decide_True by lia.
      rewrite Nat.sub_0_r, list_lookup_insert_eq by done.
      cbn [from_option]. unfold fires. cbn [Gpio.pending Gpio.set_pending].
      rewrite (handler_of_irq _ g) by done. by rewrite Hh.
    + rewrite list_lookup_fmap, list_lookup_insert_eq by done.
      cbn [fmap option_fmap option_map]. unfold unmasked, fires.
      cbn [Gpio.pending Gpio.set_pending].
      rewrite (handler_of_irq _ g) by done. by rewrite Hh.
  - intros ms. eexists. cbn.
    destruct (Z.eqb_spec (LpTimer.callback (LpTimer.tmr_irq t)) NULL); [done|].
    cbn. done.
Qed.
End Coalescing.

Section Unmasking.
Import GpioView LpTimerView.

Lemma has_handler_false t :
  LpTimer.callback (LpTimer.tmr_irq t) = NULL → has_handler t = false.
Proof. unfold has_handler. intros ->. done. Qed.

(** C3, as amended. Unmasking a slot whose handler is none (callback null)
    calls no handler and unmasks the slot, and leaves its pending flag as it
    was: the flag is cleared only together with a dispatch. This holds for
    timer slots ([hal_lp_timer_irq_enable]) and pin slots
    ([hal_gpio_irq_enable]). *)
Theorem unmask_without_handler_dispatches_nothing
    (st : LpTimer.state) (id : nat) (t : LpTimer.lp_timer_t)
    (P_NUM : nat) (gst : Gpio.state) (i : nat) (g : Gpio.gpio_t) :
  LpTimer.lptim st !! id = Some t →
  LpTimer.callback (LpTimer.tmr_irq t) = NULL →
  well_formed P_NUM gst →
  Gpio.gpio gst !! i = Some g →
  handler_of (Gpio.mem gst) g = None →
  (∃ st' t',
      LpTimer.hal_lp_timer_irq_enable id st = Ok st'
      ∧ LpTimer.trace st' = LpTimer.trace st
      ∧ LpTimer.lptim st' !! id = Some t'
      ∧ LpTimer.blocked t' = false
      ∧ LpTimer.pending t' = LpTimer.pending t)
  ∧ (∃ gst' g' l,
      Gpio.hal_gpio_irq_enable P_NUM gst = Ok gst'
      ∧ Gpio.trace gst' = Gpio.trace gst ++ l
      ∧ from_slot i l = []
      ∧ Gpio.gpio gst' !! i = Some g'
      ∧ Gpio.blocked g' = false
      ∧ Gpio.pending g' = Gpio.pending g).
Proof.
  intros Ht Hcb Hwf Hg Hh. split.
  - rewrite (enable_eq _ _ _ Ht), (has_handler_false _ Hcb), andb_false_r.
    eexists _, _. split; [done|]. split; [done|]. split.
    + cbn. apply list_lookup_insert_eq, lookup_lt_is_Some. eauto.
    + done.
  - rewrite (hal_gpio_irq_enable_eq _ _ Hwf).
    eexists _, _, _. split; [done|]. cbn [Gpio.trace Gpio.gpio].
    split; [done|]. split; [|split].
    + rewrite from_slot_enable_events, decide_True, Nat.sub_0_r, Hg by lia.
      cbn [from_option]. unfold fires. rewrite Hh. by destruct (Gpio.pending g).
    + rewrite list_lookup_fmap, Hg. reflexivity.
    + unfold unmasked, fires. rewrite Hh. by destruct (Gpio.pending g) eqn:E.
Qed.

(** C4, as amended. In the initial state every timer slot and every pin slot
    is unmasked ([blocked] is false) and has nothing pending: the arrays are
    static and start zeroed. *)
Theorem initial_slots_unmasked_not_pending :
  Forall (λ t, LpTimer.blocked t = false ∧ LpTimer.pending t = false)
         (LpTimer.lptim LpTimer.init_state)
  ∧ List.length (LpTimer.lptim LpTimer.init_state) = LpTimer.HAL_LP_TIMER_NB
  ∧ ∀ P_NUM m,
      Forall (λ g, Gpio.blocked g = false ∧ Gpio.pending g = false)
             (Gpio.gpio (Gpio.init_state P_NUM m))
      ∧ List.length (Gpio.gpio (Gpio.init_state P_NUM m)) = P_NUM.
Proof.
  split; [by repeat constructor|]. split; [done|].
  intros P_NUM m. cbn. split; [|apply length_replicate].
  by apply Forall_replicate.
Qed.

(** C5, as amended. An unmask makes at most one handler call per slot, and on
    a slot that is already unmasked it changes nothing and calls nothing
    whenever the slot has no pending notification or no handler attached. *)
Theorem unmask_dispatches_at_most_once
    (st : LpTimer.state) (id : nat) (t : LpTimer.lp_timer_t)
    (P_NUM : nat) (gst : Gpio.state) (i : nat) (g : Gpio.gpio_t) :
  LpTimer.lptim st !! id = Some t →
  well_formed P_NUM gst →
  Gpio.gpio gst !! i = Some g →
  (∃ st' l,
      LpTimer.hal_lp_timer_irq_enable id st = Ok st'
      ∧ LpTimer.trace st' = LpTimer.trace st ++ l
      ∧ (List.length l ≤ 1)%nat
      ∧ (LpTimer.blocked t = false →
         LpTimer.pending t && has_handler t = false → st' = st))
  ∧ (∃ gst' l,
      Gpio.hal_gpio_irq_enable P_NUM gst = Ok gst'
      ∧ Gpio.trace gst' = Gpio.trace gst ++ l
      ∧ (List.length (from_slot i l) ≤ 1)%nat
      ∧ (Gpio.blocked g = false →
         fires (Gpio.mem gst) g = None →
         Gpio.gpio gst' !! i = Some g ∧ from_slot i l = [])).
Proof.
  intros Ht Hwf Hg. split.
  - rewrite (enable_eq _ _ _ Ht).
    destruct (LpTimer.pending t && has_handler t) eqn:E.
    + eexists _, _. split; [done|]. split; [done|]. split; [done|]. done.
    + eexists _, []. split; [done|]. rewrite app_nil_r. split; [done|].
      split; [cbn; lia|]. intros Eb _.
      destruct st as [ts its tr]. unfold LpTimer.store. cbn in *. f_equal.
      apply list_insert_id. rewrite Ht. f_equal.
      destruct t. cbn in *. by subst.
  - rewrite (hal_gpio_irq_enable_eq _ _ Hwf).
    eexists _, _. split; [done|]. cbn [Gpio.trace Gpio.gpio].
    split; [done|].
    rewrite from_slot_enable_events, decide_True, Nat.sub_0_r, Hg by lia.
    cbn [from_option]. split.
    + destruct (fires (Gpio.mem gst) g); cbn; lia.
    + intros Eb Hn.
      rewrite list_lookup_fmap, Hg, Hn. cbn. split; [|done].
      unfold unmasked. rewrite Hn. f_equal. destruct g. cbn in *. by subst.
Qed.

(** C6. A notification delivered to an unmasked slot calls the attached
    handler at once, if there is one, and leaves every slot, hence the pending
    flag, as it was; delivered to a masked slot it calls nothing and leaves
    the pending flag of that slot true, the slot masked, its handler in place
    and every other slot as it was. This holds for [pl_timer_handler] and for
    [gpio_irq_callback]. *)
Theorem notify_dispatches_or_sets_pending
    (st : LpTimer.state) (id : nat) (t : LpTimer.lp_timer_t)
    (gst : Gpio.state) (pin lvl tick : Z) (g : Gpio.gpio_t) :
  LpTimer.lptim st !! id = Some t →
  Gpio.gpio gst !! Gpio.slot_index8 pin = Some g →
  attached_live (Gpio.mem gst) g →
  (∃ st',
      LpTimer.pl_timer_handler id st = Ok st'
      ∧ if LpTimer.blocked t
        then LpTimer.trace st' = LpTimer.trace st
             ∧ LpTimer.lptim st'
               = <[id := LpTimer.set_pending true t]> (LpTimer.lptim st)
             ∧ (LpTimer.pending <$> LpTimer.lptim st' !! id) = Some true
             ∧ (LpTimer.blocked <$> LpTimer.lptim st' !! id) = Some true
             ∧ (LpTimer.tmr_irq <$> LpTimer.lptim st' !! id)
               = Some (LpTimer.tmr_irq t)
             ∧ (∀ j, j ≠ id →
                     LpTimer.lptim st' !! j = LpTimer.lptim st !! j)
        else LpTimer.lptim st' = LpTimer.lptim st
             ∧ LpTimer.trace st'
               = LpTimer.trace st
                 ++ (if has_handler t
                     then [Dispatch id (LpTimer.callback (LpTimer.tmr_irq t))
                                       (LpTimer.context (LpTimer.tmr_irq t))]
                     else []))
  ∧ (∃ gst',
      Gpio.gpio_irq_callback pin lvl tick gst = Ok gst'
      ∧ if Gpio.blocked g
        then Gpio.trace gst' = Gpio.trace gst
             ∧ Gpio.gpio gst'
               = <[Gpio.slot_index8 pin := Gpio.set_pending true g]> (Gpio.gpio gst)
             ∧ (Gpio.pending <$> Gpio.gpio gst' !! Gpio.slot_index8 pin)
               = Some true
             ∧ (Gpio.blocked <$> Gpio.gpio gst' !! Gpio.slot_index8 pin)
               = Some true
             ∧ (Gpio.irq <$> Gpio.gpio gst' !! Gpio.slot_index8 pin)
               = Some (Gpio.irq g)
             ∧ (∀ j, j ≠ Gpio.slot_index8 pin →
                     Gpio.gpio gst' !! j = Gpio.gpio gst !! j)
        else Gpio.gpio gst' = Gpio.gpio gst
             ∧ Gpio.trace gst'
               = Gpio.trace gst
                 ++ dispatch_of (Gpio.slot_index8 pin)
                                (handler_of (Gpio.mem gst) g)).
Proof.
  intros Ht Hg Hlive.
  assert (Hin : (id < List.length (LpTimer.lptim st))%nat)
    by (apply lookup_lt_is_Some; eauto).
  assert (Hgin : (Gpio.slot_index8 pin < List.length (Gpio.gpio gst))%nat)
    by (apply lookup_lt_is_Some; eauto).
  split.
  - rewrite (handler_eq _ _ _ Ht). eexists. split; [done|].
    destruct (LpTimer.blocked t) eqn:Eb.
    + cbn [LpTimer.store LpTimer.lptim LpTimer.trace].
      rewrite list_lookup_insert_eq by done.
      split; [done|]. split; [done|]. split; [done|].
      split; [cbn; by rewrite Eb|]. split; [done|].
      intros j Hj. by rewrite list_lookup_insert_ne.
    + destruct (has_handler t); [done|]. by rewrite app_nil_r.
  - rewrite (gpio_irq_callback_eq _ _ _ _ _ Hg Hlive). eexists. split; [done|].
    destruct (Gpio.blocked g) eqn:Eb; [|done].
    cbn [Gpio.store Gpio.gpio Gpio.trace].
    rewrite list_lookup_insert_eq by done.
    split; [done|]. split; [done|]. split; [done|].
    split; [cbn; by rewrite Eb|]. split; [done|].
    intros j Hj. by rewrite list_lookup_insert_ne.
Qed.

(** C9. [hal_gpio_clear_pending_irq] clears the pending flag of every pin
    slot of the facility, whatever pin it is given: two calls that differ in
    the pin only end in the same state. *)
Theorem clear_pending_irq_clears_every_slot
    (P_NUM : nat) (st : Gpio.state) (pin pin' : Z) :
  List.length (Gpio.gpio st) = P_NUM →
  ∃ st',
    Gpio.hal_gpio_clear_pending_irq P_NUM pin st = Ok st'
    ∧ Gpio.gpio st' = Gpio.set_pending false <$> Gpio.gpio st
    ∧ Forall (λ g, Gpio.pending g = false) (Gpio.gpio st')
    ∧ List.length (Gpio.gpio st') = P_NUM
    ∧ Gpio.hal_gpio_clear_pending_irq P_NUM pin' st = Ok st'.
Proof.
  intros Hlen. rewrite !(hal_gpio_clear_pending_irq_eq _ _ _ Hlen).
  eexists. split; [done|]. cbn. split; [done|]. split; [|split; [|done]].
  - apply Forall_fmap, Forall_true. done.
  - by rewrite length_fmap.
Qed.
End Unmasking.

Section StopFacts.
Import LpTimer LpTimerView.

(** What a step can do: it rewrites one slot and makes at most one call, to
    the handler that slot held; the handler of the slot is kept, replaced by
    the argument of a start, or cleared. *)
Lemma step_effect o s s' :
  step o s = Ok s' →
  ∃ id' t0 t1 l,
    lptim s !! id' = Some t0
    ∧ lptim s' = <[id' := t1]> (lptim s)
    ∧ trace s' = trace s ++ l
    ∧ (l = [] ∨ (l = [Dispatch id' (callback (tmr_irq t0)) (context (tmr_irq t0))]
                 ∧ callback (tmr_irq t0) ≠ NULL))
    ∧ (tmr_irq t1 = tmr_irq t0
       ∨ (∃ ms rc, o = Start id' ms (tmr_irq t1) rc)
       ∨ callback (tmr_irq t1) = NULL).
Proof.
  destruct o as [id lo hi rc1 rc2 h | id ms irq rc | id rc | id | id | id];
    cbn [step]; intros Hs.
  - unfold hal_lp_timer_init in Hs.
    destruct (hi <? lo + Z.of_nat id + 1); [done|].
    apply bind_Ok in Hs as (t0 & Ht0%at_index_Ok & Hs).
    destruct (rc1 =? -1); [done|]. destruct (rc2 =? -1); [done|].
    apply bind_Ok in Hs as (t1 & Ht1%at_index_Ok & [= <-]).
    exists id, t0, (set_handle h t1), []. split; [done|].
    cbn in Ht1. rewrite list_lookup_insert_eq in Ht1
      by (apply lookup_lt_is_Some; eauto).
    injection Ht1 as <-. cbn. rewrite list_insert_insert_eq, app_nil_r.
    eauto 10.
  - unfold hal_lp_timer_start in Hs.
    apply bind_Ok in Hs as (t0 & Ht0%at_index_Ok & Hs).
    destruct (rc =? -1); [done|]. injection Hs as <-.
    exists id, t0, (set_tmr_irq irq t0), []. cbn. rewrite app_nil_r.
    split; [done|]. split; [done|]. split; [done|]. split; [eauto|].
    right. left. eauto.
  - unfold hal_lp_timer_stop in Hs.
    apply bind_Ok in Hs as (t0 & Ht0%at_index_Ok & Hs).
    destruct (rc =? -1); [done|]. injection Hs as <-.
    exists id, t0, (set_tmr_irq (mk_irq NULL NULL) t0), []. cbn.
    rewrite app_nil_r. eauto 10.
  - assert (Ht0 : is_Some (lptim s !! id)).
    { unfold hal_lp_timer_irq_enable in Hs.
      apply bind_Ok in Hs as (t0 & Ht0%at_index_Ok & _). eauto. }
    destruct Ht0 as [t0 Ht0]. rewrite (enable_eq _ _ _ Ht0) in Hs.
    injection Hs as <-. exists id, t0.
    destruct (pending t0 && has_handler t0) eqn:E.
    + eexists _, _. split; [done|]. split; [done|]. split; [done|].
      apply andb_true_iff in E as [_ E]. unfold has_handler in E.
      apply negb_true_iff, Z.eqb_neq in E. split; [eauto|]. by left.
    + exists (set_blocked false t0), []. cbn. rewrite app_nil_r. eauto 10.
  - unfold hal_lp_timer_irq_disable in Hs.
    apply bind_Ok in Hs as (t0 & Ht0%at_index_Ok & [= <-]).
    exists id, t0, (set_blocked true t0), []. cbn. rewrite app_nil_r. eauto 10.
  - assert (Ht0 : is_Some (lptim s !! id)).
    { unfold pl_timer_handler in Hs.
      apply bind_Ok in Hs as (t0 & Ht0%at_index_Ok & _). eauto. }
    destruct Ht0 as [t0 Ht0]. rewrite (handler_eq _ _ _ Ht0) in Hs.
    injection Hs as <-. exists id, t0.
    destruct (blocked t0).
    + exists (set_pending true t0), []. cbn. rewrite app_nil_r. eauto 10.
    + destruct (has_handler t0) eqn:E.
      * eexists t0, _. cbn. rewrite list_insert_id by done.
        unfold has_handler in E. apply negb_true_iff, Z.eqb_neq in E.
        eauto 10.
      * exists t0, []. rewrite app_nil_r, list_insert_id by done. eauto 10.
Qed.

Lemma step_detached id old o s s' :
  detached id old s → restarts id old o = false → step o s = Ok s' →
  detached id old s'
  ∧ ∃ l, trace s' = trace s ++ l
         ∧ Dispatch id (callback old) (context old) ∉ l.
Proof.
  intros (t & Ht & Hold) Hre Hs.
  apply step_effect in Hs
    as (id' & t0 & t1 & l & Ht0 & Hl & Htr & Hev & Hirq).
  split.
  - unfold detached. rewrite Hl.
    destruct (decide (id' = id)) as [-> | Hne].
    + exists t1. split.
      { apply list_lookup_insert_eq, lookup_lt_is_Some. eauto. }
      rewrite Ht in Ht0. injection Ht0 as <-.
      destruct Hirq as [-> | [(ms & rc & ->) | ->]]; [done| |by right].
      cbn in Hre. apply bool_decide_eq_false in Hre.
      left. intros E. apply Hre. done.
    + exists t. by rewrite list_lookup_insert_ne.
  - exists l. split; [done|].
    destruct Hev as [-> | [-> Hcb]]; [apply not_elem_of_nil|].
    intros Hin%list_elem_of_singleton. injection Hin as -> Hc1 Hc2.
    rewrite Ht in Ht0. injection Ht0 as <-.
    destruct Hold as [Hold | Hold]; [|done].
    apply Hold. destruct (tmr_irq t), old. cbn in *. by subst.
Qed.

Lemma run_detached id old ops s s' :
  detached id old s → existsb (restarts id old) ops = false →
  run ops s = Ok s' →
  ∃ l, trace s' = trace s ++ l
       ∧ Dispatch id (callback old) (context old) ∉ l.
Proof.
  revert s. induction ops as [|o ops IH]; intros s Hd Hre Hrun.
  - injection Hrun as <-. exists []. rewrite app_nil_r.
    split; [done | apply not_elem_of_nil].
  - cbn [existsb] in Hre. apply orb_false_iff in Hre as [Ho Hops].
    cbn [run] in Hrun. apply bind_Ok in Hrun as (s1 & Hs1 & Hrun).
    destruct (step_detached _ _ _ _ _ Hd Ho Hs1) as (Hd1 & l1 & Htr1 & Hl1).
    destruct (IH _ Hd1 Hops Hrun) as (l2 & Htr2 & Hl2).
    exists (l1 ++ l2). rewrite Htr2, Htr1, app_assoc. split; [done|].
    rewrite elem_of_app. tauto.
Qed.

(** C7. When [hal_lp_timer_stop] returns, the handler of the slot is none:
    callback and context are null. Expiry notifications delivered afterwards
    call nothing; and whatever steps follow, as long as none of them starts
    the timer with the old handler again, the old handler is never called for
    this slot. A restart with a new handler followed by an expiry calls the
    new handler only. *)
Theorem stop_detaches_handler
    (st : state) (id : nat) (t : lp_timer_t) (rc : Z) :
  lptim st !! id = Some t →
  rc ≠ -1 →
  ∃ st1 t1,
    hal_lp_timer_stop id rc st = Ok st1
    ∧ lptim st1 !! id = Some t1
    ∧ callback (tmr_irq t1) = NULL ∧ context (tmr_irq t1) = NULL
    ∧ trace st1 = trace st
    ∧ (∀ n, ∃ st2,
          run (replicate n (Expire id)) st1 = Ok st2
          ∧ trace st2 = trace st1)
    ∧ (∀ ops st2,
          existsb (restarts id (tmr_irq t)) ops = false →
          run ops st1 = Ok st2 →
          ∃ l, trace st2 = trace st1 ++ l
               ∧ Dispatch id (callback (tmr_irq t)) (context (tmr_irq t)) ∉ l)
    ∧ (∀ new ms,
          ∃ st2,
            run [Start id ms new 0; Expire id] st1 = Ok st2
            ∧ trace st2
              = trace st1
                ++ (if blocked t then []
                    else if callback new =? NULL then []
                    else [Dispatch id (callback new) (context new)])).
Proof.
  intros Ht Hrc.
  assert (Hin : (id < List.length (lptim st))%nat)
    by (apply lookup_lt_is_Some; eauto).
  unfold hal_lp_timer_stop. rewrite (at_index_Some _ _ _ Ht), Ok_bind.
  cbn zeta. destruct (Z.eqb_spec rc (-1)) as [? | _]; [done|].
  set (t1 := set_tmr_irq (mk_irq NULL NULL) t).
  set (st1 := settime id ZERO (store id t1 st)).
  assert (Ht1 : lptim st1 !! id = Some t1) by by apply list_lookup_insert_eq.
  exists st1, t1. split; [done|]. split; [done|].
  split; [done|]. split; [done|]. split; [done|]. split; [|split].
  - intros n. exists (if blocked t
                      then if n is O then st1 else store id (set_pending true t1) st1
                      else st1).
    destruct n as [|n]; [by destruct (blocked t)|].
    destruct (blocked t) eqn:Eb.
    + by rewrite (expiries_while_masked st1 id t1 n Ht1 Eb).
    + split; [|done]. induction n as [|n IH].
      * cbn [replicate run step]. rewrite (handler_eq _ _ _ Ht1). cbn.
        by rewrite Eb.
      * change (replicate (S (S n)) (Expire id))
          with (Expire id :: replicate (S n) (Expire id)).
        cbn [run step]. rewrite (handler_eq _ _ _ Ht1). cbn. by rewrite Eb.
  - intros ops st2 Hre Hrun.
    apply (run_detached id (tmr_irq t) ops st1 st2); [|done|done].
    exists t1. split; [done|]. by right.
  - intros new ms. cbn [run step]. unfold hal_lp_timer_start.
    rewrite (at_index_Some _ _ _ Ht1), Ok_bind. cbn zeta.
    change (0 =? -1) with false. cbn iota. rewrite Ok_bind.
    erewrite handler_eq;
      [|cbn [lptim settime store];
        apply list_lookup_insert_eq, lookup_lt_is_Some; eauto].
    rewrite Ok_bind. eexists. split; [done|]. subst t1. cbn.
    destruct (blocked t); [by rewrite app_nil_r|].
    unfold has_handler. cbn. destruct (callback new =? NULL); cbn; [|done].
    by rewrite app_nil_r.
Qed.
End StopFacts.

Section PinFacts.
Import Gpio GpioView.

Lemma neq_NULL_eqb p : p ≠ NULL → (p =? NULL) = false.
Proof. intros H. by apply Z.eqb_neq. Qed.

Lemma gpio_init_ok pin value pull io st :
  ∃ d, gpio_init pin value pull io 0 0 0 st = Ok (with_drv d st)
       ∧ isr d = isr (drv st).
Proof.
  unfold gpio_init, hal_gpio_set_value. cbn [Z.eqb negb]. rewrite Ok_bind.
  eexists. split; [reflexivity|]. reflexivity.
Qed.

(** C8, as amended. Configuring an input pin with the edge mode off and a
    handler whose callback is not null stores the edge mode on the slot, but
    neither attaches the handler (the slot keeps the pointer it had) nor
    registers a callback with the driver. If the driver had no callback
    registered for the pin, an edge on the pin calls no handler and changes
    nothing, so a pending flag that was false stays false; the same holds when
    the trampoline is entered for an unmasked slot that holds no pointer. *)
Theorem init_in_edge_off_registers_nothing
    (st : state) (pin : Z) (pull_mode : hal_gpio_pull_mode_t)
    (irq : Z) (h : hal_gpio_irq_t) (g : gpio_t) (rc_isr : Z) :
  irq ≠ NULL →
  mem st !! irq = Some h →
  callback h ≠ NULL →
  gpio st !! slot_index pin = Some g →
  ∃ st',
    hal_gpio_init_in pin pull_mode BSP_GPIO_IRQ_MODE_OFF irq 0 0 0 rc_isr st
    = Ok st'
    ∧ gpio st'
      = <[slot_index pin := set_irq_mode BSP_GPIO_IRQ_MODE_OFF g]> (gpio st)
    ∧ (Gpio.irq <$> gpio st' !! slot_index pin) = Some (Gpio.irq g)
    ∧ (pending <$> gpio st' !! slot_index pin) = Some (pending g)
    ∧ mem st' = <[irq := set_pin pin h]> (mem st)
    ∧ isr (drv st') = isr (drv st)
    ∧ trace st' = trace st
    ∧ (isr (drv st) !! pin = None →
       ∀ level tick, driver_edge_event pin level tick st' = Ok st')
    ∧ (blocked g = false → Gpio.irq g = NULL →
       slot_index8 pin = slot_index pin →
       ∀ level tick, gpio_irq_callback pin level tick st' = Ok st').
Proof.
  intros Hirq Hh Hcb Hg.
  assert (Hin : (slot_index pin < List.length (gpio st))%nat)
    by (apply lookup_lt_is_Some; eauto).
  unfold hal_gpio_init_in.
  rewrite (neq_NULL_eqb _ Hirq). cbn [negb].
  rewrite (deref_Some _ _ _ Hh), !Ok_bind.
  assert (Hpull : ∃ v, at_index pulls (pull_mode_value pull_mode) = Ok v)
    by (destruct pull_mode; eauto).
  destruct Hpull as [v ->]. rewrite Ok_bind.
  destruct (gpio_init_ok pin PI_CLEAR v PI_INPUT (poke irq (set_pin pin h) st))
    as (d & -> & Hd).
  rewrite Ok_bind. cbn [gpio with_drv poke].
  rewrite (at_index_Some _ _ _ Hg), Ok_bind.
  unfold hal_gpio_irq_attach. rewrite (neq_NULL_eqb _ Hirq).
  unfold deref. cbn [mem store with_drv poke].
  rewrite lookup_insert_eq, Ok_bind. cbn [callback set_pin Gpio.pin].
  rewrite (neq_NULL_eqb _ Hcb). cbn [gpio].
  rewrite (at_index_Some _ _ (set_irq_mode BSP_GPIO_IRQ_MODE_OFF g))
    by by apply list_lookup_insert_eq.
  rewrite Ok_bind. cbn [irq_mode set_irq_mode].
  eexists. split; [done|]. cbn [gpio mem drv trace store with_drv poke].
  rewrite list_lookup_insert_eq by done.
  do 6 (split; [done|]). split.
  - intros Hisr level tick. unfold driver_edge_event.
    cbn [drv store with_drv poke] in *. by rewrite Hd, Hisr.
  - intros Hb Hnull Hidx level tick.
    erewrite gpio_irq_callback_eq with (g := set_irq_mode BSP_GPIO_IRQ_MODE_OFF g);
      [| rewrite Hidx; by apply list_lookup_insert_eq | by left].
    cbn [blocked set_irq_mode]. rewrite Hb. unfold handler_of.
    cbn [Gpio.irq set_irq_mode]. rewrite Hnull.
    change (NULL =? NULL) with true. cbn [dispatch_of]. by rewrite app_nil_r.
Qed.
End PinFacts.

Section Counterexamples.
Import GpioView LpTimerView Scenario.

Lemma reachable_timers_after ops :
  (if LpTimer.run ops LpTimer.init_state is Ok _ then True else False) →
  LpTimer.reachable (timers_after ops).
Proof.
  unfold timers_after, LpTimer.reachable. intros H. exists ops.
  by destruct (LpTimer.run ops LpTimer.init_state).
Qed.

(** C3, as stated, fails: timer 0 expires while masked and is stopped; it has
    no handler, and the unmask leaves its pending flag set. *)
Lemma unmask_without_handler_keeps_pending :
  ¬ (∀ st id t st',
        LpTimer.reachable st →
        LpTimer.lptim st !! id = Some t →
        LpTimer.callback (LpTimer.tmr_irq t) = NULL →
        LpTimer.hal_lp_timer_irq_enable id st = Ok st' →
        (LpTimer.pending <$> LpTimer.lptim st' !! id) = Some false).
Proof.
  intros H.
  specialize (H (timers_after expired_then_stopped) 0%nat
                (LpTimer.mk_timer 0 0 (LpTimer.mk_irq NULL NULL) true true)
                (timers_after (expired_then_stopped ++ [LpTimer.IrqEnable 0]))).
  assert (Hr : LpTimer.reachable (timers_after expired_then_stopped))
    by (apply reachable_timers_after; exact I).
  specialize (H Hr eq_refl eq_refl eq_refl).
  vm_compute in H. discriminate H.
Qed.

(** C4, as stated, fails: the timer slots start unmasked. *)
Lemma initial_timer_slots_are_not_masked :
  ¬ Forall (λ t, LpTimer.blocked t = true ∧ LpTimer.pending t = false)
           (LpTimer.lptim LpTimer.init_state).
Proof.
  intros H. apply Forall_cons in H as [[H _] _]. discriminate H.
Qed.

(** C5, as stated, fails: after the run above the slot is unmasked with its
    pending flag still set; once a handler is attached again, a further unmask
    calls it. *)
Lemma unmask_of_unmasked_slot_can_dispatch :
  ¬ (∀ st id t,
        LpTimer.reachable st →
        LpTimer.lptim st !! id = Some t →
        LpTimer.blocked t = false →
        LpTimer.hal_lp_timer_irq_enable id st = Ok st).
Proof.
  intros H.
  specialize (H (timers_after stale_then_restarted) 0%nat
                (LpTimer.mk_timer 0 0 handler_b false true)).
  assert (Hr : LpTimer.reachable (timers_after stale_then_restarted))
    by (apply reachable_timers_after; exact I).
  specialize (H Hr eq_refl eq_refl).
  vm_compute in H. discriminate H.
Qed.

(** C8, as stated, fails: with the edge mode off the handler is not stored on
    the slot. *)
Lemma init_in_edge_off_leaves_handler_unattached :
  ¬ (∀ st pin pull_mode irq h rc_isr st',
        irq ≠ NULL →
        Gpio.mem st !! irq = Some h →
        Gpio.callback h ≠ NULL →
        Gpio.hal_gpio_init_in pin pull_mode Gpio.BSP_GPIO_IRQ_MODE_OFF irq
                              0 0 0 rc_isr st = Ok st' →
        (Gpio.irq <$> Gpio.gpio st' !! Gpio.slot_index pin) = Some irq).
Proof.
  intros H.
  specialize (H (Gpio.init_state pins heap) 3 Gpio.BSP_GPIO_PULL_MODE_DOWN
                irq_ptr pin_handler 0
                (pins_after [Gpio.InitIn 3 Gpio.BSP_GPIO_PULL_MODE_DOWN
                               Gpio.BSP_GPIO_IRQ_MODE_OFF irq_ptr 0 0 0 0])).
  assert (H1 : irq_ptr ≠ NULL) by done.
  assert (H2 : Gpio.callback pin_handler ≠ NULL) by done.
  specialize (H H1 eq_refl H2 eq_refl).
  vm_compute in H. discriminate H.
Qed.
End Counterexamples.

Section Witnesses.
Import GpioView LpTimerView Scenario.

(** The theorems above at concrete states. *)
Lemma masked_notifications_coalesce_witness :
  let st := timers_after started_masked in
  let t := LpTimer.mk_timer 0 0 handler_a true false in
  let gst := pins_after rising_masked in
  let g := Gpio.mk_gpio irq_ptr Gpio.BSP_GPIO_IRQ_MODE_RISING true false in
  let h := Gpio.mk_irq 3 42 7 in
  (LpTimer.lptim st !! 0%nat = Some t
   ∧ LpTimer.blocked t = true
   ∧ LpTimer.callback (LpTimer.tmr_irq t) ≠ NULL
   ∧ well_formed pins gst
   ∧ Gpio.gpio gst !! Gpio.slot_index8 3 = Some g
   ∧ Gpio.blocked g = true
   ∧ handler_of (Gpio.mem gst) g = Some h)
  ∧ ∃ st1 st2,
      LpTimer.run (replicate 2 (LpTimer.Expire 0)) st = Ok st1
      ∧ st1 = LpTimer.store 0 (LpTimer.set_pending true t) st
      ∧ LpTimer.hal_lp_timer_irq_enable 0 st1 = Ok st2
      ∧ LpTimer.trace st2 = LpTimer.trace st ++ [Dispatch 0 7 42]
      ∧ LpTimer.lptim st2 !! 0%nat
        = Some (LpTimer.set_pending false (LpTimer.set_blocked false t)).
Proof.
  intros st t gst g h.
  assert (H1 : LpTimer.lptim st !! 0%nat = Some t) by reflexivity.
  assert (H2 : LpTimer.blocked t = true) by reflexivity.
  assert (H3 : LpTimer.callback (LpTimer.tmr_irq t) ≠ NULL) by discriminate.
  assert (H4 : well_formed pins gst)
    by (apply (bool_decide_unpack _); vm_compute; exact I).
  assert (H5 : Gpio.gpio gst !! Gpio.slot_index8 3 = Some g) by reflexivity.
  assert (H6 : Gpio.blocked g = true) by reflexivity.
  assert (H7 : handler_of (Gpio.mem gst) g = Some h) by reflexivity.
  split; [exact (conj H1 (conj H2 (conj H3 (conj H4 (conj H5 (conj H6 H7))))))|].
  exact (proj1 (masked_notifications_coalesce st 0 t 1 pins gst 3 1 0 g h
                  H1 H2 H3 H4 H5 H6 H7)).
Defined.

Lemma unmask_without_handler_dispatches_nothing_witness :
  let st := timers_after expired_then_stopped in
  let t := LpTimer.mk_timer 0 0 (LpTimer.mk_irq NULL NULL) true true in
  let gst := Gpio.init_state pins heap in
  (LpTimer.lptim st !! 0%nat = Some t
   ∧ LpTimer.callback (LpTimer.tmr_irq t) = NULL
   ∧ well_formed pins gst
   ∧ Gpio.gpio gst !! 1%nat = Some Gpio.zero_gpio
   ∧ handler_of (Gpio.mem gst) Gpio.zero_gpio = None)
  ∧ ∃ st' t',
      LpTimer.hal_lp_timer_irq_enable 0 st = Ok st'
      ∧ LpTimer.trace st' = LpTimer.trace st
      ∧ LpTimer.lptim st' !! 0%nat = Some t'
      ∧ LpTimer.blocked t' = false
      ∧ LpTimer.pending t' = true.
Proof.
  intros st t gst.
  assert (H1 : LpTimer.lptim st !! 0%nat = Some t) by reflexivity.
  assert (H2 : LpTimer.callback (LpTimer.tmr_irq t) = NULL) by reflexivity.
  assert (H3 : well_formed pins gst)
    by (apply (bool_decide_unpack _); vm_compute; exact I).
  assert (H4 : Gpio.gpio gst !! 1%nat = Some Gpio.zero_gpio) by reflexivity.
  assert (H5 : handler_of (Gpio.mem gst) Gpio.zero_gpio = None) by reflexivity.
  split; [exact (conj H1 (conj H2 (conj H3 (conj H4 H5))))|].
  exact (proj1 (unmask_without_handler_dispatches_nothing
                  st 0 t pins gst 1 Gpio.zero_gpio H1 H2 H3 H4 H5)).
Defined.

Lemma unmask_dispatches_at_most_once_witness :
  let st := timers_after (started_masked ++ replicate 3 (LpTimer.Expire 0)) in
  let t := LpTimer.mk_timer 0 0 handler_a true true in
  let gst := pins_after (rising_masked ++ replicate 3 (Gpio.Callback 3 1 0)) in
  let g := Gpio.mk_gpio irq_ptr Gpio.BSP_GPIO_IRQ_MODE_RISING true true in
  let su := timers_after (expired_then_stopped ++ [LpTimer.IrqEnable 0]) in
  let tu := LpTimer.mk_timer 0 0 (LpTimer.mk_irq NULL NULL) false true in
  let gu := pins_after
              [Gpio.InitIn 3 Gpio.BSP_GPIO_PULL_MODE_DOWN
                           Gpio.BSP_GPIO_IRQ_MODE_RISING irq_ptr 0 0 0 0] in
  let g' := Gpio.mk_gpio irq_ptr Gpio.BSP_GPIO_IRQ_MODE_RISING false false in
  (LpTimer.lptim st !! 0%nat = Some t
   ∧ well_formed pins gst
   ∧ Gpio.gpio gst !! 1%nat = Some g
   ∧ LpTimer.lptim su !! 0%nat = Some tu
   ∧ well_formed pins gu
   ∧ Gpio.gpio gu !! 1%nat = Some g')
  ∧ (∃ st' l,
      LpTimer.hal_lp_timer_irq_enable 0 st = Ok st'
      ∧ LpTimer.trace st' = LpTimer.trace st ++ l
      ∧ l = [Dispatch 0 7 42]
      ∧ (List.length l ≤ 1)%nat)
  ∧ (∃ gst' l,
      Gpio.hal_gpio_irq_enable pins gst = Ok gst'
      ∧ Gpio.trace gst' = Gpio.trace gst ++ l
      ∧ l = [Dispatch 1 7 42]
      ∧ (List.length (from_slot 1 l) ≤ 1)%nat)
  ∧ LpTimer.hal_lp_timer_irq_enable 0 su = Ok su
  ∧ (∃ gu' l,
      Gpio.hal_gpio_irq_enable pins gu = Ok gu'
      ∧ Gpio.trace gu' = Gpio.trace gu ++ l
      ∧ Gpio.gpio gu' !! 1%nat = Some g'
      ∧ from_slot 1 l = []).
Proof.
  intros st t gst g su tu gu g'.
  assert (H1 : LpTimer.lptim st !! 0%nat = Some t) by reflexivity.
  assert (H2 : well_formed pins gst)
    by (apply (bool_decide_unpack _); vm_compute; exact I).
  assert (H3 : Gpio.gpio gst !! 1%nat = Some g) by reflexivity.
  assert (H4 : LpTimer.lptim su !! 0%nat = Some tu) by reflexivity.
  assert (H5 : well_formed pins gu)
    by (apply (bool_decide_unpack _); vm_compute; exact I).
  assert (H6 : Gpio.gpio gu !! 1%nat = Some g') by reflexivity.
  split; [exact (conj H1 (conj H2 (conj H3 (conj H4 (conj H5 H6)))))|].
  destruct (unmask_dispatches_at_most_once st 0 t pins gst 1 g H1 H2 H3)
    as [(st' & l & Hen & Htr & Hlen & _) (gst' & gl & Hgen & Hgtr & Hglen & _)].
  destruct (unmask_dispatches_at_most_once su 0 tu pins gu 1 g' H4 H5 H6)
    as [(su' & ul & Hun & _ & _ & Hnoop) (gu' & gul & Hgun & Hgutr & _ & Hgnoop)].
  split; [|split; [|split]].
  - exists st', l. split; [exact Hen|]. split; [exact Htr|].
    split; [|exact Hlen].
    assert (E : LpTimer.hal_lp_timer_irq_enable 0 st
                = Ok (timers_after (started_masked
                                    ++ replicate 3 (LpTimer.Expire 0)
                                    ++ [LpTimer.IrqEnable 0])))
      by reflexivity.
    rewrite Hen in E. injection E as ->.
    exact (app_inv_head (LpTimer.trace st) l [Dispatch 0 7 42] (eq_sym Htr)).
  - exists gst', gl. split; [exact Hgen|]. split; [exact Hgtr|].
    split; [|exact Hglen].
    assert (E : Gpio.hal_gpio_irq_enable pins gst
                = Ok (pins_after (rising_masked
                                  ++ replicate 3 (Gpio.Callback 3 1 0)
                                  ++ [Gpio.IrqEnable])))
      by reflexivity.
    rewrite Hgen in E. injection E as ->.
    exact (app_inv_head (Gpio.trace gst) gl [Dispatch 1 7 42] (eq_sym Hgtr)).
  - rewrite Hun. f_equal. apply Hnoop; reflexivity.
  - exists gu', gul. split; [exact Hgun|]. split; [exact Hgutr|].
    apply Hgnoop; reflexivity.
Defined.

Lemma notify_dispatches_or_sets_pending_witness :
  let st := timers_after [LpTimer.Start 0 100 handler_a 0] in
  let t := LpTimer.mk_timer 0 0 handler_a false false in
  let stm := timers_after started_masked in
  let tm := LpTimer.mk_timer 0 0 handler_a true false in
  let gst := pins_after rising_masked in
  let g := Gpio.mk_gpio irq_ptr Gpio.BSP_GPIO_IRQ_MODE_RISING true false in
  (LpTimer.lptim st !! 0%nat = Some t
   ∧ LpTimer.lptim stm !! 0%nat = Some tm
   ∧ Gpio.gpio gst !! Gpio.slot_index8 3 = Some g
   ∧ attached_live (Gpio.mem gst) g)
  ∧ (∃ st',
      LpTimer.pl_timer_handler 0 st = Ok st'
      ∧ LpTimer.lptim st' = LpTimer.lptim st
      ∧ LpTimer.trace st' = [Dispatch 0 7 42])
  ∧ (∃ stm',
      LpTimer.pl_timer_handler 0 stm = Ok stm'
      ∧ LpTimer.trace stm' = []
      ∧ (LpTimer.pending <$> LpTimer.lptim stm !! 0%nat) = Some false
      ∧ (LpTimer.pending <$> LpTimer.lptim stm' !! 0%nat) = Some true)
  ∧ (∃ gst',
      Gpio.gpio_irq_callback 3 1 0 gst = Ok gst'
      ∧ Gpio.trace gst' = []
      ∧ (Gpio.pending <$> Gpio.gpio gst !! 1%nat) = Some false
      ∧ (Gpio.pending <$> Gpio.gpio gst' !! 1%nat) = Some true).
Proof.
  intros st t stm tm gst g.
  assert (H1 : LpTimer.lptim st !! 0%nat = Some t) by reflexivity.
  assert (H1m : LpTimer.lptim stm !! 0%nat = Some tm) by reflexivity.
  assert (H2 : Gpio.gpio gst !! Gpio.slot_index8 3 = Some g) by reflexivity.
  assert (H3 : attached_live (Gpio.mem gst) g)
    by (apply (bool_decide_unpack _); vm_compute; exact I).
  split; [exact (conj H1 (conj H1m (conj H2 H3)))|].
  destruct (notify_dispatches_or_sets_pending st 0 t gst 3 1 0 g H1 H2 H3)
    as [(st' & Hn & Hl & Htr) (gst' & Hgn & Hgtr & _ & Hgp & _)].
  destruct (notify_dispatches_or_sets_pending stm 0 tm gst 3 1 0 g H1m H2 H3)
    as [(stm' & Hm & Hmtr & _ & Hmp & _) _].
  split; [|split].
  - exists st'. split; [exact Hn|]. split; [exact Hl | exact Htr].
  - exists stm'. split; [exact Hm|]. split; [exact Hmtr|].
    split; [reflexivity | exact Hmp].
  - exists gst'. split; [exact Hgn|]. split; [exact Hgtr|].
    split; [reflexivity | exact Hgp].
Defined.

Lemma stop_detaches_handler_witness :
  let st := timers_after [LpTimer.Start 0 100 handler_a 0] in
  let t := LpTimer.mk_timer 0 0 handler_a false false in
  (LpTimer.lptim st !! 0%nat = Some t ∧ 0 ≠ -1)
  ∧ ∃ st1 st2,
      LpTimer.hal_lp_timer_stop 0 0 st = Ok st1
      ∧ LpTimer.run [LpTimer.Start 0 50 handler_b 0; LpTimer.Expire 0] st1
        = Ok st2
      ∧ LpTimer.trace st2 = LpTimer.trace st1 ++ [Dispatch 0 8 43].
Proof.
  intros st t.
  assert (H1 : LpTimer.lptim st !! 0%nat = Some t) by reflexivity.
  assert (H2 : 0 ≠ -1) by discriminate.
  split; [exact (conj H1 H2)|].
  destruct (stop_detaches_handler st 0 t 0 H1 H2)
    as (st1 & t1 & Hstop & _ & _ & _ & _ & _ & _ & Hnew).
  destruct (Hnew handler_b 50) as (st2 & Hrun & Htr).
  exists st1, st2. split; [exact Hstop|]. split; [exact Hrun | exact Htr].
Defined.

Lemma init_in_edge_off_registers_nothing_witness :
  let st := Gpio.init_state pins heap in
  (irq_ptr ≠ NULL
   ∧ Gpio.mem st !! irq_ptr = Some pin_handler
   ∧ Gpio.callback pin_handler ≠ NULL
   ∧ Gpio.gpio st !! Gpio.slot_index 3 = Some Gpio.zero_gpio)
  ∧ ∃ st',
      Gpio.run pins
        [Gpio.InitIn 3 Gpio.BSP_GPIO_PULL_MODE_DOWN Gpio.BSP_GPIO_IRQ_MODE_OFF
                     irq_ptr 0 0 0 0] st = Ok st'
      ∧ (Gpio.irq <$> Gpio.gpio st' !! Gpio.slot_index 3) = Some NULL
      ∧ (Gpio.pending <$> Gpio.gpio st' !! Gpio.slot_index 3) = Some false
      ∧ Gpio.driver_edge_event 3 1 0 st' = Ok st'.
Proof.
  intros st.
  assert (H1 : irq_ptr ≠ NULL) by discriminate.
  assert (H2 : Gpio.mem st !! irq_ptr = Some pin_handler) by reflexivity.
  assert (H3 : Gpio.callback pin_handler ≠ NULL) by discriminate.
  assert (H4 : Gpio.gpio st !! Gpio.slot_index 3 = Some Gpio.zero_gpio)
    by reflexivity.
  split; [exact (conj H1 (conj H2 (conj H3 H4)))|].
  destruct (init_in_edge_off_registers_nothing
              st 3 Gpio.BSP_GPIO_PULL_MODE_DOWN irq_ptr pin_handler
              Gpio.zero_gpio 0 H1 H2 H3 H4)
    as (st' & Hin & _ & Hirq & Hpend & _ & _ & _ & Hedge & _).
  exists st'. cbn [Gpio.run Gpio.step]. rewrite Hin.
  split; [reflexivity|]. split; [exact Hirq|]. split; [exact Hpend|].
  apply Hedge. reflexivity.
Defined.

Lemma clear_pending_irq_clears_every_slot_witness :
  let st := pins_after (rising_masked ++ [Gpio.Callback 3 1 0]) in
  List.length (Gpio.gpio st) = pins
  ∧ (Gpio.pending <$> Gpio.gpio st !! 1%nat) = Some true
  ∧ ∃ st',
      Gpio.hal_gpio_clear_pending_irq pins 3 st = Ok st'
      ∧ Forall (λ g, Gpio.pending g = false) (Gpio.gpio st')
      ∧ Gpio.hal_gpio_clear_pending_irq pins 2 st = Ok st'.
Proof.
  intros st.
  assert (H1 : List.length (Gpio.gpio st) = pins) by reflexivity.
  split; [exact H1|]. split; [reflexivity|].
  destruct (clear_pending_irq_clears_every_slot pins st 3 2 H1)
    as (st' & Hc & _ & Hall & _ & Hc').
  exists st'. split; [exact Hc|]. split; [exact Hall | exact Hc'].
Defined.
End Witnesses.

Section MainFacts.
Import Main.

Lemma to_int_range z : - 2 ^ 31 <= to_int z < 2 ^ 31.
Proof. unfold to_int. pose proof (Z.mod_pos_bound (z + 2 ^ 31) (2 ^ 32)). lia. Qed.

Lemma atoi_range s : - 2 ^ 31 <= atoi s < 2 ^ 31.
Proof. apply to_int_range. Qed.

Lemma clamp_low p : (if p <? 1 then 1 else p) = Z.max 1 p.
Proof. destruct (Z.ltb_spec p 1); lia. Qed.

Lemma clamp_high s : (if 222 <? s then 222 else s) = Z.min 222 s.
Proof. destruct (Z.ltb_spec 222 s); lia. Qed.

Lemma parse_mode_keeps argv g :
  g_uplink_period_s (parse_mode argv g) = g_uplink_period_s g
  ∧ g_packet_size (parse_mode argv g) = g_packet_size g.
Proof.
  unfold parse_mode. destruct (4 <=? _); [|done].
  by destruct (_ || _).
Qed.

(** C10. For every command line, after the arguments are parsed the uplink
    period is at least 1 and the packet size lies between 1 and 222: a period
    below 1 becomes 1, a size below 1 becomes 1 and a size above 222 becomes
    222, and an argument that is absent leaves the default (60 s, 12 bytes). *)
Theorem parse_args_clamps (argv : list string) :
  let g := parse_args argv in
  let argc := Z.of_nat (List.length argv) in
  1 <= g_uplink_period_s g
  ∧ 1 <= g_packet_size g <= 222
  ∧ g_uplink_period_s g
    = (if 2 <=? argc then Z.max 1 (atoi (arg argv 1))
       else g_uplink_period_s defaults)
  ∧ g_packet_size g
    = (if 3 <=? argc then Z.min 222 (Z.max 1 (atoi (arg argv 2)))
       else g_packet_size defaults)
  ∧ g_uplink_period_s defaults = 60 ∧ g_packet_size defaults = 12.
Proof.
  intros g argc. subst g. unfold parse_args.
  destruct (parse_mode_keeps argv (parse_size argv (parse_period argv defaults)))
    as [-> ->].
  unfold parse_size, parse_period. fold argc.
  rewrite !clamp_low, !clamp_high.
  pose proof (atoi_range (arg argv 1)) as H1.
  pose proof (atoi_range (arg argv 2)) as H2.
  assert (Hp : to_uint32 (Z.max 1 (atoi (arg argv 1))) = Z.max 1 (atoi (arg argv 1))).
  { unfold to_uint32. apply Z.mod_small. lia. }
  assert (Hs : to_uint8 (Z.min 222 (Z.max 1 (atoi (arg argv 2))))
               = Z.min 222 (Z.max 1 (atoi (arg argv 2)))).
  { unfold to_uint8. apply Z.mod_small. lia. }
  destruct (2 <=? argc), (3 <=? argc); simpl; rewrite ?Hp, ?Hs;
    repeat split; try reflexivity; lia.
Qed.
End MainFacts.

Example parse_args_clamps_both : Main.parse_args ["prog"; "0"; "300"; "var"]%string = Main.mk_globals 1 222 false.
Proof. vm_compute. reflexivity. Qed.
Example parse_args_stops_at_non_digit : Main.parse_args ["prog"; "  -12x"; "7"]%string = Main.mk_globals 1 7 true.
Proof. vm_compute. reflexivity. Qed.
Example atoi_wraps_to_int : Main.atoi "4294967297"%string = 1.
Proof. vm_compute. reflexivity. Qed.
Example atoi_saturates_long : Main.atoi "99999999999999999999999"%string = -1.
Proof. vm_compute. reflexivity. Qed.

Section SupervisorFacts.
Import Supervisor.

Lemma wstatus_exited code :
  0 <= code < 256 →
  WIFEXITED (wstatus_of (Exited code)) = true
  ∧ WEXITSTATUS (wstatus_of (Exited code)) = code.
Proof.
  intros Hc. unfold WIFEXITED, WEXITSTATUS, wstatus_of.
  change 255 with (Z.ones 8). rewrite Z.land_ones by lia.
  rewrite (Z.mod_small code) by lia.
  split.
  - apply Z.eqb_eq. change 127 with (Z.ones 7).
    rewrite Z.land_ones, Z.shiftl_mul_pow2 by lia.
    change (2 ^ 8) with (2 * 2 ^ 7). rewrite Z.mul_assoc.
    apply Z.mod_mul. lia.
  - change 65280 with (Z.shiftl (Z.ones 8) 8).
    rewrite <- Z.shiftl_land, Z.land_ones by lia.
    rewrite (Z.mod_small code) by lia.
    rewrite Z.shiftr_shiftl_l by lia. by rewrite Z.sub_diag.
Qed.

Lemma wstatus_signaled sig core :
  1 <= sig <= 64 → WIFEXITED (wstatus_of (Signaled sig core)) = false.
Proof.
  intros Hs. unfold WIFEXITED, wstatus_of. apply Z.eqb_neq.
  change 127 with (Z.ones 7).
  rewrite Z.land_lor_distr_l, !Z.land_ones by lia.
  rewrite Z.mod_mod by lia.
  rewrite (Z.mod_small sig) by (change (2 ^ 7) with 128; lia).
  intros [H _]%Z.lor_eq_0_iff. lia.
Qed.

Lemma loop_condition_iff t :
  valid_termination t →
  loop_condition (wstatus_of t) = true ↔ t = Exited 3.
Proof.
  intros Hv. unfold loop_condition. destruct t as [code | sig core]; simpl in Hv.
  - destruct (wstatus_exited code Hv) as [-> ->]. simpl.
    rewrite Z.eqb_eq. split; [by intros -> | by intros [= ->]].
  - rewrite (wstatus_signaled sig core Hv). simpl. split; done.
Qed.

(** A worker that leaves through [mcu_panic ()] is forked again. *)
Lemma panic_restarts_worker :
  loop_condition (wstatus_of (Exited MCU_PANIC_EXIT_CODE)) = true.
Proof. reflexivity. Qed.

(** C2. After a worker ends, the loop forks again if and only if the worker
    exited normally with code 3; after any other end (another exit code, or a
    signal) the supervisor stops. When the workers exit with 3, 3, 3 and then
    0, four workers are forked and the supervisor stops, whatever would come
    next. *)
Theorem supervisor_restarts_on_exit_3 (t : termination) :
  valid_termination t →
  (loop_condition (wstatus_of t) = true ↔ t = Exited 3)
  ∧ (∀ env wstatus workers,
       fork_loop (Child t :: env) wstatus workers
       = if decide (t = Exited 3)
         then fork_loop env (wstatus_of t) (S workers)
         else (S workers, STOPPED))
  ∧ (∀ env,
       supervise (Child (Exited 3) :: Child (Exited 3) :: Child (Exited 3)
                  :: Child (Exited 0) :: env) = (4%nat, STOPPED)).
Proof.
  intros Hv. pose proof (loop_condition_iff t Hv) as Hiff.
  split; [done|]. split.
  - intros env w n. simpl. case_decide as Ht.
    + apply Hiff in Ht. by rewrite Ht.
    + destruct (loop_condition (wstatus_of t)); [|done].
      destruct Ht. by apply Hiff.
  - intros env. reflexivity.
Qed.

Lemma supervisor_restarts_on_exit_3_witness :
  valid_termination (Exited 3)
  ∧ supervise [Child (Exited 3); Child (Exited 3); Child (Exited 3);
               Child (Exited 0); Child (Exited 3)] = (4%nat, STOPPED).
Proof.
  split; [simpl; lia|].
  apply (supervisor_restarts_on_exit_3 (Exited 3)). simpl; lia.
Defined.
End SupervisorFacts.

(** * Further properties of the code *)

Section TimerRuns.
Import LpTimer LpTimerView LpTimerOps GpioView.

(** What a step does to the facility: it rewrites the slot it works on,
    programs at most the countdown of that slot, and calls at most the handler
    of that slot, which it can do only when the slot is unmasked or the step
    unmasks it; the mask of the slot changes only by the two gate calls. *)
Lemma step_slot o s s' :
  step o s = Ok s' →
  ∃ t0 t1 l,
    lptim s !! op_slot o = Some t0
    ∧ lptim s' = <[op_slot o := t1]> (lptim s)
    ∧ (∀ j, j ≠ op_slot o → it_value s' !! j = it_value s !! j)
    ∧ trace s' = trace s ++ l
    ∧ Forall (λ e, event_slot e = op_slot o) l
    ∧ (l = [] ∨ blocked t0 = false ∨ o = IrqEnable (op_slot o))
    ∧ (blocked t1 = blocked t0 ∨ o = IrqEnable (op_slot o) ∨ blocked t1 = true).
Proof.
  destruct o as [id lo hi rc1 rc2 h | id ms irq rc | id rc | id | id | id];
    cbn [step op_slot]; intros Hs.
  - unfold hal_lp_timer_init in Hs.
    destruct (hi <? lo + Z.of_nat id + 1); [done|].
    apply bind_Ok in Hs as (t0 & Ht0%at_index_Ok & Hs).
    destruct (rc1 =? -1); [done|]. destruct (rc2 =? -1); [done|].
    apply bind_Ok in Hs as (t1 & Ht1%at_index_Ok & [= <-]).
    cbn in Ht1. rewrite list_lookup_insert_eq in Ht1
      by (apply lookup_lt_is_Some; eauto).
    injection Ht1 as <-.
    exists t0, (set_handle h (set_signo (lo + Z.of_nat id + 1) t0)), [].
    cbn. rewrite list_insert_insert_eq, app_nil_r. eauto 10.
  - unfold hal_lp_timer_start in Hs.
    apply bind_Ok in Hs as (t0 & Ht0%at_index_Ok & Hs).
    destruct (rc =? -1); [done|]. injection Hs as <-.
    exists t0, (set_tmr_irq irq t0), []. cbn. rewrite app_nil_r.
    split; [done|]. split; [done|]. split.
    { intros j Hj. by rewrite list_lookup_insert_ne. }
    eauto 10.
  - unfold hal_lp_timer_stop in Hs.
    apply bind_Ok in Hs as (t0 & Ht0%at_index_Ok & Hs).
    destruct (rc =? -1); [done|]. injection Hs as <-.
    exists t0, (set_tmr_irq (mk_irq NULL NULL) t0), []. cbn.
    rewrite app_nil_r.
    split; [done|]. split; [done|]. split.
    { intros j Hj. by rewrite list_lookup_insert_ne. }
    eauto 10.
  - assert (Ht0 : is_Some (lptim s !! id)).
    { unfold hal_lp_timer_irq_enable in Hs.
      apply bind_Ok in Hs as (t0 & Ht0%at_index_Ok & _). eauto. }
    destruct Ht0 as [t0 Ht0]. rewrite (enable_eq _ _ _ Ht0) in Hs.
    injection Hs as <-. exists t0.
    destruct (pending t0 && has_handler t0) eqn:E.
    + eexists _, _. split; [done|]. split; [done|]. split; [done|].
      split; [done|]. split; [by repeat constructor|].
      split; [by right; right | by right; left].
    + exists (set_blocked false t0), []. cbn. rewrite app_nil_r. eauto 10.
  - unfold hal_lp_timer_irq_disable in Hs.
    apply bind_Ok in Hs as (t0 & Ht0%at_index_Ok & [= <-]).
    exists t0, (set_blocked true t0), []. cbn. rewrite app_nil_r. eauto 10.
  - assert (Ht0 : is_Some (lptim s !! id)).
    { unfold pl_timer_handler in Hs.
      apply bind_Ok in Hs as (t0 & Ht0%at_index_Ok & _). eauto. }
    destruct Ht0 as [t0 Ht0]. rewrite (handler_eq _ _ _ Ht0) in Hs.
    injection Hs as <-. exists t0.
    destruct (blocked t0) eqn:Eb.
    + exists (set_pending true t0), []. cbn. rewrite app_nil_r, Eb. eauto 10.
    + destruct (has_handler t0) eqn:E.
      * eexists t0, _. cbn. rewrite list_insert_id by done.
        split; [done|]. split; [done|]. split; [done|]. split; [done|].
        split; [by repeat constructor|]. split; [by right; left | by left].
      * exists t0, []. rewrite app_nil_r, list_insert_id by done. eauto 10.
Qed.

Lemma added_app (l l' : list event) : added l (l ++ l') = l'.
Proof. unfold added. by rewrite drop_app_length. Qed.

(** X1. A run of timer operations in which no step works on slot [j] leaves
    slot [j] as it was, its record and its programmed countdown, and adds no
    call from slot [j] to the trace: the timers do not disturb one another. *)
Theorem timer_steps_leave_other_slots_alone
    (ops : list op) (j : nat) (s s' : state) :
  Forall (λ o, op_slot o ≠ j) ops →
  run ops s = Ok s' →
  lptim s' !! j = lptim s !! j
  ∧ it_value s' !! j = it_value s !! j
  ∧ from_slot j (added (trace s) (trace s')) = [].
Proof.
  revert s. induction ops as [|o ops IH]; intros s Hops Hrun.
  - injection Hrun as <-. unfold added. by rewrite drop_all.
  - apply Forall_cons in Hops as [Ho Hops].
    cbn [run] in Hrun. apply bind_Ok in Hrun as (s1 & Hs1 & Hrun).
    destruct (IH _ Hops Hrun) as (Hl & Hv & Hev).
    apply step_slot in Hs1 as (t0 & t1 & l & Ht0 & Hl1 & Hv1 & Htr1 & Hsl & _).
    rewrite Hl, Hv, Hl1, Hv1 by done.
    rewrite list_lookup_insert_ne by done. split; [done|]. split; [done|].
    assert (Hmono : ∃ l2, trace s' = trace s1 ++ l2).
    { clear -Hrun. revert s1 Hrun. induction ops as [|o' ops' IH']; intros s1 Hrun.
      - injection Hrun as <-. exists []. by rewrite app_nil_r.
      - cbn [run] in Hrun. apply bind_Ok in Hrun as (s2 & Hs2 & Hrun).
        apply step_slot in Hs2 as (_ & _ & l & _ & _ & _ & Htr & _).
        destruct (IH' _ Hrun) as [l2 Hl2]. exists (l ++ l2).
        by rewrite Hl2, Htr, app_assoc. }
    destruct Hmono as [l2 Hl2]. rewrite Hl2 in Hev |- *.
    rewrite added_app in Hev. rewrite Htr1, <- app_assoc, added_app.
    unfold from_slot in *. rewrite filter_app, Hev, app_nil_r.
    clear -Hsl Ho. induction Hsl as [|e l He Hsl IHl]; [done|].
    rewrite filter_cons, decide_False by congruence. done.
Qed.
End TimerRuns.

Section TimerGate.
Import LpTimer LpTimerView LpTimerOps GpioView.

Lemma from_slot_app i (l1 l2 : list event) :
  from_slot i (l1 ++ l2) = from_slot i l1 ++ from_slot i l2.
Proof. unfold from_slot. apply filter_app. Qed.

(** X2. While a timer slot is masked and no step unmasks it, whatever else is
    done to it (init, start, stop, mask, expiry), the slot stays masked and
    none of its handlers runs. *)
Theorem masked_timer_slot_never_dispatches
    (ops : list op) (id : nat) (t : lp_timer_t) (s s' : state) :
  lptim s !! id = Some t →
  blocked t = true →
  existsb (unmasks id) ops = false →
  run ops s = Ok s' →
  (blocked <$> lptim s' !! id) = Some true
  ∧ from_slot id (added (trace s) (trace s')) = [].
Proof.
  revert s t. induction ops as [|o ops IH]; intros s t Ht Hb Hops Hrun.
  - injection Hrun as <-. rewrite Ht. cbn. rewrite Hb. unfold added.
    by rewrite drop_all.
  - cbn [existsb] in Hops. apply orb_false_iff in Hops as [Ho Hops].
    cbn [run] in Hrun. apply bind_Ok in Hrun as (s1 & Hs1 & Hrun).
    apply step_slot in Hs1
      as (t0 & t1 & l & Ht0 & Hl1 & _ & Htr1 & Hsl & Hfire & Hmask).
    assert (Hnot : o ≠ IrqEnable id).
    { intros ->. cbn in Ho. by rewrite bool_decide_eq_false in Ho. }
    assert (H1 : ∃ t', lptim s1 !! id = Some t' ∧ blocked t' = true).
    { rewrite Hl1. destruct (decide (op_slot o = id)) as [E | E].
      - exists t1. split.
        { rewrite E. apply list_lookup_insert_eq, lookup_lt_is_Some. eauto. }
        rewrite E, Ht in Ht0. injection Ht0 as <-.
        destruct Hmask as [Hm | [Hm | Hm]]; [congruence| |done].
        rewrite E in Hm. done.
      - exists t. by rewrite list_lookup_insert_ne. }
    destruct H1 as (t' & Ht' & Hb').
    destruct (IH _ _ Ht' Hb' Hops Hrun) as (Hblk & Hev).
    split; [done|].
    assert (Hl : from_slot id l = []).
    { destruct (decide (op_slot o = id)) as [E | E].
      - rewrite E, Ht in Ht0. injection Ht0 as <-.
        destruct Hfire as [-> | [? | Hm]]; [done|congruence|].
        rewrite E in Hm. done.
      - clear -Hsl E. induction Hsl as [|e l He Hsl IHl]; [done|].
        unfold from_slot in *. rewrite filter_cons, decide_False by congruence.
        done. }
    assert (Hmono : ∃ l2, trace s' = trace s1 ++ l2).
    { clear -Hrun. revert s1 Hrun. induction ops as [|o' ops' IH']; intros s1 Hrun.
      - injection Hrun as <-. exists []. by rewrite app_nil_r.
      - cbn [run] in Hrun. apply bind_Ok in Hrun as (s2 & Hs2 & Hrun).
        apply step_slot in Hs2 as (_ & _ & l & _ & _ & _ & Htr & _).
        destruct (IH' _ Hrun) as [l2 Hl2]. exists (l ++ l2).
        by rewrite Hl2, Htr, app_assoc. }
    destruct Hmono as [l2 Hl2]. rewrite Hl2 in Hev |- *.
    rewrite added_app in Hev. rewrite Htr1, <- app_assoc, added_app.
    by rewrite from_slot_app, Hl, Hev.
Qed.

(** X3. Unmasking a timer slot a second time right after the first changes
    nothing and calls nothing. *)
Theorem timer_unmask_is_idempotent (id : nat) (s s1 : state) :
  hal_lp_timer_irq_enable id s = Ok s1 →
  hal_lp_timer_irq_enable id s1 = Ok s1.
Proof.
  intros Hen.
  assert (Ht : is_Some (lptim s !! id)).
  { unfold hal_lp_timer_irq_enable in Hen.
    apply bind_Ok in Hen as (t & Ht%at_index_Ok & _). eauto. }
  destruct Ht as [t Ht].
  assert (Hin : (id < List.length (lptim s))%nat)
    by (apply lookup_lt_is_Some; eauto).
  rewrite (enable_eq _ _ _ Ht) in Hen. injection Hen as <-.
  destruct (pending t && has_handler t) eqn:E.
  - erewrite enable_eq; [|cbn; by apply list_lookup_insert_eq].
    cbn. f_equal. unfold store. cbn. f_equal.
    rewrite list_insert_insert_eq. done.
  - erewrite enable_eq; [|cbn; by apply list_lookup_insert_eq].
    cbn [pending set_blocked]. unfold has_handler in *. cbn [tmr_irq set_blocked].
    rewrite E. unfold store. cbn. f_equal. f_equal.
    by rewrite list_insert_insert_eq.
Qed.

(** X4. [hal_lp_timer_start] with a duration in milliseconds (a [uint32_t])
    programs the countdown with whole seconds and a part below one second that
    add up to exactly that duration; zero milliseconds programs the zero
    value, which disarms the countdown. The handler is stored, the masked and
    pending flags are kept, and nothing is called. *)
Theorem timer_start_programs_the_duration
    (id : nat) (milliseconds : Z) (irq : hal_lp_timer_irq_t) (rc : Z)
    (s : state) (t : lp_timer_t) (v : timespec) :
  lptim s !! id = Some t →
  it_value s !! id = Some v →
  0 <= milliseconds < 2 ^ 32 →
  rc ≠ -1 →
  ∃ s' sec nsec,
    hal_lp_timer_start id milliseconds irq rc s = Ok s'
    ∧ it_value s' !! id = Some (sec, nsec)
    ∧ 0 <= nsec < 1000000000
    ∧ sec * 1000 + nsec `div` 1000000 = milliseconds
    ∧ nsec `mod` 1000000 = 0
    ∧ ((sec, nsec) = ZERO ↔ milliseconds = 0)
    ∧ (tmr_irq <$> lptim s' !! id) = Some irq
    ∧ (blocked <$> lptim s' !! id) = Some (blocked t)
    ∧ (pending <$> lptim s' !! id) = Some (pending t)
    ∧ trace s' = trace s.
Proof.
  intros Ht Hv Hms Hrc.
  assert (Hin : (id < List.length (lptim s))%nat)
    by (apply lookup_lt_is_Some; eauto).
  assert (Hin' : (id < List.length (it_value s))%nat)
    by (apply lookup_lt_is_Some; eauto).
  unfold hal_lp_timer_start. rewrite (at_index_Some _ _ _ Ht), Ok_bind.
  cbn zeta. destruct (Z.eqb_spec rc (-1)) as [? | _]; [done|].
  eexists _, _, _. split; [done|]. cbn.
  rewrite !list_lookup_insert_eq by done. split; [done|].
  pose proof (Z.mod_pos_bound milliseconds 1000 ltac:(lia)) as Hm.
  pose proof (Z.div_mod milliseconds 1000 ltac:(lia)) as Hd.
  split; [lia|]. split.
  { rewrite Z.div_mul by lia. lia. }
  split; [apply Z.mod_mul; lia|]. split; [|done].
  unfold ZERO. split.
  - intros [= H1 H2]. lia.
  - intros ->. done.
Qed.
End TimerGate.

Section PinAttach.
Import Gpio GpioView GpioOps.

Lemma modes_edge_of m :
  m ≠ BSP_GPIO_IRQ_MODE_OFF →
  at_index modes (irq_mode_value m) = Ok (edge_of m).
Proof. by destruct m. Qed.

Lemma hal_gpio_irq_attach_eq st irq h g rc :
  irq ≠ NULL → mem st !! irq = Some h → callback h ≠ NULL →
  gpio st !! slot_index (pin h) = Some g →
  irq_mode g ≠ BSP_GPIO_IRQ_MODE_OFF →
  hal_gpio_irq_attach irq rc st
  = if negb (rc =? 0) then Panic
    else Ok (with_drv (gpioSetISRFunc (pin h) (Some (edge_of (irq_mode g)))
                                      (drv st))
                      (store (slot_index (pin h)) (set_irq irq g) st)).
Proof.
  intros Hirq Hh Hcb Hg Hmode. unfold hal_gpio_irq_attach.
  rewrite (neq_NULL_eqb _ Hirq), (deref_Some _ _ _ Hh), Ok_bind.
  rewrite (neq_NULL_eqb _ Hcb), (at_index_Some _ _ _ Hg), Ok_bind.
  pose proof (modes_edge_of _ Hmode) as Hm.
  destruct (irq_mode g); [done| | |]; rewrite Hm, Ok_bind; done.
Qed.

(** X5. Attaching a handler that has a callback to a pin whose edge mode is
    not off: a failure of the driver is a panic; otherwise the slot points to
    the handler, the driver watches the edge of the mode, nothing is called,
    and on an unmasked slot an edge on the pin calls the handler exactly when
    it is the configured edge. *)
Theorem attach_registers_the_configured_edge
    (st : state) (irq : Z) (h : hal_gpio_irq_t) (g : gpio_t) :
  irq ≠ NULL →
  mem st !! irq = Some h →
  callback h ≠ NULL →
  gpio st !! slot_index (pin h) = Some g →
  irq_mode g ≠ BSP_GPIO_IRQ_MODE_OFF →
  (∀ rc, rc ≠ 0 → hal_gpio_irq_attach irq rc st = Panic)
  ∧ ∃ st',
      hal_gpio_irq_attach irq 0 st = Ok st'
      ∧ gpio st' = <[slot_index (pin h) := set_irq irq g]> (gpio st)
      ∧ isr (drv st') = <[pin h := edge_of (irq_mode g)]> (isr (drv st))
      ∧ mem st' = mem st
      ∧ trace st' = trace st
      ∧ (blocked g = false →
         slot_index8 (pin h) = slot_index (pin h) →
         ∀ level tick,
           driver_edge_event (pin h) level tick st'
           = Ok (if edge_selected (edge_of (irq_mode g)) level
                 then invoke (slot_index (pin h)) h st'
                 else st')).
Proof.
  intros Hirq Hh Hcb Hg Hmode.
  assert (Hin : (slot_index (pin h) < List.length (gpio st))%nat)
    by (apply lookup_lt_is_Some; eauto).
  pose proof (λ rc, hal_gpio_irq_attach_eq st irq h g rc Hirq Hh Hcb Hg Hmode)
    as Hatt.
  split.
  - intros rc Hrc. rewrite Hatt. by destruct (Z.eqb_spec rc 0).
  - rewrite Hatt. cbn [Z.eqb negb]. eexists. split; [done|].
    cbn [gpio mem drv trace with_drv store gpioSetISRFunc isr].
    do 4 (split; [done|]).
    intros Hb Hidx level tick. unfold driver_edge_event.
    cbn [drv with_drv gpioSetISRFunc isr]. rewrite lookup_insert_eq.
    destruct (edge_selected (edge_of (irq_mode g)) level); [|done].
    erewrite gpio_irq_callback_eq with (g := set_irq irq g).
    + cbn [blocked set_irq]. rewrite Hb. unfold handler_of.
      cbn [Gpio.irq set_irq mem with_drv store].
      rewrite (neq_NULL_eqb _ Hirq), Hh, (neq_NULL_eqb _ Hcb).
      rewrite Hidx. done.
    + rewrite Hidx. cbn. by apply list_lookup_insert_eq.
    + right. cbn. eauto.
Qed.

End PinAttach.

Section PinGate.
Import Gpio GpioView GpioOps.

Lemma gpio_irq_callback_blocked pin lvl tick s g :
  gpio s !! slot_index8 pin = Some g → blocked g = true →
  gpio_irq_callback pin lvl tick s
  = Ok (store (slot_index8 pin) (set_pending true g) s).
Proof.
  intros Hg Hb. unfold gpio_irq_callback.
  by rewrite (at_index_Some _ _ _ Hg), Ok_bind, Hb.
Qed.

Lemma delivery_on_masked_pins P_NUM o s :
  delivery P_NUM o = true →
  List.length (gpio s) = P_NUM →
  Forall (λ g, blocked g = true) (gpio s) →
  ∃ s', step P_NUM o s = Ok s'
        ∧ List.length (gpio s') = P_NUM
        ∧ Forall (λ g, blocked g = true) (gpio s')
        ∧ trace s' = trace s.
Proof.
  intros Ho Hlen Hall.
  assert (Hcb : ∀ pin lvl tick, (slot_index8 pin < P_NUM)%nat →
            ∃ s', gpio_irq_callback pin lvl tick s = Ok s'
                  ∧ List.length (gpio s') = P_NUM
                  ∧ Forall (λ g, blocked g = true) (gpio s')
                  ∧ trace s' = trace s).
  { intros pin lvl tick Hin.
    destruct (lookup_lt_is_Some_2 (gpio s) (slot_index8 pin)) as [g Hg]; [lia|].
    pose proof (Forall_lookup_1 _ _ _ _ Hall Hg) as Hb. cbn in Hb.
    rewrite (gpio_irq_callback_blocked _ _ _ _ _ Hg Hb).
    eexists. split; [done|]. cbn. rewrite length_insert.
    split; [done|]. split; [|done]. by apply Forall_insert. }
  destruct o as [ | | | | | | | | p lvl tick | p lvl tick | ];
    try discriminate Ho; cbn in Ho; apply bool_decide_eq_true in Ho;
    cbn [step].
  - unfold driver_edge_event. destruct (isr (drv s) !! p) as [edge|]; [|eauto].
    destruct (edge_selected edge lvl); [|eauto]. by apply Hcb.
  - by apply Hcb.
Qed.

Lemma deliveries_on_masked_pins P_NUM ops s :
  forallb (delivery P_NUM) ops = true →
  List.length (gpio s) = P_NUM →
  Forall (λ g, blocked g = true) (gpio s) →
  ∃ s', run P_NUM ops s = Ok s'
        ∧ Forall (λ g, blocked g = true) (gpio s')
        ∧ trace s' = trace s.
Proof.
  revert s. induction ops as [|o ops IH]; intros s Hops Hlen Hall.
  - exists s. done.
  - cbn [forallb] in Hops. apply andb_true_iff in Hops as [Ho Hops].
    destruct (delivery_on_masked_pins _ _ _ Ho Hlen Hall)
      as (s1 & Hs1 & Hl1 & Hb1 & Ht1).
    destruct (IH _ Hops Hl1 Hb1) as (s2 & Hs2 & Hb2 & Ht2).
    exists s2. cbn [run]. rewrite Hs1, Ok_bind. split; [done|].
    split; [done|]. congruence.
Qed.

(** X7. After [hal_gpio_irq_disable], any sequence of edges and trampoline
    calls for pins of the facility calls no handler and leaves every slot
    masked. *)
Theorem masked_pins_never_dispatch (P_NUM : nat) (st : state) (ops : list op) :
  List.length (gpio st) = P_NUM →
  forallb (delivery P_NUM) ops = true →
  ∃ st1 st2,
    hal_gpio_irq_disable P_NUM st = Ok st1
    ∧ gpio st1 = set_blocked true <$> gpio st
    ∧ run P_NUM ops st1 = Ok st2
    ∧ trace st2 = trace st
    ∧ Forall (λ g, blocked g = true) (gpio st2).
Proof.
  intros Hlen Hops. rewrite (hal_gpio_irq_disable_eq _ _ Hlen).
  destruct (deliveries_on_masked_pins P_NUM ops
              (mk_state (set_blocked true <$> gpio st) (mem st) (drv st) (trace st))
              Hops) as (st2 & Hrun & Hb2 & Ht2).
  { cbn. by rewrite length_fmap. }
  { cbn. apply Forall_fmap, Forall_true. done. }
  eexists _, st2. split; [done|]. split; [done|]. split; [done|].
  split; [done|]. done.
Qed.

Lemma fires_unmasked m g : fires m (unmasked m g) = None.
Proof.
  unfold unmasked. destruct (fires m g) eqn:E; [done|].
  unfold fires in *. cbn. done.
Qed.

Lemma unmasked_unmasked m g : unmasked m (unmasked m g) = unmasked m g.
Proof.
  unfold unmasked at 1. rewrite fires_unmasked.
  unfold unmasked. by destruct (fires m g).
Qed.

Lemma attached_live_unmasked m g :
  attached_live m g → attached_live m (unmasked m g).
Proof. unfold attached_live, unmasked. by destruct (fires m g). Qed.

Lemma enable_events_quiet m k gs :
  Forall (λ g, fires m g = None) gs → enable_events m k gs = [].
Proof.
  revert k. induction gs as [|g gs IH]; intros k Hall; [done|].
  apply Forall_cons in Hall as [Hg Hall]. cbn. by rewrite Hg, IH.
Qed.

Lemma enable_events_sorted m k gs :
  Forall (λ e, k ≤ event_slot e)%nat (enable_events m k gs)
  ∧ StronglySorted lt (event_slot <$> enable_events m k gs).
Proof.
  revert k. induction gs as [|g gs IH]; intros k.
  - split; constructor.
  - cbn [enable_events]. destruct (IH (S k)) as [Hge Hs].
    destruct (fires m g) as [h|]; cbn [dispatch_of app].
    + split.
      * constructor; [cbn; lia|]. eapply Forall_impl; [exact Hge|].
        cbn. intros; lia.
      * cbn. constructor; [done|]. apply Forall_fmap.
        eapply Forall_impl; [exact Hge|]. cbn. intros; lia.
    + split; [|done]. eapply Forall_impl; [exact Hge|]. cbn. intros; lia.
Qed.

(** X8. On a well-formed state [hal_gpio_irq_enable] calls handlers in
    increasing slot order, at most one per slot, leaves every slot unmasked
    with nothing left to replay, and a second unmask right away changes
    nothing. *)
Theorem unmask_replays_in_slot_order (P_NUM : nat) (st : state) :
  well_formed P_NUM st →
  ∃ st' l,
    hal_gpio_irq_enable P_NUM st = Ok st'
    ∧ trace st' = trace st ++ l
    ∧ StronglySorted lt (event_slot <$> l)
    ∧ Forall (λ g, blocked g = false ∧ fires (mem st') g = None) (gpio st')
    ∧ hal_gpio_irq_enable P_NUM st' = Ok st'.
Proof.
  intros Hwf. rewrite (hal_gpio_irq_enable_eq _ _ Hwf).
  eexists _, _. split; [done|]. cbn [trace gpio mem].
  split; [done|]. split; [apply (proj2 (enable_events_sorted _ _ _))|]. split.
  - apply Forall_fmap, Forall_true. intros g. cbn. split.
    + unfold unmasked. by destruct (fires (mem st) g).
    + apply fires_unmasked.
  - destruct Hwf as [Hlen Hlive]. rewrite hal_gpio_irq_enable_eq.
    + cbn [gpio mem drv trace].
      rewrite <- list_fmap_compose.
      rewrite (list_fmap_ext (unmasked (mem st) ∘ unmasked (mem st))
                 (unmasked (mem st)) (gpio st))
        by (intros; apply unmasked_unmasked).
      rewrite (enable_events_quiet _ _ (unmasked (mem st) <$> gpio st)).
      2: { apply Forall_fmap, Forall_true. intros g. apply fires_unmasked. }
      by rewrite app_nil_r.
    + split; cbn; [by rewrite length_fmap|].
      apply Forall_fmap. eapply Forall_impl; [exact Hlive|].
      intros g. apply attached_live_unmasked.
Qed.
End PinGate.

Lemma for_from_inv {S : Type} (I : nat → S → Prop) (body : nat → S → result S)
    (k n : nat) (s : S) :
  I k s →
  (∀ i s, (k ≤ i < k + n)%nat → I i s → ∃ s', body i s = Ok s' ∧ I (Datatypes.S i) s') →
  ∃ s', for_from k n body s = Ok s' ∧ I (k + n)%nat s'.
Proof.
  revert k s. induction n as [|n IH]; intros k s Hk Hstep.
  - exists s. rewrite Nat.add_0_r. done.
  - destruct (Hstep k s ltac:(lia) Hk) as (s1 & Hs1 & Hk1).
    destruct (IH (Datatypes.S k) s1 Hk1) as (s2 & Hs2 & Hk2).
    { intros i s0 Hi. apply Hstep. lia. }
    exists s2. cbn [for_from]. rewrite Hs1, Ok_bind.
    split; [done|]. by replace (k + Datatypes.S n)%nat with (Datatypes.S k + n)%nat by lia.
Qed.

Section PinTeardown.
Import Gpio GpioView GpioTeardown.

(** X9. [hal_gpio_irq_deinit] never panics: whatever the driver returns for
    each slot, it returns, leaves slots, handlers and trace alone and only
    removes registrations; where the driver reports success the registration
    of the pin is gone and edges on it do nothing. *)
Theorem irq_deinit_swallows_failures
    (P_NUM : nat) (rc : nat → Z) (st : state) :
  well_formed P_NUM st →
  ∃ st',
    hal_gpio_irq_deinit P_NUM rc st = Ok st'
    ∧ gpio st' = gpio st
    ∧ mem st' = mem st
    ∧ trace st' = trace st
    ∧ (∀ p, isr (drv st) !! p = None → isr (drv st') !! p = None)
    ∧ (∀ i g h,
         gpio st !! i = Some g → Gpio.irq g ≠ NULL →
         mem st !! Gpio.irq g = Some h → rc i = 0 →
         isr (drv st') !! pin h = None
         ∧ ∀ level tick, driver_edge_event (pin h) level tick st' = Ok st').
Proof.
  intros [Hlen Hlive].
  set (J := λ (k : nat) (s : state),
         gpio s = gpio st ∧ mem s = mem st ∧ trace s = trace st
         ∧ (∀ p, isr (drv st) !! p = None → isr (drv s) !! p = None)
         ∧ (∀ i g h, (i < k)%nat → gpio st !! i = Some g → Gpio.irq g ≠ NULL →
                     mem st !! Gpio.irq g = Some h → rc i = 0 →
                     isr (drv s) !! pin h = None)).
  destruct (for_from_inv J (irq_deinit_body rc) 0 P_NUM st)
    as (st' & Hrun & Hg & Hm & Ht & Hmono & Hdone).
  - unfold J. do 4 (split; [done|]). intros; lia.
  - intros i s Hi (Hg & Hm & Ht & Hmono & Hdone).
    destruct (lookup_lt_is_Some_2 (gpio st) i) as [g Hgi]; [lia|].
    unfold irq_deinit_body. rewrite Hg, (at_index_Some _ _ _ Hgi), Ok_bind.
    destruct (Z.eqb_spec (Gpio.irq g) NULL) as [Hnull | Hnn]; cbn [negb].
    + exists s. split; [done|]. unfold J. do 4 (split; [done|]).
      intros j g' h' Hj Hgj Hirq Hh Hrc.
      destruct (decide (j = i)) as [-> | Hne]; [|apply (Hdone j g' h'); [lia|done..]].
      rewrite Hgi in Hgj. by injection Hgj as <-.
    + pose proof (Forall_lookup_1 _ _ _ _ Hlive Hgi) as [? | [h Hh]]; [done|].
      unfold deref. rewrite Hm, Hh, Ok_bind.
      destruct (Z.eqb_spec (rc i) 0) as [Hrc0 | Hrc1]; cbn [negb].
      * eexists. split; [done|]. unfold J.
        cbn [gpio mem trace drv with_drv gpioSetISRFunc isr].
        do 3 (split; [done|]). split.
        { intros p Hp. destruct (decide (pin h = p)) as [-> | Hne].
          - apply lookup_delete_eq.
          - rewrite lookup_delete_ne by done. by apply Hmono. }
        intros j g' h' Hj Hgj Hirq Hh' Hrc.
        destruct (decide (pin h = pin h')) as [-> | Hne];
          [apply lookup_delete_eq|].
        rewrite lookup_delete_ne by done.
        destruct (decide (j = i)) as [-> | Hji];
          [|apply (Hdone j g' h'); [lia|done..]].
        rewrite Hgi in Hgj. injection Hgj as <-. rewrite Hh in Hh'.
        injection Hh' as <-. done.
      * exists s. split; [done|]. unfold J. do 4 (split; [done|]).
        intros j g' h' Hj Hgj Hirq Hh' Hrc.
        destruct (decide (j = i)) as [-> | Hji];
          [lia|apply (Hdone j g' h'); [lia|done..]].
  - exists st'. unfold hal_gpio_irq_deinit, for_loop. split; [done|].
    do 4 (split; [done|]). intros i g h Hgi Hirq Hh Hrc.
    assert (Hnone : isr (drv st') !! pin h = None).
    { apply (Hdone i g h); [|done..]. apply lookup_lt_Some in Hgi. lia. }
    split; [done|]. intros level tick. unfold driver_edge_event.
    by rewrite Hnone.
Qed.
End PinTeardown.

Section RtcFacts.
Import Rtc.

(** X10. With time stamps whose nanosecond part is below one second,
    [hal_rtc_get_time_s] is the number of whole seconds elapsed since
    [hal_rtc_init], as a [uint32_t]; read at the instant of the initialisation
    it is 0. *)
Theorem rtc_time_s_is_whole_elapsed_seconds
    (now : LpTimer.timespec) (st : state) :
  normalized now →
  normalized (rtc_starttime st) →
  hal_rtc_get_time_s now st
  = ((nanoseconds now - nanoseconds (rtc_starttime st)) `div` 1000000000)
    `mod` 2 ^ 32
  ∧ (∀ rc_create tid rc_sigaction st0 st1,
       hal_rtc_init now rc_create tid rc_sigaction st0 = Ok st1 →
       hal_rtc_get_time_s now st1 = 0).
Proof.
  intros Hn Hs. unfold normalized in *. split.
  - unfold hal_rtc_get_time_s, nanoseconds, Main.to_uint32. f_equal.
    destruct now as [ns nn], (rtc_starttime st) as [ss sn]. cbn in *.
    destruct (Z.ltb_spec nn sn).
    + apply (Z.div_unique _ _ _ (nn - sn + 1000000000)); lia.
    + apply (Z.div_unique _ _ _ (nn - sn)); lia.
  - intros rc_create tid rc_sigaction st0 st1 Hinit.
    unfold hal_rtc_init in Hinit.
    destruct (rc_create =? -1); [done|]. destruct (rc_sigaction =? -1); [done|].
    injection Hinit as <-. unfold hal_rtc_get_time_s. cbn.
    rewrite Z.ltb_irrefl. replace (now.1 - now.1 - 0) with 0 by lia. done.
Qed.

(** X11. For a positive duration (an [int32_t]) [hal_rtc_wakeup_timer_set_ms]
    arms the wake-up countdown with a non-zero value of exactly that duration
    and leaves the start time alone; [hal_rtc_wakeup_timer_stop] then programs
    the zero value. *)
Theorem rtc_wakeup_timer_is_armed_for_the_duration
    (milliseconds rc : Z) (st : state) :
  0 < milliseconds < 2 ^ 31 →
  rc ≠ -1 →
  ∃ st' sec nsec,
    hal_rtc_wakeup_timer_set_ms milliseconds rc st = Ok st'
    ∧ it_value st' = (sec, nsec)
    ∧ 0 <= sec ∧ 0 <= nsec < 1000000000
    ∧ sec * 1000 + nsec `div` 1000000 = milliseconds
    ∧ (sec, nsec) ≠ LpTimer.ZERO
    ∧ rtc_starttime st' = rtc_starttime st
    ∧ ∃ st'', hal_rtc_wakeup_timer_stop rc st' = Ok st''
              ∧ it_value st'' = LpTimer.ZERO.
Proof.
  intros Hms Hrc. unfold hal_rtc_wakeup_timer_set_ms, hal_rtc_wakeup_timer_stop.
  destruct (Z.eqb_spec rc (-1)) as [? | _]; [done|].
  eexists _, _, _. split; [done|]. cbn. split; [done|].
  rewrite Z.quot_div_nonneg, Z.rem_mod_nonneg by lia.
  pose proof (Z.mod_pos_bound milliseconds 1000 ltac:(lia)) as Hm.
  pose proof (Z.div_mod milliseconds 1000 ltac:(lia)) as Hd.
  pose proof (Z.div_pos milliseconds 1000 ltac:(lia) ltac:(lia)) as Hq.
  split; [lia|]. split; [lia|]. split.
  { rewrite Z.div_mul by lia. lia. }
  split.
  { unfold LpTimer.ZERO. intros [= H1 H2]. lia. }
  split; [done|]. eexists. split; done.
Qed.
End RtcFacts.

Section McuFacts.
Import Mcu.

Lemma sleep_loop_eq wakes s :
  sleeping s = true →
  sleep_loop wakes s
  = (λ k : nat, mk_state false (rtc s) (waited_us s + 500 * Z.of_nat k))
    <$> waits_until_woken wakes.
Proof.
  revert s. induction wakes as [|w wakes IH]; intros s Hs.
  - cbn. by rewrite Hs.
  - cbn [sleep_loop waits_until_woken]. rewrite Hs. destruct w.
    + cbn [fmap option_fmap option_map sleep_loop hal_mcu_wakeup hal_mcu_wait_us
             sleeping rtc waited_us].
      destruct wakes; cbn [sleep_loop sleeping]; f_equal; f_equal; lia.
    + rewrite IH by done. cbn [rtc waited_us hal_mcu_wait_us].
      destruct (waits_until_woken wakes) as [k|];
        cbn [fmap option_fmap option_map]; [|done].
      f_equal. f_equal. lia.
Qed.

(** X12. [hal_mcu_set_sleep_for_ms]: a duration that is not positive returns
    at once and changes nothing. Otherwise the call returns after the first
    wait of 500 us during which [hal_mcu_wakeup] is called, with the flag
    clear and the countdown disarmed; a wake-up that came before the call is
    lost, since the flag is set on entry; with no wake-up the call does not
    return. *)
Theorem sleep_ends_at_the_first_wake_up
    (milliseconds rc_set rc_stop : Z) (wakes : list bool) (st : state) :
  rc_set ≠ -1 →
  rc_stop ≠ -1 →
  (milliseconds <= 0 →
   hal_mcu_set_sleep_for_ms milliseconds rc_set rc_stop wakes st = Some (Ok st))
  ∧ (0 < milliseconds →
     hal_mcu_set_sleep_for_ms milliseconds rc_set rc_stop wakes st
     = (λ k : nat,
          Ok (mk_state false
                (Rtc.mk_state (Rtc.rtc_starttime (rtc st)) (Rtc.rtc_tid (rtc st))
                              LpTimer.ZERO)
                (waited_us st + 500 * Z.of_nat k)))
       <$> waits_until_woken wakes)
  ∧ (0 < milliseconds →
     hal_mcu_set_sleep_for_ms milliseconds rc_set rc_stop wakes (hal_mcu_wakeup st)
     = hal_mcu_set_sleep_for_ms milliseconds rc_set rc_stop wakes
         (mk_state true (rtc st) (waited_us st)))
  ∧ (0 < milliseconds →
     hal_mcu_set_sleep_for_ms milliseconds rc_set rc_stop
                              (replicate (List.length wakes) false) st = None).
Proof.
  intros Hset Hstop.
  assert (Heq : ∀ wk s, 0 < milliseconds →
    hal_mcu_set_sleep_for_ms milliseconds rc_set rc_stop wk s
    = (λ k : nat,
         Ok (mk_state false
               (Rtc.mk_state (Rtc.rtc_starttime (rtc s)) (Rtc.rtc_tid (rtc s))
                             LpTimer.ZERO)
               (waited_us s + 500 * Z.of_nat k)))
      <$> waits_until_woken wk).
  { intros wk s Hms. unfold hal_mcu_set_sleep_for_ms.
    destruct (Z.leb_spec milliseconds 0) as [? | _]; [lia|].
    unfold Rtc.hal_rtc_wakeup_timer_set_ms.
    destruct (Z.eqb_spec rc_set (-1)) as [? | _]; [done|].
    unfold sleep_handler. rewrite sleep_loop_eq by done.
    cbn [rtc waited_us]. destruct (waits_until_woken wk) as [k|]; cbn; [|done].
    unfold Rtc.hal_rtc_wakeup_timer_stop.
    destruct (Z.eqb_spec rc_stop (-1)) as [? | _]; [done|]. done. }
  split; [|split; [|split]].
  - intros Hms. unfold hal_mcu_set_sleep_for_ms.
    by destruct (Z.leb_spec milliseconds 0) as [_ | ?]; [|lia].
  - intros Hms. by apply Heq.
  - intros Hms. by rewrite !Heq.
  - intros Hms. rewrite Heq by done.
    assert (Hn : ∀ n, waits_until_woken (replicate n false) = None).
    { induction n as [|n IH]; [done|]. cbn. by rewrite IH. }
    by rewrite Hn.
Qed.
End McuFacts.

Section NvmFacts.
Import Nvm.

Lemma file_write_prefix_length (content : list Byte.byte) (addr : nat) :
  List.length (take addr (content
                          ++ replicate (addr - List.length content) Byte.x00))
  = addr.
Proof. rewrite length_take, length_app, length_replicate. lia. Qed.

Lemma file_write_data content addr data :
  data ≠ [] →
  file_write content addr data
  = take addr (content ++ replicate (addr - List.length content) Byte.x00)
    ++ data ++ drop (addr + List.length data) content.
Proof. by destruct data. Qed.

Lemma file_read_written content addr data :
  file_read (file_write content addr data) addr (List.length data) = data.
Proof.
  destruct (decide (data = [])) as [-> | Hne]; [done|].
  rewrite file_write_data by done. unfold file_read.
  rewrite drop_app_length' by (by rewrite file_write_prefix_length).
  apply take_app_length.
Qed.

Lemma file_read_behind content addr data b m :
  (addr + List.length data ≤ b)%nat →
  file_read (file_write content addr data) b m = file_read content b m.
Proof.
  intros Hb. destruct (decide (data = [])) as [-> | Hne]; [done|].
  rewrite file_write_data by done. unfold file_read. f_equal.
  rewrite app_assoc, drop_app_ge
    by (rewrite length_app, file_write_prefix_length; lia).
  rewrite length_app, file_write_prefix_length, drop_drop. f_equal. lia.
Qed.

Lemma file_read_before content addr data b m :
  (b + m ≤ addr)%nat → (b + m ≤ List.length content)%nat →
  file_read (file_write content addr data) b m = file_read content b m.
Proof.
  intros Hb Hc. destruct (decide (data = [])) as [-> | Hne]; [done|].
  rewrite file_write_data by done. unfold file_read.
  rewrite !take_drop_commute. f_equal.
  rewrite take_app_le by (rewrite file_write_prefix_length; lia).
  rewrite take_take, Nat.min_l by lia.
  by rewrite take_app_le by lia.
Qed.

Lemma write_complete addr buffer size fs :
  0 <= size <= Z.of_nat (List.length buffer) →
  hal_nvm_write_buffer addr buffer size (complete size) fs
  = (Some (file_write (default [] fs) (Z.to_nat addr)
                      (take (Z.to_nat size) buffer)), Ok ()).
Proof.
  intros Hs. unfold hal_nvm_write_buffer, complete. cbn.
  destruct (Z.ltb_spec (Z.of_nat (List.length buffer)) size); [lia|].
  destruct (Z.ltb_spec size 0); [lia|]. by rewrite Z.min_id.
Qed.

Lemma read_complete addr buffer size fs :
  0 <= size <= Z.of_nat (List.length buffer) →
  hal_nvm_read_buffer addr buffer size (complete size) fs
  = (Some (default [] fs),
     Ok (file_read (default [] fs) (Z.to_nat addr) (Z.to_nat size)
         ++ drop (List.length
                    (file_read (default [] fs) (Z.to_nat addr) (Z.to_nat size)))
                 buffer)).
Proof.
  intros Hs. unfold hal_nvm_read_buffer, complete. cbn.
  destruct (Z.ltb_spec (Z.of_nat (List.length buffer)) size); [lia|].
  destruct (Z.ltb_spec size 0); [lia|].
  rewrite take_ge; [done|]. unfold file_read. rewrite length_take. lia.
Qed.

Lemma written_bytes_read_back
    (addr size : Z) (wbuf rbuf : list Byte.byte) (fs : storage) :
  0 <= size <= Z.of_nat (List.length wbuf) →
  size <= Z.of_nat (List.length rbuf) →
  ∃ content,
    hal_nvm_write_buffer addr wbuf size (complete size) fs
    = (Some content, Ok ())
    ∧ hal_nvm_read_buffer addr rbuf size (complete size) (Some content)
      = (Some content,
         Ok (take (Z.to_nat size) wbuf ++ drop (Z.to_nat size) rbuf)).
Proof.
  intros Hw Hr. rewrite write_complete by done. eexists. split; [done|].
  rewrite read_complete by lia. cbn [default].
  assert (Hlen : List.length (take (Z.to_nat size) wbuf) = Z.to_nat size)
    by (rewrite length_take; lia).
  pose proof (file_read_written (default [] fs) (Z.to_nat addr)
                (take (Z.to_nat size) wbuf)) as Hfr.
  rewrite Hlen in Hfr. unfold id in *. by rewrite Hfr, Hlen.
Qed.

(** X13. When every system call succeeds and transfers all bytes,
    [hal_nvm_write_buffer] followed by [hal_nvm_read_buffer] at the same
    address gives back the bytes written, whatever the file held. A short
    write is not reported: the call succeeds, and the file holds the bytes
    transferred followed by what it held before. *)
Theorem nvm_write_then_read_round_trip
    (addr size : Z) (wbuf rbuf : list Byte.byte) (fs : storage) :
  0 <= size <= Z.of_nat (List.length wbuf) →
  size <= Z.of_nat (List.length rbuf) →
  (∃ content,
     hal_nvm_write_buffer addr wbuf size (complete size) fs
     = (Some content, Ok ())
     ∧ hal_nvm_read_buffer addr rbuf size (complete size) (Some content)
       = (Some content,
          Ok (take (Z.to_nat size) wbuf ++ drop (Z.to_nat size) rbuf)))
  ∧ (∀ n, 0 <= n <= size →
          ∃ content,
            hal_nvm_write_buffer addr wbuf size (mk_syscalls 3 0 n 0) fs
            = (Some content, Ok ())
            ∧ file_read content (Z.to_nat addr) (Z.to_nat size)
              = take (Z.to_nat size)
                     (take (Z.to_nat n) wbuf
                      ++ drop (Z.to_nat addr + Z.to_nat n) (default [] fs))).
Proof.
  intros Hw Hr. split; [by apply written_bytes_read_back|].
  intros n Hn. unfold hal_nvm_write_buffer. cbn.
  destruct (Z.ltb_spec (Z.of_nat (List.length wbuf)) size); [lia|].
  destruct (Z.ltb_spec n 0); [lia|].
  eexists. split; [done|]. rewrite Z.min_l by lia.
  assert (Hlen : List.length (take (Z.to_nat n) wbuf) = Z.to_nat n)
    by (rewrite length_take; lia).
  destruct (decide (take (Z.to_nat n) wbuf = [])) as [E | Hne].
  - rewrite E in *. cbn in Hlen. rewrite <- Hlen, Nat.add_0_r. done.
  - rewrite file_write_data by done. unfold file_read. f_equal.
    rewrite drop_app_length'; [by rewrite Hlen|].
    rewrite length_take, length_app, length_replicate. lia.
Qed.

(** X14. When [read] transfers [n] bytes, no more than the file holds at the
    address within [size], [hal_nvm_read_buffer] overwrites the first [n]
    bytes of the buffer with the bytes of the file at the address and keeps
    the rest of the buffer; a short count is not reported. At or behind the
    end of the file, and for a file just created, no byte can be
    transferred: the buffer is unchanged and no error is reported. *)
Theorem nvm_read_delivers_what_the_file_holds
    (addr size n : Z) (buffer : list Byte.byte) (fs : storage) :
  0 <= size <= Z.of_nat (List.length buffer) →
  0 <= n <= Z.of_nat (List.length (file_read (default [] fs) (Z.to_nat addr)
                                             (Z.to_nat size))) →
  ∃ got buffer',
    hal_nvm_read_buffer addr buffer size (mk_syscalls 3 0 n 0) fs
    = (Some (default [] fs), Ok buffer')
    ∧ got = take (Z.to_nat n) (drop (Z.to_nat addr) (default [] fs))
    ∧ List.length got = Z.to_nat n
    ∧ buffer' = got ++ drop (Z.to_nat n) buffer
    ∧ List.length buffer' = List.length buffer
    ∧ n <= size
    ∧ (Z.to_nat n ≤ List.length (default [] fs) - Z.to_nat addr)%nat
    ∧ ((List.length (default [] fs) ≤ Z.to_nat addr)%nat →
       n = 0 ∧ buffer' = buffer)
    ∧ (fs = None → n = 0 ∧ buffer' = buffer).
Proof.
  intros Hs Hn. unfold file_read in Hn.
  rewrite length_take, length_drop in Hn.
  unfold hal_nvm_read_buffer. cbn.
  destruct (Z.ltb_spec (Z.of_nat (List.length buffer)) size); [lia|].
  destruct (Z.ltb_spec n 0); [lia|].
  set (content := default [] fs) in *.
  assert (Hgot : take (Z.to_nat n) (file_read content (Z.to_nat addr)
                                              (Z.to_nat size))
                 = take (Z.to_nat n) (drop (Z.to_nat addr) content)).
  { unfold file_read. rewrite take_take. f_equal. lia. }
  rewrite Hgot.
  assert (Hlen : List.length (take (Z.to_nat n) (drop (Z.to_nat addr) content))
                 = Z.to_nat n).
  { rewrite length_take, length_drop. lia. }
  rewrite Hlen.
  assert (Hpast : (List.length content ≤ Z.to_nat addr)%nat →
                  n = 0
                  ∧ take (Z.to_nat n) (drop (Z.to_nat addr) content)
                    ++ drop (Z.to_nat n) buffer = buffer).
  { intros Hp. assert (n = 0) as -> by lia. split; [done|].
    change (Z.to_nat 0) with 0%nat. by rewrite take_0, drop_0. }
  eexists _, _. split; [reflexivity|]. split; [reflexivity|].
  split; [exact Hlen|]. split; [reflexivity|].
  split; [rewrite length_app, Hlen, length_drop; lia|].
  split; [lia|]. split; [lia|]. split; [exact Hpast|].
  intros Hfs. apply Hpast. subst fs. cbn. lia.
Qed.
End NvmFacts.

Section ContextFacts.
Import ModemHal.

Lemma context_store_eq t off a buf size os fs :
  context_address t off = Some a →
  smtc_modem_hal_context_store t off buf size os fs
  = Nvm.hal_nvm_write_buffer a buf size os fs.
Proof. destruct t; cbn; intros [= <-]; done. Qed.

Lemma context_restore_eq t off a buf size os fs :
  context_address t off = Some a →
  smtc_modem_hal_context_restore t off buf size os fs
  = Nvm.hal_nvm_read_buffer a buf size os fs.
Proof. destruct t; cbn; intros [= <-]; done. Qed.

(** X15. For the context types that are kept (modem, key, LoRaWAN stack,
    secure element) a store followed by a restore gives back the bytes stored,
    and the offset is ignored except for the LoRaWAN stack. For the other
    types nothing is stored or read: the file is left alone, and the restore
    either leaves the buffer as it was or panics. *)
Theorem context_store_then_restore
    (t : modem_context_type_t) (offset size : Z)
    (wbuf rbuf : list Byte.byte) (fs : Nvm.storage) :
  0 <= size <= Z.of_nat (List.length wbuf) →
  size <= Z.of_nat (List.length rbuf) →
  match context_address t offset with
  | Some a =>
      ∃ content,
        smtc_modem_hal_context_store t offset wbuf size (Nvm.complete size) fs
        = (Some content, Ok ())
        ∧ smtc_modem_hal_context_restore t offset rbuf size (Nvm.complete size)
                                         (Some content)
          = (Some content,
             Ok (take (Z.to_nat size) wbuf ++ drop (Z.to_nat size) rbuf))
        ∧ (t ≠ CONTEXT_LORAWAN_STACK →
           ∀ offset',
             smtc_modem_hal_context_restore t offset' rbuf size
                                            (Nvm.complete size) (Some content)
             = smtc_modem_hal_context_restore t offset rbuf size
                                              (Nvm.complete size) (Some content))
  | None =>
      ∃ r r',
        smtc_modem_hal_context_store t offset wbuf size (Nvm.complete size) fs
        = (fs, r)
        ∧ smtc_modem_hal_context_restore t offset rbuf size (Nvm.complete size) fs
          = (fs, r')
        ∧ (r' = Ok rbuf ∨ r' = Panic)
  end.
Proof.
  intros Hw Hr. destruct (context_address t offset) as [a|] eqn:Ha.
  - rewrite (context_store_eq _ _ _ _ _ _ _ Ha).
    destruct (written_bytes_read_back a size wbuf rbuf fs Hw Hr)
      as (content & Hwr & Hrd).
    exists content. split; [done|].
    rewrite (context_restore_eq _ _ _ _ _ _ _ Ha). split; [done|].
    intros Hne offset'.
    destruct t; cbn in Ha; try discriminate Ha; injection Ha as <-;
      try reflexivity. by destruct Hne.
  - destruct t; try discriminate Ha; cbn;
      (eexists _, _; split; [done|]; split; [done|]);
      [by left | by left | by right].
Qed.

(** X16. Storing one context does not change what a restore of another context
    reads when the two byte ranges are apart: the stored range ends before the
    other begins, or begins after the other ends inside the file. *)
Theorem context_store_keeps_ranges_apart
    (tA tB : modem_context_type_t) (offA offB a b sizeA sizeB : Z)
    (bufA bufB : list Byte.byte) (content : list Byte.byte) :
  context_address tA offA = Some a →
  context_address tB offB = Some b →
  0 <= sizeA <= Z.of_nat (List.length bufA) →
  0 <= sizeB <= Z.of_nat (List.length bufB) →
  a + sizeA <= b ∨ (b + sizeB <= a ∧ b + sizeB <= Z.of_nat (List.length content)) →
  ∃ content',
    smtc_modem_hal_context_store tA offA bufA sizeA (Nvm.complete sizeA)
                                 (Some content)
    = (Some content', Ok ())
    ∧ (smtc_modem_hal_context_restore tB offB bufB sizeB (Nvm.complete sizeB)
                                      (Some content')).2
      = (smtc_modem_hal_context_restore tB offB bufB sizeB (Nvm.complete sizeB)
                                        (Some content)).2.
Proof.
  intros Ha Hb HsA HsB Hapart.
  assert (Ha0 : 0 <= a).
  { destruct tA; cbn in Ha; try discriminate Ha; injection Ha as <-;
      try done. unfold Main.to_uint32. apply Z.mod_pos_bound. lia. }
  assert (Hb0 : 0 <= b).
  { destruct tB; cbn in Hb; try discriminate Hb; injection Hb as <-;
      try done. unfold Main.to_uint32. apply Z.mod_pos_bound. lia. }
  rewrite (context_store_eq _ _ _ _ _ _ _ Ha), write_complete by done.
  eexists. split; [done|].
  rewrite !(context_restore_eq _ _ _ _ _ _ _ Hb), !read_complete by done.
  cbn [snd default from_option]. unfold id.
  assert (Hlen : List.length (take (Z.to_nat sizeA) bufA) = Z.to_nat sizeA)
    by (rewrite length_take; lia).
  destruct Hapart as [Hbehind | [Hbefore Hin]].
  - rewrite file_read_behind; [done|]. rewrite Hlen. lia.
  - by rewrite file_read_before by lia.
Qed.
End ContextFacts.

Section AppFacts.
Import App AppView.

Lemma append_String c (a b : string) :
  String.append (String c a) b = String c (String.append a b).
Proof. reflexivity. Qed.

Lemma unquote_escape_loop s :
  unquote_loop (String.append (escape_loop s) (String DQUOTE EmptyString))
  = Some s.
Proof.
  induction s as [|c s IH]; [done|].
  cbn [escape_loop]. destruct (Ascii.eqb c DQUOTE) eqn:E.
  - rewrite !append_String. cbn [unquote_loop].
    rewrite (Ascii.eqb_refl DQUOTE), E, IH.
    apply Ascii.eqb_eq in E. by subst c.
  - rewrite !append_String. cbn [unquote_loop]. rewrite E, IH. done.
Qed.

Lemma length_escape_loop s :
  String.length (escape_loop s) = (String.length s + count_quotes s)%nat.
Proof.
  induction s as [|c s IH]; [done|].
  cbn [escape_loop count_quotes String.length].
  destruct (Ascii.eqb c DQUOTE); cbn [String.length]; lia.
Qed.

Lemma length_string_append (a b : string) :
  String.length (String.append a b) = (String.length a + String.length b)%nat.
Proof.
  induction a as [|c a IH]; [done|].
  rewrite append_String. cbn [String.length]. by rewrite IH.
Qed.

(** X17. What [csv_write_escaped_field] writes reads back, by the quoting rule
    of RFC 4180, as the original text; its length is that of the text plus one
    for each double quote in it plus two; the null pointer is written as the
    empty field. *)
Theorem csv_escaped_field_reads_back (s : string) :
  csv_read_quoted_field (csv_write_escaped_field (Some s)) = Some s
  ∧ String.length (csv_write_escaped_field (Some s))
    = (String.length s + count_quotes s + 2)%nat
  ∧ csv_read_quoted_field (csv_write_escaped_field None) = Some EmptyString.
Proof.
  split; [|split].
  - unfold csv_write_escaped_field, csv_read_quoted_field.
    rewrite (Ascii.eqb_refl DQUOTE). apply unquote_escape_loop.
  - unfold csv_write_escaped_field. cbn [String.length].
    rewrite length_string_append, length_escape_loop. cbn. lia.
  - reflexivity.
Qed.

Lemma hex_decode_byte_hex b s :
  hex_decode (String.append (byte_hex b) s) = (b ::.) <$> hex_decode s.
Proof.
  unfold byte_hex. rewrite !append_String. cbn [hex_decode].
  change (String.append EmptyString s) with s.
  destruct (hex_decode s); destruct b; reflexivity.
Qed.

Lemma length_byte_hex b : String.length (byte_hex b) = 2%nat.
Proof. reflexivity. Qed.

Lemma hex_loop_Ok buf len :
  (len ≤ List.length buf)%nat →
  ∃ s, hex_loop buf len = Ok s
       ∧ String.length s = (2 * len)%nat
       ∧ hex_decode s = Some (take len buf).
Proof.
  revert buf. induction len as [|len IH]; intros buf Hlen.
  - exists EmptyString. split; [done|]. split; [done|]. by rewrite take_0.
  - destruct buf as [|b buf]; [cbn in Hlen; lia|].
    destruct (IH buf) as (s & Hs & Hl & Hd); [cbn in Hlen; lia|].
    exists (String.append (byte_hex b) s). cbn [hex_loop].
    rewrite Hs, Ok_bind. split; [done|].
    rewrite length_string_append, length_byte_hex, Hl, hex_decode_byte_hex, Hd.
    split; [lia|done].
Qed.

Lemma hex_loop_Undef buf len :
  (List.length buf < len)%nat → hex_loop buf len = Undef.
Proof.
  revert buf. induction len as [|len IH]; intros buf Hlen; [lia|].
  destruct buf as [|b buf]; [done|]. cbn [hex_loop].
  rewrite IH by (cbn in Hlen; lia). done.
Qed.

(** X18. [hex_to_str] on [len] bytes gives twice [len] characters that decode
    back to the bytes; a failed allocation gives the null pointer; more bytes
    than the buffer holds is out of range. *)
Theorem hex_to_str_reads_back (buf : list Byte.byte) (len : nat) :
  (len ≤ List.length buf)%nat →
  (∃ s, hex_to_str buf len true = Ok (Some s)
        ∧ String.length s = (2 * len)%nat
        ∧ hex_decode s = Some (take len buf))
  ∧ hex_to_str buf len false = Ok None
  ∧ (∀ longer, (List.length buf < longer)%nat →
               hex_to_str buf longer true = Undef).
Proof.
  intros Hlen. split; [|split].
  - unfold hex_to_str. destruct (Nat.eqb_spec len 0) as [-> | Hne].
    + exists EmptyString. split; [done|]. split; [done|]. by rewrite take_0.
    + destruct (hex_loop_Ok buf len Hlen) as (s & Hs & Hl & Hd).
      exists s. cbn [negb]. by rewrite Hs.
  - unfold hex_to_str. by destruct (len =? 0)%nat.
  - intros longer Hl. unfold hex_to_str.
    destruct (Nat.eqb_spec longer 0) as [-> | Hne]; [lia|].
    cbn [negb]. by rewrite hex_loop_Undef.
Qed.

Lemma length_string_of_list_ascii l :
  String.length (string_of_list_ascii l) = List.length l.
Proof. induction l as [|c l IH]; cbn; [done|]. by rewrite IH. Qed.

Lemma length_list_ascii_of_string s :
  List.length (list_ascii_of_string s) = String.length s.
Proof. induction s as [|c s IH]; cbn; [done|]. by rewrite IH. Qed.

(** X19. [deveui_to_str] leaves in [dst] the first min ([dstlen] - 1, 16) of
    the 16 hexadecimal digits of the identifier, all of them when [dstlen] is
    above 16, and does not write [dst] when [dstlen] is 0. *)
Theorem deveui_to_str_fits (dstlen : nat) (deveui : list Byte.byte) :
  (8 ≤ List.length deveui)%nat →
  ∃ digits,
    hex_to_str deveui 8 true = Ok (Some digits)
    ∧ String.length digits = 16%nat
    ∧ deveui_to_str 0 deveui = Ok None
    ∧ ((0 < dstlen)%nat →
       ∃ s, deveui_to_str dstlen deveui = Ok (Some s)
            ∧ s = prefix (dstlen - 1) digits
            ∧ String.length s = Nat.min (dstlen - 1) 16
            ∧ ((16 < dstlen)%nat → s = digits)).
Proof.
  intros Hlen. destruct (hex_loop_Ok deveui 8 Hlen) as (digits & Hd & Hl & _).
  exists digits. unfold hex_to_str, deveui_to_str. cbn [Nat.eqb negb].
  rewrite Hd, !Ok_bind. split; [done|]. split; [done|]. split; [done|].
  intros Hpos. destruct (Nat.ltb_spec 0 dstlen) as [_ | ?]; [|lia].
  eexists. split; [done|]. split; [done|]. unfold prefix. split.
  - rewrite length_string_of_list_ascii, length_take,
      length_list_ascii_of_string, Hl. done.
  - intros Hbig. rewrite take_ge
      by (rewrite length_list_ascii_of_string; lia).
    apply string_of_list_ascii_of_string.
Qed.

Lemma to_uint8_range z : 0 <= Main.to_uint8 z < 256.
Proof. unfold Main.to_uint8. apply Z.mod_pos_bound. lia. Qed.

Lemma fill_random_Ok buffer i count rands :
  (i + count ≤ List.length buffer)%nat →
  (count ≤ List.length rands)%nat →
  ∃ buffer',
    fill_random buffer i count rands = Ok buffer'
    ∧ List.length buffer' = List.length buffer
    ∧ (∀ j, (j < i ∨ i + count ≤ j)%nat → buffer' !! j = buffer !! j)
    ∧ (∀ j, (i ≤ j < i + count)%nat →
            ∃ b, buffer' !! j = Some b ∧ 0 <= b < 256).
Proof.
  revert buffer i rands. induction count as [|count IH];
    intros buffer i rands Hb Hr.
  - exists buffer. cbn. split; [done|]. split; [done|]. split; [done|].
    intros j Hj. lia.
  - destruct rands as [|r rands]; [cbn in Hr; lia|]. cbn [fill_random].
    destruct (Nat.ltb_spec i (List.length buffer)) as [Hi | ?]; [|lia].
    destruct (IH (<[i := Main.to_uint8 (r `rem` 256)]> buffer) (S i) rands)
      as (b' & Hf & Hl & Hout & Hin).
    { rewrite length_insert. lia. }
    { cbn in Hr. lia. }
    exists b'. split; [done|]. rewrite length_insert in Hl. split; [done|].
    split.
    + intros j Hj. rewrite Hout by lia. apply list_lookup_insert_ne. lia.
    + intros j Hj. destruct (decide (j = i)) as [-> | Hne].
      * rewrite Hout by lia. rewrite list_lookup_insert_eq by done.
        eexists. split; [done|]. apply to_uint8_range.
      * apply Hin. lia.
Qed.

Lemma parsed_packet_size_range argv :
  1 <= Main.g_packet_size (Main.parse_args argv) <= 222.
Proof.
  unfold Main.parse_args.
  destruct (parse_mode_keeps argv
              (Main.parse_size argv (Main.parse_period argv Main.defaults)))
    as [_ ->].
  unfold Main.parse_size, Main.parse_period.
  rewrite !clamp_low, !clamp_high.
  pose proof (atoi_range (Main.arg argv 2)) as H2.
  assert (Hs : Main.to_uint8 (Z.min 222 (Z.max 1 (Main.atoi (Main.arg argv 2))))
               = Z.min 222 (Z.max 1 (Main.atoi (Main.arg argv 2)))).
  { unfold Main.to_uint8. apply Z.mod_small. lia. }
  destruct (2 <=? _), (3 <=? _); cbn; rewrite ?Hs; lia.
Qed.

(** X20. [compute_payload_size] returns a size between min (1,
    [g_packet_size]) and [g_packet_size], exactly [g_packet_size] in fixed
    mode, and between 1 and 222 for the globals that argument parsing sets;
    [generate_random_payload] with this size writes bytes to that many leading
    positions of the buffer and leaves the rest alone. *)
Theorem payload_size_within_bounds (g : Main.globals) (r : Z) :
  0 <= Main.g_packet_size g <= 255 →
  0 <= r →
  Z.min 1 (Main.g_packet_size g) <= compute_payload_size g r
                                 <= Main.g_packet_size g
  ∧ (Main.g_packet_size_fixed g = true →
     compute_payload_size g r = Main.g_packet_size g)
  ∧ (∀ argv r',
       0 <= r' →
       1 <= compute_payload_size (Main.parse_args argv) r' <= 222)
  ∧ (∀ buffer rands,
       Main.g_packet_size g <= Z.of_nat (List.length buffer) →
       Main.g_packet_size g <= Z.of_nat (List.length rands) →
       ∃ payload,
         generate_random_payload buffer (compute_payload_size g r) rands
         = Ok payload
         ∧ List.length payload = List.length buffer
         ∧ drop (Z.to_nat (compute_payload_size g r)) payload
           = drop (Z.to_nat (compute_payload_size g r)) buffer
         ∧ Forall (λ b, 0 <= b < 256)
                  (take (Z.to_nat (compute_payload_size g r)) payload)).
Proof.
  intros Hg Hr.
  assert (Hrange : ∀ g' r0, 0 <= Main.g_packet_size g' <= 255 → 0 <= r0 →
            Z.min 1 (Main.g_packet_size g') <= compute_payload_size g' r0
                                            <= Main.g_packet_size g').
  { intros g' r0 Hg' Hr0. unfold compute_payload_size, PACKET_SIZE_MIN_VARIABLE.
    destruct (Main.g_packet_size_fixed g').
    - unfold Main.to_uint8. rewrite Z.mod_small by lia. lia.
    - set (m := Main.g_packet_size g') in *.
      destruct (Z.ltb_spec m 1) as [Hlt | Hge].
      + replace (m - m + 1) with 1 by lia. rewrite Z.rem_1_r.
        unfold Main.to_uint8. rewrite Z.mod_small by lia. lia.
      + rewrite Z.rem_mod_nonneg by lia.
        pose proof (Z.mod_pos_bound r0 (m - 1 + 1) ltac:(lia)) as Hm.
        unfold Main.to_uint8. rewrite Z.mod_small by lia. lia. }
  split; [by apply Hrange|]. split; [|split].
  - intros Hf. unfold compute_payload_size. rewrite Hf.
    unfold Main.to_uint8. apply Z.mod_small. lia.
  - intros argv r' Hr'.
    pose proof (parsed_packet_size_range argv) as Hs.
    pose proof (Hrange (Main.parse_args argv) r' ltac:(lia) Hr'). lia.
  - intros buffer rands Hb Hrs. pose proof (Hrange g r Hg Hr) as Hc.
    unfold generate_random_payload.
    destruct (fill_random_Ok buffer 0 (Z.to_nat (compute_payload_size g r)) rands)
      as (payload & Hf & Hl & Hout & Hin); [lia|lia|].
    exists payload. split; [done|]. split; [done|]. split.
    + apply list_eq. intros j. rewrite !lookup_drop. apply Hout. lia.
    + apply Forall_lookup. intros j b Hj.
      apply lookup_take_Some in Hj as [Hj Hlt].
      destruct (Hin j ltac:(lia)) as (b' & Hb' & Hrg). congruence.
Qed.
End AppFacts.

Section Bracket.
Import ModemHal.

Variable P_NUM : nat.
Variables ID_1 ID_2 : nat.
Variable SX : bool.

Lemma expiry_on_masked_timer id s :
  (LpTimer.blocked <$> LpTimer.lptim s !! id) = Some true →
  ∃ s', LpTimer.pl_timer_handler id s = Ok s'
        ∧ LpTimer.trace s' = LpTimer.trace s
        ∧ ∀ j, (LpTimer.blocked <$> LpTimer.lptim s' !! j)
               = (LpTimer.blocked <$> LpTimer.lptim s !! j).
Proof.
  intros Hb. destruct (LpTimer.lptim s !! id) as [t|] eqn:Ht; [|done].
  injection Hb as Hb. rewrite (handler_eq _ _ _ Ht), Hb.
  eexists. split; [done|]. split; [done|]. intros j. cbn.
  destruct (decide (j = id)) as [-> | Hne].
  - rewrite list_lookup_insert_eq by (apply lookup_lt_is_Some; eauto).
    by rewrite Ht.
  - by rewrite list_lookup_insert_ne.
Qed.

Lemma deliver_in_bracket tp tt n s :
  bracketed P_NUM ID_1 ID_2 SX n = true →
  in_bracket P_NUM ID_1 ID_2 SX tp tt s →
  ∃ s', deliver n s = Ok s' ∧ in_bracket P_NUM ID_1 ID_2 SX tp tt s'.
Proof.
  intros Hn (Hlen & Hall & H1 & H2 & Htp & Htt).
  destruct n as [id | pin lvl tick]; cbn [deliver bracketed] in *.
  - assert (Hb : (LpTimer.blocked <$> LpTimer.lptim (timers s) !! id) = Some true).
    { apply orb_true_iff in Hn as [Hn | Hn].
      - apply bool_decide_eq_true in Hn. by subst.
      - apply andb_true_iff in Hn as [Hsx Hn].
        apply bool_decide_eq_true in Hn. subst. by apply H2. }
    destruct (expiry_on_masked_timer _ _ Hb) as (t' & Ht' & Htr & Hblk).
    rewrite Ht', Ok_bind. eexists. split; [done|]. unfold in_bracket. cbn.
    rewrite !Hblk. split; [done|]. split; [done|]. split; [done|].
    split; [done|]. split; [done|]. congruence.
  - apply bool_decide_eq_true in Hn.
    destruct (delivery_on_masked_pins P_NUM (Gpio.Callback pin lvl tick) (pins s))
      as (p' & Hp' & Hl' & Hb' & Ht'); [by apply bool_decide_eq_true|done|done|].
    cbn [Gpio.step] in Hp'. rewrite Hp', Ok_bind. eexists. split; [done|].
    unfold in_bracket. cbn. split; [done|]. split; [done|]. split; [done|].
    split; [done|]. split; [congruence|done].
Qed.

Lemma deliver_all_in_bracket tp tt ns s :
  forallb (bracketed P_NUM ID_1 ID_2 SX) ns = true →
  in_bracket P_NUM ID_1 ID_2 SX tp tt s →
  ∃ s', deliver_all ns s = Ok s' ∧ in_bracket P_NUM ID_1 ID_2 SX tp tt s'.
Proof.
  revert s. induction ns as [|n ns IH]; intros s Hns Hin; [by exists s|].
  cbn [forallb] in Hns. apply andb_true_iff in Hns as [Hn Hns].
  destruct (deliver_in_bracket _ _ _ _ Hn Hin) as (s1 & Hs1 & Hin1).
  destruct (IH _ Hns Hin1) as (s2 & Hs2 & Hin2).
  exists s2. cbn [deliver_all]. by rewrite Hs1, Ok_bind.
Qed.

Lemma timer_disable_eq id s t :
  LpTimer.lptim s !! id = Some t →
  LpTimer.hal_lp_timer_irq_disable id s
  = Ok (LpTimer.store id (LpTimer.set_blocked true t) s).
Proof.
  intros Ht. unfold LpTimer.hal_lp_timer_irq_disable.
  by rewrite (at_index_Some _ _ _ Ht).
Qed.

(** X21. After [smtc_modem_hal_disable_modem_irq] no handler runs for any
    notification of a covered source (every pin of the facility, timer 1, and
    timer 2 in a build with [SX127X]), and after these notifications the
    covered sources are still masked: every pin, timer 1, and timer 2 in a
    build with [SX127X]. In a build without [SX127X] the call leaves timer 2
    with the mask it had. *)
Theorem modem_irq_bracket_defers_covered_sources
    (st : state) (ns : list notification) (t1 t2 : LpTimer.lp_timer_t) :
  List.length (Gpio.gpio (pins st)) = P_NUM →
  LpTimer.lptim (timers st) !! ID_1 = Some t1 →
  LpTimer.lptim (timers st) !! ID_2 = Some t2 →
  forallb (bracketed P_NUM ID_1 ID_2 SX) ns = true →
  ∃ st1 st2,
    smtc_modem_hal_disable_modem_irq P_NUM ID_1 ID_2 SX st = Ok st1
    ∧ deliver_all ns st1 = Ok st2
    ∧ Gpio.trace (pins st2) = Gpio.trace (pins st)
    ∧ LpTimer.trace (timers st2) = LpTimer.trace (timers st)
    ∧ Forall (λ g, Gpio.blocked g = true) (Gpio.gpio (pins st2))
    ∧ (LpTimer.blocked <$> LpTimer.lptim (timers st2) !! ID_1) = Some true
    ∧ (SX = true →
       (LpTimer.blocked <$> LpTimer.lptim (timers st2) !! ID_2) = Some true)
    ∧ (ID_2 ≠ ID_1 →
       (LpTimer.blocked <$> LpTimer.lptim (timers st1) !! ID_2)
       = Some (SX || LpTimer.blocked t2)).
Proof.
  intros Hlen Ht1 Ht2 Hns.
  assert (Hin1 : (ID_1 < List.length (LpTimer.lptim (timers st)))%nat)
    by (apply lookup_lt_is_Some; eauto).
  assert (Hin2 : (ID_2 < List.length (LpTimer.lptim (timers st)))%nat)
    by (apply lookup_lt_is_Some; eauto).
  unfold smtc_modem_hal_disable_modem_irq.
  rewrite (hal_gpio_irq_disable_eq _ _ Hlen), Ok_bind.
  rewrite (timer_disable_eq _ _ _ Ht1), Ok_bind.
  set (ts1 := LpTimer.store ID_1 (LpTimer.set_blocked true t1) (timers st)).
  assert (Hts1 : ∃ t2', LpTimer.lptim ts1 !! ID_2 = Some t2'
                        ∧ (ID_2 ≠ ID_1 → t2' = t2)).
  { destruct (decide (ID_2 = ID_1)) as [E | E].
    - exists (LpTimer.set_blocked true t1). split; [|done]. rewrite E.
      unfold ts1. cbn. by apply list_lookup_insert_eq.
    - exists t2. split; [|done]. unfold ts1. cbn.
      by rewrite list_lookup_insert_ne. }
  destruct Hts1 as (t2' & Ht2' & Hsame).
  assert (Hstep : ∃ ts2,
    (if SX then LpTimer.hal_lp_timer_irq_disable ID_2 ts1 else Ok ts1) = Ok ts2
    ∧ LpTimer.trace ts2 = LpTimer.trace (timers st)
    ∧ (LpTimer.blocked <$> LpTimer.lptim ts2 !! ID_1) = Some true
    ∧ (SX = true → (LpTimer.blocked <$> LpTimer.lptim ts2 !! ID_2) = Some true)
    ∧ (ID_2 ≠ ID_1 →
       (LpTimer.blocked <$> LpTimer.lptim ts2 !! ID_2)
       = Some (SX || LpTimer.blocked t2))).
  { destruct SX.
    - rewrite (timer_disable_eq _ _ _ Ht2'). eexists. split; [done|].
      cbn. split; [done|].
      rewrite (list_lookup_insert_eq _ ID_2) by (by rewrite length_insert).
      split.
      + destruct (decide (ID_1 = ID_2)) as [E | Hne].
        * rewrite <- E.
          by rewrite list_lookup_insert_eq by (by rewrite length_insert).
        * rewrite list_lookup_insert_ne by done.
          by rewrite list_lookup_insert_eq.
      + split; [done|]. intros Hne. by rewrite (Hsame Hne).
    - exists ts1. split; [done|]. unfold ts1. cbn. split; [done|].
      rewrite list_lookup_insert_eq by done. split; [done|]. split; [done|].
      intros Hne. rewrite list_lookup_insert_ne by done. by rewrite Ht2. }
  destruct Hstep as (ts2 & -> & Htr2 & Hb1 & Hb2 & Hother).
  rewrite Ok_bind.
  destruct (deliver_all_in_bracket (Gpio.trace (pins st))
              (LpTimer.trace (timers st)) ns
              (mk_state
                 (Gpio.mk_state (Gpio.set_blocked true <$> Gpio.gpio (pins st))
                                (Gpio.mem (pins st)) (Gpio.drv (pins st))
                                (Gpio.trace (pins st)))
                 ts2) Hns)
    as (st2 & Hrun & _ & Hall2 & H12 & H22 & Htp & Htt).
  { unfold in_bracket. cbn. rewrite length_fmap. split; [done|].
    split; [apply Forall_fmap, Forall_true; done|]. done. }
  eexists _, st2. split; [done|]. split; [done|]. do 5 (split; [done|]).
  cbn. done.
Qed.

End Bracket.

Section MoreWitnesses.
Import GpioView LpTimerView LpTimerOps GpioOps AppView Scenario.

Lemma timer_steps_leave_other_slots_alone_witness :
  let ops := [LpTimer.Start 0 100 handler_a 0; LpTimer.Expire 0] in
  let s := LpTimer.init_state in
  let s' := timers_after ops in
  (Forall (λ o, op_slot o ≠ 1%nat) ops ∧ LpTimer.run ops s = Ok s')
  ∧ LpTimer.lptim s' !! 1%nat = Some LpTimer.zero_timer
  ∧ from_slot 1 (LpTimer.trace s') = [].
Proof.
  intros ops s s'.
  assert (H1 : Forall (λ o, op_slot o ≠ 1%nat) ops)
    by (repeat constructor; discriminate).
  assert (H2 : LpTimer.run ops s = Ok s') by reflexivity.
  split; [exact (conj H1 H2)|].
  destruct (timer_steps_leave_other_slots_alone ops 1 s s' H1 H2)
    as (Hl & _ & Hq).
  split; [exact Hl | exact Hq].
Defined.

Lemma masked_timer_slot_never_dispatches_witness :
  let ops := [LpTimer.Expire 0; LpTimer.Stop 0 0; LpTimer.Expire 0] in
  let s := timers_after started_masked in
  let s' := timers_after (started_masked ++ ops) in
  let t := LpTimer.mk_timer 0 0 handler_a true false in
  (LpTimer.lptim s !! 0%nat = Some t
   ∧ LpTimer.blocked t = true
   ∧ existsb (unmasks 0) ops = false
   ∧ LpTimer.run ops s = Ok s')
  ∧ (LpTimer.blocked <$> LpTimer.lptim s' !! 0%nat) = Some true
  ∧ from_slot 0 (added (LpTimer.trace s) (LpTimer.trace s')) = [].
Proof.
  intros ops s s' t.
  assert (H1 : LpTimer.lptim s !! 0%nat = Some t) by reflexivity.
  assert (H2 : LpTimer.blocked t = true) by reflexivity.
  assert (H3 : existsb (unmasks 0) ops = false) by reflexivity.
  assert (H4 : LpTimer.run ops s = Ok s') by reflexivity.
  split; [exact (conj H1 (conj H2 (conj H3 H4)))|].
  exact (masked_timer_slot_never_dispatches ops 0 t s s' H1 H2 H3 H4).
Defined.

Lemma timer_unmask_is_idempotent_witness :
  let s := timers_after (started_masked ++ [LpTimer.Expire 0]) in
  let s1 := timers_after (started_masked
                          ++ [LpTimer.Expire 0; LpTimer.IrqEnable 0]) in
  LpTimer.hal_lp_timer_irq_enable 0 s = Ok s1
  ∧ LpTimer.trace s1 = [Dispatch 0 7 42]
  ∧ LpTimer.hal_lp_timer_irq_enable 0 s1 = Ok s1.
Proof.
  intros s s1.
  assert (H1 : LpTimer.hal_lp_timer_irq_enable 0 s = Ok s1) by reflexivity.
  split; [exact H1|]. split; [reflexivity|].
  exact (timer_unmask_is_idempotent 0 s s1 H1).
Defined.

Lemma timer_start_programs_the_duration_witness :
  let s := LpTimer.init_state in
  (LpTimer.lptim s !! 0%nat = Some LpTimer.zero_timer
   ∧ LpTimer.it_value s !! 0%nat = Some LpTimer.ZERO
   ∧ 0 <= 1500 < 2 ^ 32
   ∧ 0 ≠ -1)
  ∧ ∃ s' sec nsec,
      LpTimer.hal_lp_timer_start 0 1500 handler_a 0 s = Ok s'
      ∧ LpTimer.it_value s' !! 0%nat = Some (sec, nsec)
      ∧ sec * 1000 + nsec `div` 1000000 = 1500
      ∧ (LpTimer.tmr_irq <$> LpTimer.lptim s' !! 0%nat) = Some handler_a.
Proof.
  intros s.
  assert (H1 : LpTimer.lptim s !! 0%nat = Some LpTimer.zero_timer)
    by reflexivity.
  assert (H2 : LpTimer.it_value s !! 0%nat = Some LpTimer.ZERO) by reflexivity.
  assert (H3 : 0 <= 1500 < 2 ^ 32) by lia.
  assert (H4 : 0 ≠ -1) by discriminate.
  split; [exact (conj H1 (conj H2 (conj H3 H4)))|].
  destruct (timer_start_programs_the_duration
              0 1500 handler_a 0 s LpTimer.zero_timer LpTimer.ZERO H1 H2 H3 H4)
    as (s' & sec & nsec & Hst & Hv & Hn & Hsum & Hmod & _ & Hirq & _).
  exists s', sec, nsec. split; [exact Hst|]. split; [exact Hv|].
  split; [exact Hsum | exact Hirq].
Defined.

Lemma attach_registers_the_configured_edge_witness :
  let st := pins_after
              [Gpio.InitIn 3 Gpio.BSP_GPIO_PULL_MODE_DOWN
                           Gpio.BSP_GPIO_IRQ_MODE_RISING irq_ptr 0 0 0 0;
               Gpio.Detach irq_ptr 0] in
  let h := Gpio.mk_irq 3 42 7 in
  let g := Gpio.mk_gpio NULL Gpio.BSP_GPIO_IRQ_MODE_RISING false false in
  (irq_ptr ≠ NULL
   ∧ Gpio.mem st !! irq_ptr = Some h
   ∧ Gpio.callback h ≠ NULL
   ∧ Gpio.gpio st !! Gpio.slot_index (Gpio.pin h) = Some g
   ∧ Gpio.irq_mode g ≠ Gpio.BSP_GPIO_IRQ_MODE_OFF)
  ∧ Gpio.hal_gpio_irq_attach irq_ptr 1 st = Panic
  ∧ ∃ st',
      Gpio.hal_gpio_irq_attach irq_ptr 0 st = Ok st'
      ∧ Gpio.isr (Gpio.drv st') !! 3 = Some Gpio.RISING_EDGE
      ∧ Gpio.trace st' = []
      ∧ Gpio.driver_edge_event 3 1 0 st' = Ok (Gpio.invoke 1 h st')
      ∧ Gpio.driver_edge_event 3 0 0 st' = Ok st'.
Proof.
  intros st h g.
  assert (H1 : irq_ptr ≠ NULL) by discriminate.
  assert (H2 : Gpio.mem st !! irq_ptr = Some h) by reflexivity.
  assert (H3 : Gpio.callback h ≠ NULL) by discriminate.
  assert (H4 : Gpio.gpio st !! Gpio.slot_index (Gpio.pin h) = Some g)
    by reflexivity.
  assert (H5 : Gpio.irq_mode g ≠ Gpio.BSP_GPIO_IRQ_MODE_OFF) by discriminate.
  split; [exact (conj H1 (conj H2 (conj H3 (conj H4 H5))))|].
  destruct (attach_registers_the_configured_edge st irq_ptr h g H1 H2 H3 H4 H5)
    as (Hp & st' & Hat & _ & Hisr & _ & Htr & Hev).
  split; [apply Hp; discriminate|].
  exists st'. split; [exact Hat|]. split.
  { rewrite Hisr. apply lookup_insert_eq. }
  split; [exact Htr|].
  split; [exact (Hev eq_refl eq_refl 1 0) | exact (Hev eq_refl eq_refl 0 0)].
Defined.


Lemma masked_pins_never_dispatch_witness :
  let st := pins_after
              [Gpio.InitIn 3 Gpio.BSP_GPIO_PULL_MODE_DOWN
                           Gpio.BSP_GPIO_IRQ_MODE_RISING irq_ptr 0 0 0 0] in
  let ops := [Gpio.Edge 3 1 0; Gpio.Callback 3 1 5; Gpio.Edge 2 1 9] in
  (List.length (Gpio.gpio st) = pins ∧ forallb (delivery pins) ops = true)
  ∧ ∃ st1 st2,
      Gpio.hal_gpio_irq_disable pins st = Ok st1
      ∧ Gpio.run pins ops st1 = Ok st2
      ∧ Gpio.trace st2 = [].
Proof.
  intros st ops.
  assert (H1 : List.length (Gpio.gpio st) = pins) by reflexivity.
  assert (H2 : forallb (delivery pins) ops = true) by reflexivity.
  split; [exact (conj H1 H2)|].
  destruct (masked_pins_never_dispatch pins st ops H1 H2)
    as (st1 & st2 & Hd & _ & Hr & Htr & _).
  exists st1, st2. split; [exact Hd|]. split; [exact Hr | exact Htr].
Defined.

Lemma unmask_replays_in_slot_order_witness :
  let st := pins_after (rising_masked ++ [Gpio.Callback 3 1 0]) in
  well_formed pins st
  ∧ ∃ st' l,
      Gpio.hal_gpio_irq_enable pins st = Ok st'
      ∧ Gpio.trace st' = Gpio.trace st ++ l
      ∧ StronglySorted lt (event_slot <$> l)
      ∧ Gpio.hal_gpio_irq_enable pins st' = Ok st'.
Proof.
  intros st.
  assert (H1 : well_formed pins st)
    by (apply (bool_decide_unpack _); vm_compute; exact I).
  split; [exact H1|].
  destruct (unmask_replays_in_slot_order pins st H1)
    as (st' & l & He & Htr & Hs & _ & Hi).
  exists st', l. split; [exact He|]. split; [exact Htr|].
  split; [exact Hs | exact Hi].
Defined.

Lemma irq_deinit_swallows_failures_witness :
  let st := pins_after
              [Gpio.InitIn 3 Gpio.BSP_GPIO_PULL_MODE_DOWN
                           Gpio.BSP_GPIO_IRQ_MODE_RISING irq_ptr 0 0 0 0] in
  well_formed pins st
  ∧ (∃ st', GpioTeardown.hal_gpio_irq_deinit pins (λ _, -1) st = Ok st'
            ∧ Gpio.gpio st' = Gpio.gpio st)
  ∧ (∃ st', GpioTeardown.hal_gpio_irq_deinit pins (λ _, 0) st = Ok st'
            ∧ Gpio.isr (Gpio.drv st') !! 3 = None).
Proof.
  intros st.
  assert (H1 : well_formed pins st)
    by (apply (bool_decide_unpack _); vm_compute; exact I).
  split; [exact H1|]. split.
  - destruct (irq_deinit_swallows_failures pins (λ _, -1) st H1)
      as (st' & Hd & Hg & _).
    exists st'. split; [exact Hd | exact Hg].
  - destruct (irq_deinit_swallows_failures pins (λ _, 0) st H1)
      as (st' & Hd & _ & _ & _ & _ & Hoff).
    exists st'. split; [exact Hd|].
    exact (proj1 (Hoff 1%nat
                    (Gpio.mk_gpio irq_ptr Gpio.BSP_GPIO_IRQ_MODE_RISING
                                  false false)
                    (Gpio.mk_irq 3 42 7) eq_refl ltac:(discriminate)
                    eq_refl eq_refl)).
Defined.

Lemma rtc_time_s_is_whole_elapsed_seconds_witness :
  let st := Rtc.mk_state (10, 900000000) 0 LpTimer.ZERO in
  (Rtc.normalized (12, 100000000) ∧ Rtc.normalized (Rtc.rtc_starttime st))
  ∧ Rtc.hal_rtc_get_time_s (12, 100000000) st = 1.
Proof.
  intros st.
  assert (H1 : Rtc.normalized (12, 100000000)) by (unfold Rtc.normalized; simpl; lia).
  assert (H2 : Rtc.normalized (Rtc.rtc_starttime st))
    by (unfold Rtc.normalized; simpl; lia).
  split; [exact (conj H1 H2)|].
  rewrite (proj1 (rtc_time_s_is_whole_elapsed_seconds (12, 100000000) st H1 H2)).
  reflexivity.
Defined.

Lemma rtc_wakeup_timer_is_armed_for_the_duration_witness :
  (0 < 2500 < 2 ^ 31 ∧ 0 ≠ -1)
  ∧ ∃ st' st'',
      Rtc.hal_rtc_wakeup_timer_set_ms 2500 0 Rtc.init_state = Ok st'
      ∧ Rtc.it_value st' ≠ LpTimer.ZERO
      ∧ Rtc.hal_rtc_wakeup_timer_stop 0 st' = Ok st''
      ∧ Rtc.it_value st'' = LpTimer.ZERO.
Proof.
  assert (H1 : 0 < 2500 < 2 ^ 31) by lia.
  assert (H2 : 0 ≠ -1) by discriminate.
  split; [exact (conj H1 H2)|].
  destruct (rtc_wakeup_timer_is_armed_for_the_duration 2500 0 Rtc.init_state H1 H2)
    as (st' & sec & nsec & Hs & Hv & _ & _ & _ & Hnz & _ & st'' & Hst & Hz).
  exists st', st''. split; [exact Hs|]. split; [by rewrite Hv|].
  split; [exact Hst | exact Hz].
Defined.

Lemma sleep_ends_at_the_first_wake_up_witness :
  (0 ≠ -1 ∧ 0 ≠ -1)
  ∧ Mcu.hal_mcu_set_sleep_for_ms 20000 0 0 [false; false; true; false]
                                 Mcu.init_state
    = Some (Ok (Mcu.mk_state false Rtc.init_state 1500))
  ∧ Mcu.hal_mcu_set_sleep_for_ms 20000 0 0 [false; false] Mcu.init_state
    = None.
Proof.
  assert (H1 : 0 ≠ -1) by discriminate.
  split; [exact (conj H1 H1)|].
  destruct (sleep_ends_at_the_first_wake_up 20000 0 0 [false; false; true; false]
              Mcu.init_state H1 H1) as (_ & Hw & _ & _).
  destruct (sleep_ends_at_the_first_wake_up 20000 0 0 [false; false]
              Mcu.init_state H1 H1) as (_ & _ & _ & Hn).
  split; [rewrite Hw by lia; reflexivity | exact (Hn ltac:(lia))].
Defined.

Lemma nvm_write_then_read_round_trip_witness :
  let wbuf := [Byte.x01; Byte.x02; Byte.x03] in
  let rbuf := [Byte.xff; Byte.xff; Byte.xff; Byte.xff] in
  (0 <= 3 <= Z.of_nat (List.length wbuf) ∧ 3 <= Z.of_nat (List.length rbuf))
  ∧ ∃ content,
      Nvm.hal_nvm_write_buffer 2 wbuf 3 (Nvm.complete 3) None
      = (Some content, Ok ())
      ∧ Nvm.hal_nvm_read_buffer 2 rbuf 3 (Nvm.complete 3) (Some content)
        = (Some content, Ok [Byte.x01; Byte.x02; Byte.x03; Byte.xff]).
Proof.
  intros wbuf rbuf.
  assert (H1 : 0 <= 3 <= Z.of_nat (List.length wbuf)) by (simpl; lia).
  assert (H2 : 3 <= Z.of_nat (List.length rbuf)) by (simpl; lia).
  split; [exact (conj H1 H2)|].
  exact (proj1 (nvm_write_then_read_round_trip 2 3 wbuf rbuf None H1 H2)).
Defined.

Lemma nvm_read_delivers_what_the_file_holds_witness :
  let buffer := [Byte.xff; Byte.xff; Byte.xff; Byte.xff] in
  let file := [Byte.x01; Byte.x02; Byte.x03; Byte.x04; Byte.x05] in
  (0 <= 3 <= Z.of_nat (List.length buffer)
   ∧ 0 <= 2 <= Z.of_nat (List.length (Nvm.file_read (default [] (Some file))
                                                     (Z.to_nat 3) (Z.to_nat 3)))
   ∧ 0 <= 0 <= Z.of_nat (List.length (Nvm.file_read (default [] None)
                                                     (Z.to_nat 75) (Z.to_nat 3))))
  ∧ Nvm.hal_nvm_read_buffer 3 buffer 3 (Nvm.mk_syscalls 3 0 2 0) (Some file)
    = (Some file, Ok [Byte.x04; Byte.x05; Byte.xff; Byte.xff])
  ∧ Nvm.hal_nvm_read_buffer 75 buffer 3 (Nvm.mk_syscalls 3 0 0 0) None
    = (Some [], Ok buffer).
Proof.
  intros buffer file.
  assert (H1 : 0 <= 3 <= Z.of_nat (List.length buffer)) by (simpl; lia).
  assert (H2 : 0 <= 2 <= Z.of_nat (List.length
                                     (Nvm.file_read (default [] (Some file))
                                                    (Z.to_nat 3) (Z.to_nat 3))))
    by (vm_compute; split; discriminate).
  assert (H3 : 0 <= 0 <= Z.of_nat (List.length
                                     (Nvm.file_read (default [] None)
                                                    (Z.to_nat 75) (Z.to_nat 3))))
    by (vm_compute; split; discriminate).
  split; [exact (conj H1 (conj H2 H3))|].
  destruct (nvm_read_delivers_what_the_file_holds 3 3 2 buffer (Some file) H1 H2)
    as (got & buffer' & Hr & Hg & _ & Hb & _).
  destruct (nvm_read_delivers_what_the_file_holds 75 3 0 buffer None H1 H3)
    as (got0 & buffer0 & Hr0 & _ & _ & _ & _ & _ & _ & _ & Hfresh).
  split.
  - rewrite Hr, Hb, Hg. reflexivity.
  - rewrite Hr0. do 2 f_equal. exact (proj2 (Hfresh eq_refl)).
Defined.

Lemma context_store_then_restore_witness :
  let wbuf := [Byte.x0a; Byte.x0b] in
  let rbuf := [Byte.x00; Byte.x00] in
  (0 <= 2 <= Z.of_nat (List.length wbuf) ∧ 2 <= Z.of_nat (List.length rbuf))
  ∧ ∃ content,
      ModemHal.smtc_modem_hal_context_store ModemHal.CONTEXT_MODEM 0 wbuf 2
        (Nvm.complete 2) None = (Some content, Ok ())
      ∧ ModemHal.smtc_modem_hal_context_restore ModemHal.CONTEXT_MODEM 0 rbuf 2
          (Nvm.complete 2) (Some content) = (Some content, Ok wbuf).
Proof.
  intros wbuf rbuf.
  assert (H1 : 0 <= 2 <= Z.of_nat (List.length wbuf)) by (simpl; lia).
  assert (H2 : 2 <= Z.of_nat (List.length rbuf)) by (simpl; lia).
  split; [exact (conj H1 H2)|].
  destruct (context_store_then_restore ModemHal.CONTEXT_MODEM 0 2 wbuf rbuf None
              H1 H2) as (content & Hs & Hr & _).
  exists content. split; [exact Hs | exact Hr].
Defined.

Lemma context_store_keeps_ranges_apart_witness :
  let bufA := [Byte.x0a; Byte.x0b] in
  let bufB := [Byte.x00; Byte.x00] in
  let content := replicate 80 Byte.x07 in
  (ModemHal.context_address ModemHal.CONTEXT_KEY_MODEM 0 = Some 50
   ∧ ModemHal.context_address ModemHal.CONTEXT_MODEM 0 = Some 75
   ∧ 0 <= 2 <= Z.of_nat (List.length bufA)
   ∧ 0 <= 2 <= Z.of_nat (List.length bufB)
   ∧ (50 + 2 <= 75
      ∨ (75 + 2 <= 50 ∧ 75 + 2 <= Z.of_nat (List.length content))))
  ∧ ∃ content',
      ModemHal.smtc_modem_hal_context_store ModemHal.CONTEXT_KEY_MODEM 0 bufA 2
        (Nvm.complete 2) (Some content) = (Some content', Ok ())
      ∧ (ModemHal.smtc_modem_hal_context_restore ModemHal.CONTEXT_MODEM 0 bufB 2
           (Nvm.complete 2) (Some content')).2
        = Ok [Byte.x07; Byte.x07].
Proof.
  intros bufA bufB content.
  assert (H1 : ModemHal.context_address ModemHal.CONTEXT_KEY_MODEM 0 = Some 50)
    by reflexivity.
  assert (H2 : ModemHal.context_address ModemHal.CONTEXT_MODEM 0 = Some 75)
    by reflexivity.
  assert (H3 : 0 <= 2 <= Z.of_nat (List.length bufA)) by (simpl; lia).
  assert (H4 : 0 <= 2 <= Z.of_nat (List.length bufB)) by (simpl; lia).
  assert (H5 : 50 + 2 <= 75
               ∨ (75 + 2 <= 50 ∧ 75 + 2 <= Z.of_nat (List.length content)))
    by (left; lia).
  split; [exact (conj H1 (conj H2 (conj H3 (conj H4 H5))))|].
  destruct (context_store_keeps_ranges_apart
              ModemHal.CONTEXT_KEY_MODEM ModemHal.CONTEXT_MODEM 0 0 50 75 2 2
              bufA bufB content H1 H2 H3 H4 H5) as (content' & Hs & Hr).
  exists content'. split; [exact Hs|]. rewrite Hr. reflexivity.
Defined.

Lemma hex_to_str_reads_back_witness :
  let buf := [Byte.x0a; Byte.xff; Byte.x30] in
  (3 ≤ List.length buf)%nat
  ∧ App.hex_to_str buf 3 true = Ok (Some "0AFF30"%string)
  ∧ App.hex_to_str buf 4 true = Undef.
Proof.
  intros buf.
  assert (H1 : (3 ≤ List.length buf)%nat) by (simpl; lia).
  split; [exact H1|].
  destruct (hex_to_str_reads_back buf 3 H1) as ((s & Hs & _) & _ & Hu).
  split; [reflexivity|]. apply Hu. simpl. lia.
Defined.

Lemma deveui_to_str_fits_witness :
  let deveui := [Byte.x00; Byte.x16; Byte.xc0; Byte.x01;
                 Byte.xff; Byte.xfe; Byte.x00; Byte.x01] in
  (8 ≤ List.length deveui)%nat
  ∧ ∃ s, App.deveui_to_str 5 deveui = Ok (Some s)
         ∧ String.length s = 4%nat.
Proof.
  intros deveui.
  assert (H1 : (8 ≤ List.length deveui)%nat) by (simpl; lia).
  split; [exact H1|].
  destruct (deveui_to_str_fits 5 deveui H1) as (digits & _ & _ & _ & Hs).
  destruct (Hs ltac:(lia)) as (s & Hd & _ & Hl & _).
  exists s. split; [exact Hd | exact Hl].
Defined.

Lemma payload_size_within_bounds_witness :
  let g := Main.mk_globals 60 12 false in
  (0 <= Main.g_packet_size g <= 255 ∧ 0 <= 1000)
  ∧ 1 <= App.compute_payload_size g 1000 <= 12.
Proof.
  intros g.
  assert (H1 : 0 <= Main.g_packet_size g <= 255) by (simpl; lia).
  assert (H2 : 0 <= 1000) by lia.
  split; [exact (conj H1 H2)|].
  exact (proj1 (payload_size_within_bounds g 1000 H1 H2)).
Defined.

Lemma modem_irq_bracket_defers_covered_sources_witness :
  let st := ModemHal.mk_state
              (pins_after
                 [Gpio.InitIn 3 Gpio.BSP_GPIO_PULL_MODE_DOWN
                              Gpio.BSP_GPIO_IRQ_MODE_RISING irq_ptr 0 0 0 0])
              (timers_after [LpTimer.Start 0 100 handler_a 0;
                             LpTimer.Start 1 50 handler_b 0]) in
  let ns := [ModemHal.TimerExpiry 0; ModemHal.PinCallback 3 1 0;
             ModemHal.TimerExpiry 1; ModemHal.TimerExpiry 0] in
  let t1 := LpTimer.mk_timer 0 0 handler_a false false in
  let t2 := LpTimer.mk_timer 0 0 handler_b false false in
  (List.length (Gpio.gpio (ModemHal.pins st)) = pins
   ∧ LpTimer.lptim (ModemHal.timers st) !! 0%nat = Some t1
   ∧ LpTimer.lptim (ModemHal.timers st) !! 1%nat = Some t2
   ∧ forallb (ModemHal.bracketed pins 0 1 true) ns = true)
  ∧ ∃ st1 st2,
      ModemHal.smtc_modem_hal_disable_modem_irq pins 0 1 true st = Ok st1
      ∧ ModemHal.deliver_all ns st1 = Ok st2
      ∧ Gpio.trace (ModemHal.pins st2) = []
      ∧ LpTimer.trace (ModemHal.timers st2) = []
      ∧ (LpTimer.blocked <$> LpTimer.lptim (ModemHal.timers st2) !! 0%nat)
        = Some true
      ∧ (LpTimer.blocked <$> LpTimer.lptim (ModemHal.timers st2) !! 1%nat)
        = Some true.
Proof.
  intros st ns t1 t2.
  assert (H1 : List.length (Gpio.gpio (ModemHal.pins st)) = pins) by reflexivity.
  assert (H2 : LpTimer.lptim (ModemHal.timers st) !! 0%nat = Some t1)
    by reflexivity.
  assert (H3 : LpTimer.lptim (ModemHal.timers st) !! 1%nat = Some t2)
    by reflexivity.
  assert (H4 : forallb (ModemHal.bracketed pins 0 1 true) ns = true)
    by reflexivity.
  split; [exact (conj H1 (conj H2 (conj H3 H4)))|].
  destruct (modem_irq_bracket_defers_covered_sources
              pins 0 1 true st ns t1 t2 H1 H2 H3 H4)
    as (st1 & st2 & Hd & Hr & Hp & Ht & _ & Hb1 & Hb2 & _).
  exists st1, st2. split; [exact Hd|]. split; [exact Hr|].
  split; [exact Hp|]. split; [exact Ht|].
  split; [exact Hb1 | exact (Hb2 eq_refl)].
Defined.

End MoreWitnesses.
